(** * GalSim lensing engine: a shallow embedding of [galsim/lensing_ps.py]

    The development follows the layout of the Python module:
    - [theoryToObserved], the conversion to reduced shear and magnification;
    - [PowerSpectrumRealizer], the Fourier-space generator of one realization
      ([set_size], [set_power], [_generate_power_array], [_make_hermitian],
      [__call__]);
    - [PowerSpectrum], the grid owner ([buildGrid], [subsampleGrid],
      [nRandCallsForBuildGrid], [_convert_power_function], [calculateXi]) and
      its query layer ([getShear], [getConvergence], [getMagnification]).

    Python floats are idealised as real numbers, NumPy arrays are lists of
    rows, Python exceptions are values of a [result] type, and the only
    mutable objects (the [PowerSpectrum] instance and the random deviate) are
    threaded explicitly. *)

From Stdlib Require Import Reals Lra Lia ZArith ZifyNat String.
From stdpp Require Import base list strings.

(** [lia] is asked to reason about [/] and [mod] by constants. *)
Ltac Zify.zify_post_hook ::= Z.to_euclidean_division_equations.

Open Scope R_scope.

(** ** Exceptions and fallible computations *)

Inductive exn : Type :=
  | ValueError
  | TypeError
  | RuntimeError
  | AttributeError
  | NameError
  | IndexError
  | ZeroDivisionError
  | AssertionError
  | UserException (tag : nat).

Inductive result (A : Type) : Type :=
  | Ok (a : A)
  | Raise (e : exn).
Arguments Ok {A} a.
Arguments Raise {A} e.

#[global] Instance result_ret : MRet result := λ A a, Ok a.
#[global] Instance result_bind : MBind result := λ A B k m,
  match m with
  | Ok a => k a
  | Raise e => Raise e
  end.

Definition is_ok {A} (m : result A) : bool :=
  match m with Ok _ => true | Raise _ => false end.

(** Sequencing a list of fallible computations: the first exception wins. *)
Fixpoint rmapM {A B} (f : A → result B) (l : list A) : result (list B) :=
  match l with
  | [] => Ok []
  | x :: l' => y ← f x; ys ← rmapM f l'; Ok (y :: ys)
  end.

(** ** Python slices *)

(** [slice(start, stop, step)]; a bound that is [None] is left out. *)
Record slice : Type := Slice {
  sl_start : option Z;
  sl_stop : option Z;
  sl_step : option Z
}.

(** [range(a, b, st)] for [st ≠ 0] (Python raises on a zero step; the empty
    list stands for that case, which the module never reaches). *)
Definition py_range (a b st : Z) : list Z :=
  let n := if (0 <? st)%Z
           then (if (a <? b)%Z then (b - a - 1) / st + 1 else 0)%Z
           else if (st <? 0)%Z
           then (if (b <? a)%Z then (a - b - 1) / (- st) + 1 else 0)%Z
           else 0%Z in
  (λ i : nat, (a + Z.of_nat i * st)%Z) <$> seq 0 (Z.to_nat n).

(** [slice.indices(len)] followed by [range]: the positions a slice selects
    on an axis of length [len]. *)
Definition slice_list (s : slice) (len : nat) : list nat :=
  let n := Z.of_nat len in
  let st := default 1%Z (sl_step s) in
  let lower := if (st <? 0)%Z then (-1)%Z else 0%Z in
  let upper := if (st <? 0)%Z then (n - 1)%Z else n in
  let clamp v := if (v <? 0)%Z then Z.max (v + n) lower else Z.min v upper in
  let a := match sl_start s with
           | None => if (st <? 0)%Z then upper else lower
           | Some v => clamp v
           end in
  let b := match sl_stop s with
           | None => if (st <? 0)%Z then lower else upper
           | Some v => clamp v
           end in
  Z.to_nat <$> py_range a b st.

(** ** Two-dimensional arrays *)

Abbreviation arr2 A := (list (list A)).

Section Arrays.
Context {A : Type}.

Definition nrows (a : arr2 A) : nat := length a.
Definition ncols (a : arr2 A) : nat :=
  match a with [] => 0%nat | r :: _ => length r end.

(** [a[i, j]] for in-range non-negative integers. *)
Definition lookup2 (a : arr2 A) (i j : nat) : option A :=
  a !! i ≫= (.!! j).

Definition getitem (a : arr2 A) (i j : nat) : result A :=
  match lookup2 a i j with Some v => Ok v | None => Raise IndexError end.

(** [np.empty((r, c))]: an array whose cells hold an unspecified value. *)
Definition np_empty (junk : A) (r c : nat) : arr2 A :=
  replicate r (replicate c junk).

Definition amap {B} (f : A → B) (a : arr2 A) : arr2 B := map (map f) a.

(** The first position of [i] in a list of indices. *)
Fixpoint index_of (i : nat) (l : list nat) : option nat :=
  match l with
  | [] => None
  | x :: l' => if (x =? i)%nat then Some 0%nat else S <$> index_of i l'
  end.

(** Fancy reading [l[idx]] for indices produced by a slice. *)
Definition select {B} (l : list B) (idx : list nat) : list B :=
  omap (λ i, l !! i) idx.

(** [a[ys, xs]] where [ys] and [xs] are the positions selected on each
    axis (an integer index [k] is the one-element list [[k]]). *)
Definition sub_block (a : arr2 A) (ys xs : list nat) : arr2 A :=
  (λ row, select row xs) <$> select a ys.

(** [a[ys, xs] = rhs]: cell [(ys[p], xs[q])] receives [rhs[p][q]]; the
    right-hand side has been evaluated before anything is stored. *)
Definition assign_block (a : arr2 A) (ys xs : list nat) (rhs : arr2 A)
  : arr2 A :=
  imap (λ i row,
    imap (λ j v,
      match index_of i ys, index_of j xs with
      | Some p, Some q => default v (lookup2 rhs p q)
      | _, _ => v
      end) row) a.

(** [a[i, j] = v] with the bounds check of NumPy. *)
Definition setitem (a : arr2 A) (i j : nat) (v : A) : result (arr2 A) :=
  match lookup2 a i j with
  | Some _ => Ok (assign_block a [i] [j] [[v]])
  | None => Raise IndexError
  end.

Definition shape (a : arr2 A) (r c : nat) : Prop :=
  length a = r ∧ Forall (λ row, length row = c) a.
End Arrays.

(** ** Complex numbers, as NumPy's [complex] dtype over idealised floats *)

Record C : Type := mkC { Re : R; Im : R }.

Definition C0 : C := mkC 0 0.
Definition Ci : C := mkC 0 1.
Definition RtoC (x : R) : C := mkC x 0.
Definition Cadd (z w : C) : C := mkC (Re z + Re w) (Im z + Im w).
Definition Cmul (z w : C) : C :=
  mkC (Re z * Re w - Im z * Im w) (Re z * Im w + Im z * Re w).
Definition Cscale (x : R) (z : C) : C := mkC (x * Re z) (x * Im z).
Definition Cdiv (z w : C) : C :=
  let d := Re w * Re w + Im w * Im w in
  mkC ((Re z * Re w + Im z * Im w) / d) ((Im z * Re w - Re z * Im w) / d).
(** [np.conj] *)
Definition Cconj (z : C) : C := mkC (Re z) (- Im z).
(** [np.real(z)] stored back into a complex array *)
Definition Creal (z : C) : C := mkC (Re z) 0.
Definition is_real (z : C) : Prop := Im z = 0.

(** Comparison of floats, as a boolean. *)
Definition Rltb (x y : R) : bool := if Rlt_dec x y then true else false.
Definition Rleb (x y : R) : bool := if Rle_dec x y then true else false.
Definition Reqb (x y : R) : bool := if Req_dec_T x y then true else false.

(** ** Power functions and the random deviate *)

(** A power function is a Python callable that NumPy applies to every cell
    of the array it is given; a call may raise.  A [galsim.LookupTable]
    is such a callable that also exposes the ends [x_min], [x_max] of its
    domain. *)
Record power_fn : Type := PowerFn {
  pf_call : R → result R;
  pf_table : option (R * R)
}.

Definition pf_lambda (f : R → result R) : power_fn := PowerFn f None.

(** The callable applied to a one- or two-dimensional array. *)
Definition call_arr1 (f : power_fn) (k : list R) : result (list R) :=
  rmapM (pf_call f) k.
Definition call_arr2 (f : power_fn) (k : arr2 R) : result (arr2 R) :=
  rmapM (rmapM (pf_call f)) k.

(** Modelled from the spec: the deterministic pseudo-random Gaussian
    generator ([galsim.GaussianDeviate], not part of this module) is a fixed
    sequence of values, determined by the seed, together with the number of
    values already consumed. *)
Record GaussianDeviate : Type := Deviate {
  gd_stream : nat → R;
  gd_pos : nat
}.

(** Modelled from the spec: [galsim.utilities.rand_arr(shape, gd)] fills an
    array of the given shape with successive draws, row by row. *)
Definition rand_arr (shp : nat * nat) (gd : GaussianDeviate)
  : arr2 R * GaussianDeviate :=
  let '(r, c) := shp in
  ((λ i, (λ j, gd_stream gd (gd_pos gd + i * c + j)%nat) <$> seq 0 c)
     <$> seq 0 r,
   Deviate (gd_stream gd) (gd_pos gd + r * c)).

(** ** PowerSpectrumRealizer *)

(** Modelled from the spec: [np.fft.fftfreq(n)], the standard FFT frequency
    ordering [0, 1, ..., -2, -1] divided by [n]. *)
Definition fftfreq (n j : nat) : R :=
  if (j <? (n + 1) / 2)%nat then INR j / INR n else (INR j - INR n) / INR n.

(** Modelled from the spec: [galsim.utilities.kxky((ny, nx))], the two
    meshgrids of angular frequencies [2 pi fftfreq]. *)
Definition kxky (shp : nat * nat) : result (arr2 R * arr2 R) :=
  let '(ny, nx) := shp in
  if ((ny =? 0) || (nx =? 0))%nat then Raise ZeroDivisionError
  else Ok ((λ _ : nat, (λ j, 2 * PI * fftfreq nx j) <$> seq 0 nx) <$> seq 0 ny,
           (λ i, (λ _ : nat, 2 * PI * fftfreq ny i) <$> seq 0 nx) <$> seq 0 ny).

Record PowerSpectrumRealizer : Type := Realizer {
  nx : nat;
  ny : nat;
  pixel_size : R;
  ikx : slice;
  ikxp : slice;
  ikxn : slice;
  iky : slice;
  ikyp : slice;
  ikyn : slice;
  kx : arr2 R;
  ky : arr2 R;
  exp2ipsi : arr2 C;
  p_E : option power_fn;
  p_B : option power_fn;
  amplitude_E : option (arr2 R);
  amplitude_B : option (arr2 R)
}.

Definition zip2 {A B D} (f : A → B → D) (a : arr2 A) (b : arr2 B) : arr2 D :=
  zip_with (zip_with f) a b.

(** [_generate_exp2ipsi], on the scaled frequency grids. *)
Definition _generate_exp2ipsi (kx ky : arr2 R) : result (arr2 C) :=
  let kz := zip2 (λ x y, Cadd (RtoC x) (Cmul (RtoC y) Ci)) kx ky in
  let ksq := amap (λ z, Cmul z (Cconj z)) kz in
  ksq ← setitem ksq 0 0 (RtoC 1);
  Ok (zip2 (λ z q, Cdiv (Cmul z z) q) kz ksq).

(** [set_size]: the instance right after it, with no power set yet. *)
Definition set_size (ngrid : nat) (pixel_size : R)
  : result PowerSpectrumRealizer :=
  let nx := ngrid in
  let ny := ngrid in
  let ikx := Slice (Some 0%Z) (Some (Z.of_nat (nx / 2 + 1))) None in
  let ikxp := Slice (Some 1%Z) (Some (Z.of_nat ((nx + 1) / 2))) None in
  let ikxn := Slice (Some (-1)%Z) (Some (Z.of_nat (nx / 2))) (Some (-1)%Z) in
  let iky := Slice (Some 0%Z) (Some (Z.of_nat (ny / 2 + 1))) None in
  let ikyp := Slice (Some 1%Z) (Some (Z.of_nat ((ny + 1) / 2))) None in
  let ikyn := Slice (Some (-1)%Z) (Some (Z.of_nat (ny / 2))) (Some (-1)%Z) in
  '(kx, ky) ← kxky (ny, nx);
  let kx := amap (λ x, x / pixel_size) kx in
  let ky := amap (λ y, y / pixel_size) ky in
  e ← _generate_exp2ipsi kx ky;
  Ok (Realizer nx ny pixel_size ikx ikxp ikxn iky ikyp ikyn kx ky e
        None None None None).

(** [a[s1, s2]] and [a[s1, s2] = rhs] for slices resolved on the shape of
    [a]. *)
Definition getslice {A} (a : arr2 A) (s1 s2 : slice) : arr2 A :=
  sub_block a (slice_list s1 (nrows a)) (slice_list s2 (ncols a)).
Definition setslice {A} (a : arr2 A) (s1 s2 : slice) (rhs : arr2 A) : arr2 A :=
  assign_block a (slice_list s1 (nrows a)) (slice_list s2 (ncols a)) rhs.

(** [np.min], [np.max] and [np.any(a < 0)] on a two-dimensional array. *)
Definition arr_min (a : arr2 R) : R :=
  match concat a with [] => 0 | x :: l => foldr Rmin x l end.
Definition arr_max (a : arr2 R) : R :=
  match concat a with [] => 0 | x :: l => foldr Rmax x l end.
Definition any_negative (a : arr2 R) : bool :=
  existsb (existsb (λ x, Rltb x 0)) a.

(** The scalar [|k|] grid on which [_generate_power_array] evaluates the
    power function: the half plane [kx >= 0], [ky >= 0], with the value at
    [k = 0] replaced by its neighbour [k[1, 0]]. *)
Definition sampled_k (self : PowerSpectrumRealizer) : result (arr2 R) :=
  let k := zip2 (λ x y, sqrt (x ^ 2 + y ^ 2))
             (getslice (kx self) (iky self) (ikx self))
             (getslice (ky self) (iky self) (ikx self)) in
  k10 ← getitem k 1 0;
  setitem k 0 0 k10.

(** [_generate_power_array]: the power function evaluated on the half plane
    [kx >= 0], mirrored into the rows of negative [ky]. *)
Definition _generate_power_array (self : PowerSpectrumRealizer)
    (junk : R) (power_function : power_fn) : result (arr2 R) :=
  let power_array := np_empty junk (ny self) (nx self / 2 + 1) in
  k ← sampled_k self;
  _ ← match pf_table power_function with
      | Some (x_min, x_max) =>
          if Rltb (arr_min k) x_min || Rltb x_max (arr_max k)
          then Raise ValueError else Ok ()
      | None => Ok ()
      end;
  P_k ← call_arr2 power_function k;
  _ ← getitem P_k 0 1;
  P_k ← setitem P_k 0 0 0;
  if any_negative P_k then Raise ValueError
  else
    let power_array := setslice power_array (iky self) (ikx self) P_k in
    let power_array :=
      setslice power_array (ikyn self) (ikx self)
        (getslice P_k (ikyp self) (ikx self)) in
    Ok power_array.

(** [_make_hermitian]: fills the half plane [kx < 0] (and the self-paired
    rows and columns) so that [P_k[-k] = conj(P_k[k])]. *)
Definition _make_hermitian (self : PowerSpectrumRealizer) (P_k : arr2 C)
  : arr2 C :=
  let i0 := Slice (Some 0%Z) (Some 1%Z) None in
  let at_ k := Slice (Some (Z.of_nat k)) (Some (Z.of_nat k + 1)%Z) None in
  let P_k := setslice P_k (ikyn self) i0
               (amap Cconj (getslice P_k (ikyp self) i0)) in
  let P_k := setslice P_k i0 i0 (amap Creal (getslice P_k i0 i0)) in
  let P_k := setslice P_k (ikyp self) (ikxn self)
               (amap Cconj (getslice P_k (ikyn self) (ikxp self))) in
  let P_k := setslice P_k (ikyn self) (ikxn self)
               (amap Cconj (getslice P_k (ikyp self) (ikxp self))) in
  let P_k := setslice P_k i0 (ikxn self)
               (amap Cconj (getslice P_k i0 (ikxp self))) in
  if (Nat.modulo (ny self) 2 =? 0)%nat then
    let hx := at_ (nx self / 2)%nat in
    let hy := at_ (ny self / 2)%nat in
    let P_k := setslice P_k (ikyn self) hx
                 (amap Cconj (getslice P_k (ikyp self) hx)) in
    let P_k := setslice P_k hy (ikxn self)
                 (amap Cconj (getslice P_k hy (ikxp self))) in
    let P_k := setslice P_k hy i0 (amap Creal (getslice P_k hy i0)) in
    let P_k := setslice P_k i0 hx (amap Creal (getslice P_k i0 hx)) in
    let P_k := setslice P_k hy hx (amap Creal (getslice P_k hy hx)) in
    P_k
  else P_k.

(** The collaborators of the module that live outside it: NumPy's inverse
    transforms and the contents of freshly allocated arrays ([np.empty]). *)
Class Numpy : Type := {
  ifft2 : arr2 C → arr2 C;
  irfft2 : arr2 C → nat * nat → arr2 R;
  junkR : R;
  junkC : C
}.

Section Realizer.
Context `{Numpy}.

(** [set_power]: the amplitudes are [sqrt(power) / pixel_size]. *)
Definition set_power (self : PowerSpectrumRealizer)
    (p_E p_B : option power_fn) : result PowerSpectrumRealizer :=
  let amplitude (p : option power_fn) : result (option (arr2 R)) :=
    match p with
    | None => Ok None
    | Some f =>
        pa ← _generate_power_array self junkR f;
        Ok (Some (amap (λ x, sqrt x / pixel_size self) pa))
    end in
  amplitude_E ← amplitude p_E;
  amplitude_B ← amplitude p_B;
  Ok (Realizer (nx self) (ny self) (pixel_size self)
        (ikx self) (ikxp self) (ikxn self)
        (iky self) (ikyp self) (ikyn self)
        (kx self) (ky self) (exp2ipsi self)
        p_E p_B amplitude_E amplitude_B).

(** [PowerSpectrumRealizer.__init__] *)
Definition PowerSpectrumRealizer_init (ngrid : nat) (pixel_size : R)
    (p_E p_B : option power_fn) : result PowerSpectrumRealizer :=
  self ← set_size ngrid pixel_size;
  set_power self p_E p_B.

Definition ISQRT2 : R := sqrt (1 / 2).

(** The random complex realization of one mode, as [__call__] builds it
    for E and then for B: two arrays of draws, the half plane, and the
    Hermitian completion. *)
Definition mode_half_plane (amplitude r1 r2 : arr2 R) : arr2 C :=
  zip2 (λ a z, Cmul (Cmul (RtoC a) z) (RtoC ISQRT2)) amplitude
    (zip2 (λ x y, Cadd (RtoC x) (Cmul Ci (RtoC y))) r1 r2).

Definition realize_mode (self : PowerSpectrumRealizer)
    (amplitude : arr2 R) (gd : GaussianDeviate)
  : arr2 C * GaussianDeviate :=
  let shp := (nrows amplitude, ncols amplitude) in
  let '(r1, gd) := rand_arr shp gd in
  let '(r2, gd) := rand_arr shp gd in
  let X_k := np_empty junkC (ny self) (nx self) in
  let X_k := setslice X_k (Slice None None None) (ikx self)
               (mode_half_plane amplitude r1 r2) in
  (_make_hermitian self X_k, gd).

(** A Python scalar [0] standing for an absent mode is broadcast against
    the arrays it is combined with. *)
Definition broadcast0 (self : PowerSpectrumRealizer) (a : option (arr2 C))
  : arr2 C :=
  default (replicate (ny self) (replicate (nx self) C0)) a.

(** [PowerSpectrumRealizer.__call__]: one realization [(g1, g2, kappa)]
    and the deviate after the draws. *)
Definition PowerSpectrumRealizer_call (self : PowerSpectrumRealizer)
    (gd : GaussianDeviate)
  : (arr2 R * arr2 R * arr2 R) * GaussianDeviate :=
  let '(E_k, gd) :=
    match amplitude_E self with
    | Some amp => let '(E_k, gd) := realize_mode self amp gd in (Some E_k, gd)
    | None => (None, gd)
    end in
  let '(B_k, gd) :=
    match amplitude_B self with
    | Some amp => let '(B_k, gd) := realize_mode self amp gd in (Some B_k, gd)
    | None => (None, gd)
    end in
  let kappa_k :=
    zip2 (λ e b, Cadd e (Cmul Ci b))
      (broadcast0 self E_k) (broadcast0 self B_k) in
  let gamma_k := zip2 Cmul (exp2ipsi self) kappa_k in
  let gamma := amap (Cscale (INR (nx self))) (ifft2 gamma_k) in
  let g1 := amap Re gamma in
  let g2 := amap Im gamma in
  let k :=
    match E_k with
    | None => replicate (ny self) (replicate (nx self) 0)
    | Some E_k =>
        amap (λ x, INR (nx self) * x)
          (irfft2 (getslice E_k (Slice None None None) (ikx self))
             (ny self, nx self))
    end in
  ((g1, g2, k), gd).
End Realizer.

(** ** theoryToObserved *)

(** The forms in which shears and convergences may be supplied: a float, a
    list, a tuple, a NumPy array, or a number of another type (an [int],
    say).  The values are numbers throughout: an input without arithmetic
    (a [str], [None], a list of them), on which the formulas below raise
    NumPy's [TypeError], is not represented. *)
Inductive lens_val : Type :=
  | LFloat (x : R)
  | LList (l : list R)
  | LTuple (l : list R)
  | LArray (a : arr2 R)
  | LOther (x : R).

Definition same_type (v w : lens_val) : bool :=
  match v, w with
  | LFloat _, LFloat _ | LList _, LList _ | LTuple _, LTuple _
  | LArray _, LArray _ => true
  (* two values that are neither of the four may or may not share a type *)
  | LOther _, LOther _ => true
  | _, _ => false
  end.

(** [np.array(v)]: every form becomes an array of cells; a scalar is the
    one-cell array, a flat sequence a one-row array. *)
Definition np_array (v : lens_val) : arr2 R :=
  match v with
  | LFloat x | LOther x => [[x]]
  | LList l | LTuple l => [l]
  | LArray a => a
  end.

(** [np.array(v).shape] *)
Definition np_shape (v : lens_val) : list nat :=
  match v with
  | LFloat _ | LOther _ => []
  | LList l | LTuple l => [length l]
  | LArray a => [nrows a; ncols a]
  end.

Definition shape_eqb (s t : list nat) : bool := bool_decide (s = t).

(** The three formulas, cell by cell. *)
Definition reduced_shear (gamma kappa : R) : R := gamma / (1 - kappa).
Definition magnification (gamma1 gamma2 kappa : R) : R :=
  1 / ((1 - kappa) ^ 2 - (gamma1 ^ 2 + gamma2 ^ 2)).

Definition theoryToObserved (gamma1 gamma2 kappa : lens_val)
  : result (lens_val * lens_val * lens_val) :=
  if negb (same_type gamma1 gamma2) then Raise ValueError
  else if negb (same_type kappa gamma1) then Raise ValueError
  else
    let gamma1_tmp := np_array gamma1 in
    let gamma2_tmp := np_array gamma2 in
    let kappa_tmp := np_array kappa in
    if negb (shape_eqb (np_shape gamma1) (np_shape gamma2)) then Raise ValueError
    else if negb (shape_eqb (np_shape kappa) (np_shape gamma1)) then
      Raise ValueError
    else
      let g1 := zip2 reduced_shear gamma1_tmp kappa_tmp in
      let g2 := zip2 reduced_shear gamma2_tmp kappa_tmp in
      let mu := zip2 (λ g k, g k)
                  (zip2 magnification gamma1_tmp gamma2_tmp) kappa_tmp in
      let scalar (a : arr2 R) : R := default 0 (lookup2 a 0 0) in
      let flat (a : arr2 R) : list R := default [] (a !! 0%nat) in
      match gamma1 with
      | LFloat _ => Ok (LFloat (scalar g1), LFloat (scalar g2), LFloat (scalar mu))
      | LList _ => Ok (LList (flat g1), LList (flat g2), LList (flat mu))
      | LTuple _ => Ok (LTuple (flat g1), LTuple (flat g2), LTuple (flat mu))
      | LArray _ => Ok (LArray g1, LArray g2, LArray mu)
      | LOther _ => Raise ValueError
      end.

(** ** PowerSpectrum: data *)

(** A Python number handed to an integer parameter. *)
Inductive py_num : Type :=
  | PyInt (z : Z)
  | PyFloat (x : R).

(** [int(x)] truncates toward zero. *)
Definition py_int (x : R) : Z :=
  if Rle_dec 0 x then Int_part x else (- Int_part (- x))%Z.

(** The check buildGrid and calculateXi apply to their integer parameters:
    an [int] passes, another number must be integral and is converted. *)
Definition check_int (v : py_num) : result Z :=
  match v with
  | PyInt z => Ok z
  | PyFloat x => if Reqb x (IZR (py_int x)) then Ok (py_int x)
                 else Raise ValueError
  end.

(** [a // b] and [a / b] on Python floats. *)
Definition py_floordiv (a b : R) : result R :=
  if Reqb b 0 then Raise ZeroDivisionError
  else Ok (IZR (Int_part (a / b))).
Definition py_truediv (a b : R) : result R :=
  if Reqb b 0 then Raise ZeroDivisionError else Ok (a / b).
(** [a % b] on Python floats: the result takes the sign of [b]. *)
Definition py_mod (a b : R) : result R :=
  if Reqb b 0 then Raise ZeroDivisionError
  else Ok (a - b * IZR (Int_part (a / b))).

(** Positions are pairs [(x, y)]. *)
Definition pos_add (p q : R * R) : R * R := (p.1 + q.1, p.2 + q.2).
Definition pos_sub (p q : R * R) : R * R := (p.1 - q.1, p.2 - q.2).
Definition pos_mul (p : R * R) (c : R) : R * R := (p.1 * c, p.2 * c).
Definition pos_div (p : R * R) (c : R) : R * R := (p.1 / c, p.2 / c).

(** Modelled from the spec: [galsim.BoundsD], an axis-aligned rectangle
    with inclusive membership, and its expansion by a relative factor about
    its centre. *)
Record BoundsD : Type := Bounds { xmin : R; xmax : R; ymin : R; ymax : R }.

Definition bounds_defined (b : BoundsD) : bool :=
  Rleb (xmin b) (xmax b) && Rleb (ymin b) (ymax b).
Definition bounds_includes (b : BoundsD) (p : R * R) : bool :=
  bounds_defined b
  && Rleb (xmin b) p.1 && Rleb p.1 (xmax b)
  && Rleb (ymin b) p.2 && Rleb p.2 (ymax b).
Definition bounds_expand (b : BoundsD) (factor : R) : BoundsD :=
  let dx := (xmax b - xmin b) * (1 / 2) * (factor - 1) in
  let dy := (ymax b - ymin b) * (1 / 2) * (factor - 1) in
  Bounds (xmin b - dx) (xmax b + dx) (ymin b - dy) (ymax b + dy).

(** A power function as the constructor receives it. *)
Inductive pf_input : Type :=
  | PFString (s : string)
  | PFCallable (f : power_fn).

(** The [units] argument: a string, an [AngleUnit] (given by its size in
    arcsec, so that [galsim.arcsec] is [1]), or something else. *)
Inductive units_arg : Type :=
  | UnitsStr (s : string)
  | UnitsAngle (u : R)
  | UnitsOther.

Inductive center_arg : Type :=
  | CenterPositionD (x y : R)
  | CenterPositionI (x y : Z)
  | CenterTuple (l : list R)
  | CenterOther.

Inductive bandlimit_arg : Type :=
  | BandHard
  | BandSoft
  | BandNone
  | BandOther.

(** The collaborators of [PowerSpectrum] that live outside the module. *)
Class Galsim : Type := {
  Interpolant : Type;
  Lanczos : nat → Interpolant;
  Quintic : Interpolant;
  (** [SBInterpolatedImage(image, xInterp, kInterp).xValue(pos)] *)
  xValue : arr2 R → Interpolant → Interpolant → R * R → R;
  os_path_isfile : string → bool;
  LookupTable_file : string → result power_fn;
  math_eval : string → result power_fn;
  get_angle_unit : string → result R;
  (** [galsim.integ.int1d(f, a, b, rel_err, abs_err)] *)
  int1d : (R → result R) → R → R → R → R → result R;
  bessel_j0 : R → R;
  bessel_jn : nat → R → R
}.

Section PowerSpectrum.
Context `{Numpy} `{Galsim}.

(** The attributes buildGrid creates together. *)
Record Geometry : Type := Geom {
  grid_spacing : R;
  center : R * R;
  adjust_center : bool;
  bounds : BoundsD
}.

(** The instance.  An attribute that buildGrid has not created yet is
    [None] ([hasattr] is false). *)
Record PowerSpectrum : Type := PS {
  e_power_function : option pf_input;
  b_power_function : option pf_input;
  delta2 : bool;
  units : units_arg;
  scale : R;
  geometry : option Geometry;
  interpolant : option Interpolant;
  (** [ngrid_tot] and [pixel_size] *)
  ngrid_tot : option (Z * R);
  (** [grid_g1], [grid_g2], [grid_kappa] *)
  grids : option (arr2 R * arr2 R * arr2 R);
  (** the arrays of [im_g1], [im_g2], [im_kappa] *)
  images : option (arr2 R * arr2 R * arr2 R)
}.

Definition with_geometry (self : PowerSpectrum) (g : Geometry) :=
  PS (e_power_function self) (b_power_function self) (delta2 self)
     (units self) (scale self) (Some g) (interpolant self)
     (ngrid_tot self) (grids self) (images self).
Definition with_interpolant (self : PowerSpectrum) (i : Interpolant) :=
  PS (e_power_function self) (b_power_function self) (delta2 self)
     (units self) (scale self) (geometry self) (Some i)
     (ngrid_tot self) (grids self) (images self).
Definition with_ngrid_tot (self : PowerSpectrum) (n : Z) (p : R) :=
  PS (e_power_function self) (b_power_function self) (delta2 self)
     (units self) (scale self) (geometry self) (interpolant self)
     (Some (n, p)) (grids self) (images self).
Definition with_grids (self : PowerSpectrum) (g : arr2 R * arr2 R * arr2 R) :=
  PS (e_power_function self) (b_power_function self) (delta2 self)
     (units self) (scale self) (geometry self) (interpolant self)
     (ngrid_tot self) (Some g) (images self).
Definition with_images (self : PowerSpectrum) (g : arr2 R * arr2 R * arr2 R) :=
  PS (e_power_function self) (b_power_function self) (delta2 self)
     (units self) (scale self) (geometry self) (interpolant self)
     (ngrid_tot self) (grids self) (Some g).

(** *** _convert_power_function *)

(** The names bound where the [except] clause of
    [_convert_power_function] builds its message: the locals of the
    method and the globals of the module. *)
Definition names_in_scope : list string :=
  ["self"; "pf"; "pf_str"; "os"; "e";
   "galsim"; "np"; "theoryToObserved"; "PowerSpectrum";
   "PowerSpectrumRealizer"; "kappaKaiserSquires";
   "xip_integrand"; "xim_integrand"]%string.

(** Reading a variable: an unbound name raises [NameError]. *)
Definition read_name (x : string) : result unit :=
  if bool_decide (x ∈ names_in_scope) then Ok () else Raise NameError.

Definition _convert_power_function (pf : option pf_input)
  : result (option power_fn) :=
  match pf with
  | None => Ok None
  | Some pf =>
      pf ← match pf with
           | PFString s =>
               if os_path_isfile s then LookupTable_file s
               else
                 match (f ← math_eval ("lambda k : " ++ s)%string;
                        _ ← pf_call f 1;
                        Ok f) with
                 | Ok f => Ok f
                 | Raise e =>
                     (* raise ValueError("..." + "...".format(origpf) + ...) *)
                     _ ← read_name "origpf";
                     Raise ValueError
                 end
           | PFCallable f => Ok f
           end;
      match pf_table pf with
      | Some _ => Ok (Some pf)
      | None =>
          f1 ← call_arr1 pf [1 / 10; 1];
          fake_p ← call_arr1 pf [0; 0];
          Ok (Some pf)
      end
  end.

(** *** __init__ *)

Definition resolve_units (u : units_arg) : result R :=
  match u with
  | UnitsStr s => get_angle_unit s
  | UnitsAngle u => Ok u
  | UnitsOther => Raise ValueError
  end.

Definition PowerSpectrum_init (e_power_function b_power_function : option pf_input)
    (delta2 : bool) (units : units_arg) : result PowerSpectrum :=
  match e_power_function, b_power_function with
  | None, None => Raise AttributeError
  | _, _ =>
      _ ← _convert_power_function e_power_function;
      _ ← _convert_power_function b_power_function;
      u ← resolve_units units;
      let scale := if Reqb u 1 then 1 else 1 * u / 1 in
      Ok (PS e_power_function b_power_function delta2 units scale
            None None None None None)
  end.

(** *** Band limits and the power functions handed to the realizer *)

Definition _hard_cutoff (k k_max : R) : R := if Rltb k k_max then 1 else 0.

Definition _softening_function (k k_max : R) : R :=
  let b := tan (- (45 / 100) * PI) in
  let a := (tan (45 / 100 * PI) - b) / ln (95 / 100) in
  (atan (a * ln (k / k_max) + b) + PI / 2) / PI.

Definition bandlimit_func (bandlimit : bandlimit_arg)
  : result (R → R → R) :=
  match bandlimit with
  | BandHard => Ok _hard_cutoff
  | BandSoft => Ok _softening_function
  | BandNone => Ok (λ _ _, 1)
  | BandOther => Raise RuntimeError
  end.

(** The lambda [p_E] (and, written out again, [p_B]) that buildGrid and
    calculateXi build around a converted power function. *)
Definition wrap_power (self : PowerSpectrum) (bl : R → R → R) (k_max : R)
    (pf : option power_fn) : option power_fn :=
  match pf with
  | None => None
  | Some f =>
      Some (pf_lambda (λ k,
        if delta2 self then
          v ← pf_call f (scale self * k);
          Ok ((2 * PI) * v / (k ^ 2)
              * bl (scale self * k) (scale self * k_max))
        else if negb (Reqb (scale self) 1) then
          v ← pf_call f (scale self * k);
          Ok (v * (scale self ^ 2)
              * bl (scale self * k) (scale self * k_max))
        else
          v ← pf_call f k;
          Ok (v * bl k k_max)))
  end.

(** *** buildGrid *)

Record buildGrid_args : Type := BuildGridArgs {
  bg_grid_spacing : option R;
  bg_ngrid : option py_num;
  bg_interpolant : option Interpolant;
  bg_center : center_arg;
  bg_units : units_arg;
  bg_get_convergence : bool;
  bg_kmin_factor : py_num;
  bg_kmax_factor : py_num;
  bg_bandlimit : bandlimit_arg
}.

Definition parse_center (c : center_arg) : result (R * R) :=
  match c with
  | CenterPositionD x y => Ok (x, y)
  | CenterPositionI x y => Ok (IZR x, IZR y)
  | CenterTuple [x; y] => Ok (x, y)
  | _ => Raise TypeError
  end.

(** The checks and conversions at the top of buildGrid: the integer
    parameters, the centre and the spacing in arcsec. *)
Definition buildGrid_inputs (a : buildGrid_args)
  : result (R * Z * Z * Z * (R * R)) :=
  match bg_grid_spacing a, bg_ngrid a with
  | Some grid_spacing, Some ngrid =>
      ngrid ← check_int ngrid;
      kmin_factor ← check_int (bg_kmin_factor a);
      kmax_factor ← check_int (bg_kmax_factor a);
      center ← parse_center (bg_center a);
      u ← resolve_units (bg_units a);
      let '(center, grid_spacing) :=
        if negb (Reqb u 1) then
          let scale_fac := (1 * u) / 1 in
          (pos_mul center scale_fac, grid_spacing * scale_fac)
        else (center, grid_spacing) in
      Ok (grid_spacing, ngrid, kmin_factor, kmax_factor, center)
  | _, _ => Raise ValueError
  end.

(** The power functions, converted and wrapped with the band limit. *)
Definition buildGrid_power (self : PowerSpectrum) (stored_spacing : R)
    (bandlimit : bandlimit_arg)
  : result (option power_fn * option power_fn) :=
  e ← _convert_power_function (e_power_function self);
  b ← _convert_power_function (b_power_function self);
  k_max ← py_truediv PI stored_spacing;
  bl ← bandlimit_func bandlimit;
  Ok (wrap_power self bl k_max e, wrap_power self bl k_max b).

Definition buildGrid (self : PowerSpectrum) (a : buildGrid_args)
    (rng : GaussianDeviate)
  : result (arr2 R * arr2 R * option (arr2 R))
    * PowerSpectrum * GaussianDeviate :=
  match
    (v ← buildGrid_inputs a;
     let '(grid_spacing, _, _, kmax_factor, _) := v in
     stored ← py_floordiv grid_spacing (IZR kmax_factor);
     Ok (v, stored))
  with
  | Raise e => (Raise e, self, rng)
  | Ok (grid_spacing, ngrid, kmin_factor, kmax_factor, center0, stored) =>
      (* self.grid_spacing = grid_spacing // kmax_factor *)
      let even := (ngrid `mod` 2 =? 0)%Z in
      let center1 :=
        if even then pos_add center0 (pos_mul (1 / 2, 1 / 2) stored)
        else center0 in
      let half := IZR ngrid * grid_spacing / 2 in
      let bnd := Bounds (center0.1 - half) (center0.1 + half)
                        (center0.2 - half) (center0.2 + half) in
      let bnd := bounds_expand bnd (1 + 1 / 10 ^ 15) in
      let self := with_geometry self (Geom stored center1 even bnd) in
      let gd := rng in
      let self := with_interpolant self
                    (default (Lanczos 5) (bg_interpolant a)) in
      match buildGrid_power self stored (bg_bandlimit a) with
      | Raise e => (Raise e, self, gd)
      | Ok (p_E, p_B) =>
          let ntot := (ngrid * kmin_factor * kmax_factor)%Z in
          let pixel := grid_spacing / IZR kmax_factor in
          let self := with_ngrid_tot self ntot pixel in
          match
            (if (ntot <? 0)%Z then Raise ValueError
             else PowerSpectrumRealizer_init (Z.to_nat ntot) pixel p_E p_B)
          with
          | Raise e => (Raise e, self, gd)
          | Ok psr =>
              let '((g1, g2, kappa), gd) := PowerSpectrumRealizer_call psr gd in
              let '(g1, g2, kappa) :=
                if negb (kmin_factor =? 1)%Z || negb (kmax_factor =? 1)%Z
                then
                  let s := Slice (Some 0%Z) (Some (ngrid * kmax_factor)%Z)
                             (Some kmax_factor) in
                  (getslice g1 s s, getslice g2 s s, getslice kappa s s)
                else (g1, g2, kappa) in
              let self := with_grids self (g1, g2, kappa) in
              let self := with_images self (g1, g2, kappa) in
              (Ok (g1, g2, if bg_get_convergence a then Some kappa else None),
               self, gd)
          end
      end
  end.

(** *** nRandCallsForBuildGrid *)

Definition nRandCallsForBuildGrid (self : PowerSpectrum) : result Z :=
  match ngrid_tot self with
  | None => Raise RuntimeError
  | Some (ngrid_tot, _) =>
      let ntot := 0%Z in
      let temp := (2 * (ngrid_tot * (ngrid_tot `div` 2 + 1)))%Z in
      let ntot := match e_power_function self with
                  | Some _ => (ntot + temp)%Z
                  | None => ntot
                  end in
      let ntot := match b_power_function self with
                  | Some _ => (ntot + temp)%Z
                  | None => ntot
                  end in
      Ok ntot
  end.

(** *** subsampleGrid *)

Definition subsampleGrid (self : PowerSpectrum) (subsample_fac : py_num)
    (get_convergence : bool)
  : result (arr2 R * arr2 R * option (arr2 R)) * PowerSpectrum :=
  match images self with
  | None => (Raise RuntimeError, self)
  | Some (im_g1, im_g2, im_kappa) =>
      let effective_ngrid := Z.of_nat (nrows im_g1) in
      match subsample_fac with
      | PyFloat _ => (Raise RuntimeError, self)
      | PyInt f =>
          if (f =? 0)%Z then (Raise ZeroDivisionError, self)
          else if negb (effective_ngrid `mod` f =? 0)%Z || (f <=? 1)%Z
          then (Raise RuntimeError, self)
          else
            let s := Slice None None (Some f) in
            let self := with_images self
                          (getslice im_g1 s s, getslice im_g2 s s,
                           getslice im_kappa s s) in
            match geometry self, grids self with
            | Some g, Some (grid_g1, grid_g2, grid_kappa) =>
                let c := if adjust_center g
                         then pos_add (center g)
                                (pos_mul (pos_mul (1 / 2, 1 / 2) (grid_spacing g))
                                         (IZR (f - 1)))
                         else center g in
                let self := with_geometry self
                              (Geom (grid_spacing g * IZR f) c
                                    (adjust_center g) (bounds g)) in
                (Ok (grid_g1, grid_g2,
                     if get_convergence then Some grid_kappa else None),
                 self)
            | _, _ => (Raise AttributeError, self)
            end
      end
  end.
(** *** The query layer *)

(** [_wrap_image]: the image surrounded by [border] cells copied from the
    opposite sides (four strips, four corners). *)
Definition _wrap_image (im : arr2 R) (border : nat) : result (arr2 R) :=
  let m := nrows im in
  let n := ncols im in
  if (Z.of_nat n - 1 <? Z.of_nat border)%Z then Raise RuntimeError
  else
    let b := border in
    let im_new := replicate (m + 2 * b) (replicate (n + 2 * b) 0) in
    let im_new := assign_block im_new (seq b m) (seq b n) im in
    (* strips: left, right, bottom, top *)
    let im_new := assign_block im_new (seq b m) (seq 0 b)
                    (sub_block im (seq 0 m) (seq (n - b) b)) in
    let im_new := assign_block im_new (seq b m) (seq (b + n) b)
                    (sub_block im (seq 0 m) (seq 0 b)) in
    let im_new := assign_block im_new (seq 0 b) (seq b n)
                    (sub_block im (seq (m - b) b) (seq 0 n)) in
    let im_new := assign_block im_new (seq (b + m) b) (seq b n)
                    (sub_block im (seq 0 b) (seq 0 n)) in
    (* corners: lower left, upper right, upper left, lower right *)
    let im_new := assign_block im_new (seq 0 b) (seq 0 b)
                    (sub_block im (seq (m - b) b) (seq (n - b) b)) in
    let im_new := assign_block im_new (seq (b + m) b) (seq (b + n) b)
                    (sub_block im (seq 0 b) (seq 0 b)) in
    let im_new := assign_block im_new (seq (b + m) b) (seq 0 b)
                    (sub_block im (seq 0 b) (seq (n - b) b)) in
    let im_new := assign_block im_new (seq 0 b) (seq (b + n) b)
                    (sub_block im (seq (m - b) b) (seq 0 b)) in
    Ok im_new.

(** A warning issued through [warnings.warn] for a position. *)
Inductive warning : Type :=
  | OutsideBounds (p : R * R).

(** The position wrapped into the box, for the periodic treatment. *)
Definition wrap_pos (b : BoundsD) (p : R * R) : result (R * R) :=
  let dx := xmax b - xmin b in
  let dy := ymax b - ymin b in
  x ← py_mod (p.1 - xmin b) dx;
  y ← py_mod (p.2 - ymin b) dy;
  Ok (x + xmin b, y + ymin b).

(** The loop over the positions, which the four [get] methods write out
    in the same way: a position outside the bounds gets the value
    [outside] and a warning, or is wrapped when the box is periodic; the
    others are interpolated at [(pos - center) / grid_spacing]. *)
Fixpoint query_loop {A} (g : Geometry) (periodic : bool) (outside : A)
    (inside : R * R → A) (pos : list (R * R))
  : result (list A) * list warning :=
  match pos with
  | [] => (Ok [], [])
  | iter_pos :: rest =>
      if negb (bounds_includes (bounds g) iter_pos) then
        if negb periodic then
          let '(r, w) := query_loop g periodic outside inside rest in
          (l ← r; Ok (outside :: l), OutsideBounds iter_pos :: w)
        else
          match wrap_pos (bounds g) iter_pos with
          | Raise e => (Raise e, [])
          | Ok wp =>
              let '(r, w) := query_loop g periodic outside inside rest in
              (l ← r;
               Ok (inside (pos_div (pos_sub wp (center g)) (grid_spacing g))
                     :: l), w)
          end
      else
        let '(r, w) := query_loop g periodic outside inside rest in
        (l ← r;
         Ok (inside (pos_div (pos_sub iter_pos (center g)) (grid_spacing g))
               :: l), w)
  end.

(** The image handed to the interpolation: padded when periodic. *)
Definition interp_image (periodic : bool) (im : arr2 R) : result (arr2 R) :=
  if periodic then _wrap_image im 7 else Ok im.

(** What the [get] methods need from a built instance. *)
Definition built (self : PowerSpectrum)
  : result (arr2 R * arr2 R * arr2 R * Geometry * Interpolant) :=
  match images self with
  | None => Raise RuntimeError
  | Some ims =>
      match geometry self, interpolant self with
      | Some g, Some i => Ok (ims, g, i)
      | _, _ => Raise AttributeError
      end
  end.

(** The positions are given after [_convertPositions], as pairs in
    arcsec; the values come back in the same order. *)
Definition getShear (self : PowerSpectrum) (pos : list (R * R))
    (reduced periodic : bool) (interp : option Interpolant)
  : result (list (R * R)) * list warning :=
  match
    (b ← built self;
     let '(im_g1, im_g2, im_kappa, g, i) := b in
     let xinterp := default i interp in
     let kinterp := Quintic in
     ims ← (if reduced then
              r ← theoryToObserved (LArray im_g1) (LArray im_g2)
                    (LArray im_kappa);
              Ok (np_array r.1.1, np_array r.1.2)
            else Ok (im_g1, im_g2));
     a1 ← interp_image periodic ims.1;
     a2 ← interp_image periodic ims.2;
     Ok (g, λ c, (xValue a1 xinterp kinterp c, xValue a2 xinterp kinterp c)))
  with
  | Raise e => (Raise e, [])
  | Ok (g, sbii) => query_loop g periodic (0, 0) sbii pos
  end.

Definition getConvergence (self : PowerSpectrum) (pos : list (R * R))
    (periodic : bool) (interp : option Interpolant)
  : result (list R) * list warning :=
  match
    (b ← built self;
     let '(_, _, im_kappa, g, i) := b in
     let xinterp := default i interp in
     let kinterp := Quintic in
     a ← interp_image periodic im_kappa;
     Ok (g, xValue a xinterp kinterp))
  with
  | Raise e => (Raise e, [])
  | Ok (g, sbii_kappa) => query_loop g periodic 0 sbii_kappa pos
  end.

Definition getMagnification (self : PowerSpectrum) (pos : list (R * R))
    (periodic : bool) (interp : option Interpolant)
  : result (list R) * list warning :=
  match
    (b ← built self;
     let '(im_g1, im_g2, im_kappa, g, i) := b in
     let xinterp := default i interp in
     let kinterp := Quintic in
     r ← theoryToObserved (LArray im_g1) (LArray im_g2) (LArray im_kappa);
     let im_mu := amap (λ m, m - 1) (np_array r.2) in
     a ← interp_image periodic im_mu;
     Ok (g, λ c, xValue a xinterp kinterp c + 1))
  with
  | Raise e => (Raise e, [])
  | Ok (g, sbii_mu) => query_loop g periodic 1 sbii_mu pos
  end.

Definition getLensing (self : PowerSpectrum) (pos : list (R * R))
    (periodic : bool) (interp : option Interpolant)
  : result (list (R * R * R)) * list warning :=
  match
    (b ← built self;
     let '(im_g1, im_g2, im_kappa, g, i) := b in
     let xinterp := default i interp in
     let kinterp := Quintic in
     r ← theoryToObserved (LArray im_g1) (LArray im_g2) (LArray im_kappa);
     let im_mu := amap (λ m, m - 1) (np_array r.2) in
     amu ← interp_image periodic im_mu;
     a1 ← interp_image periodic (np_array r.1.1);
     a2 ← interp_image periodic (np_array r.1.2);
     Ok (g, λ c, (xValue a1 xinterp kinterp c, xValue a2 xinterp kinterp c,
                  xValue amu xinterp kinterp c + 1)))
  with
  | Raise e => (Raise e, [])
  | Ok (g, sbii) => query_loop g periodic (0, 0, 1) sbii pos
  end.

(** *** calculateXi *)

(** [xip_integrand(pk, r)] and [xim_integrand(pk, r)], called at [k]. *)
Definition xip_integrand (pk : power_fn) (r : R) (k : R) : result R :=
  p ← pf_call pk k; Ok (k * p * bessel_j0 (r * k)).
Definition xim_integrand (pk : power_fn) (r : R) (k : R) : result R :=
  p ← pf_call pk k; Ok (k * p * bessel_jn 4 (r * k)).

(** [np.logspace(a, b, n)] *)
Definition np_logspace (a b : R) (n : nat) : list R :=
  (λ i, Rpower 10 (if (n =? 1)%nat then a
                   else a + INR i * ((b - a) / INR (n - 1))))
    <$> seq 0 n.
Definition log10 (x : R) : R := ln x / ln 10.

Definition calculateXi (self : PowerSpectrum) (grid_spacing : R)
    (ngrid kmax_factor kmin_factor n_theta : py_num)
    (units : units_arg) (bandlimit : bandlimit_arg)
  : result (list R * list R * list R) :=
  ngrid ← check_int ngrid;
  kmin_factor ← check_int kmin_factor;
  kmax_factor ← check_int kmax_factor;
  n_theta ← check_int n_theta;
  u ← resolve_units units;
  let scale_fac := if negb (Reqb u 1) then (1 * u) / 1 else 1 in
  let grid_spacing :=
    if negb (Reqb u 1) then grid_spacing * scale_fac else grid_spacing in
  let min_sep := grid_spacing in
  let max_sep := IZR ngrid * grid_spacing in
  theta ← (if (n_theta <? 0)%Z then Raise ValueError
           else Ok (np_logspace (log10 min_sep) (log10 max_sep)
                      (Z.to_nat n_theta)));
  e ← _convert_power_function (e_power_function self);
  b ← _convert_power_function (b_power_function self);
  k_max ← py_truediv (IZR kmax_factor * PI) grid_spacing;
  bl ← bandlimit_func bandlimit;
  let p_E := wrap_power self bl k_max e in
  let p_B := wrap_power self bl k_max b in
  k_min ← py_truediv (2 * PI) (IZR ngrid * grid_spacing * IZR kmin_factor);
  xi ← rmapM (λ th,
          match p_E, p_B with
          | Some _, Some _ =>
              (* p_E + p_B, the sum of two functions *)
              Raise TypeError
          | Some p_E, None =>
              let integrand_p := xip_integrand p_E th in
              let integrand_m := xim_integrand p_E th in
              xp ← int1d integrand_p k_min k_max (1 / 10 ^ 6) (1 / 10 ^ 12);
              xm ← int1d integrand_m k_min k_max (1 / 10 ^ 6) (1 / 10 ^ 12);
              Ok (xp, xm)
          | None, _ =>
              (* -p_B, the negation of a function *)
              Raise TypeError
          end) theta;
  let xi_p := map (λ x : R * R, x.1 / (2 * PI)) xi in
  let xi_m := map (λ x : R * R, x.2 / (2 * PI)) xi in
  let theta := map (λ t, t / scale_fac) theta in
  Ok (theta, xi_p, xi_m).
End PowerSpectrum.

Open Scope R_scope.

(** ** PowerSpectrumRealizer.recompute_power *)

Section RecomputePower.
Context `{Numpy}.
(** [recompute_power] *)
Definition recompute_power (self : PowerSpectrumRealizer)
  : result PowerSpectrumRealizer :=
  set_power self (p_E self) (p_B self).
End RecomputePower.

(** ** kappaKaiserSquires *)

(** The forward transform [np.fft.fft2], the one collaborator
    kappaKaiserSquires needs beyond those of [Numpy]. *)
Class NumpyFft : Type := { fft2 : arr2 C → arr2 C }.

(** What may be passed for [g1] and [g2]: a [galsim.Image], a NumPy array,
    or something else. *)
Inductive shear_input : Type :=
  | GImage (a : arr2 R)
  | GArray (a : arr2 R)
  | GOther.

(** [NotImplementedError] is raised by this function only. *)
Inductive ks_result : Type :=
  | KSOk (kappaE kappaB : arr2 R)
  | KSRaise (e : exn)
  | KSNotImplemented.

Section KaiserSquires.
Context `{Numpy} `{NumpyFft}.

Definition kappaKaiserSquires (g1 g2 : shear_input) : ks_result :=
  match
    match g1, g2 with
    | GImage a, GImage b => Some (a, b)
    | GArray a, GArray b => Some (a, b)
    | _, _ => None
    end
  with
  | None => KSRaise TypeError
  | Some (g1, g2) =>
      if negb (shape_eqb [nrows g1; ncols g1] [nrows g2; ncols g2])
      then KSRaise ValueError
      else if negb (nrows g1 =? ncols g1)%nat then KSNotImplemented
      else
        match
          ('(kx, ky) ← kxky (nrows g1, ncols g1);
           let kz := zip2 (λ x y, Cadd (RtoC x) (Cmul (RtoC y) Ci)) kx ky in
           let ksq := amap (λ z, Cmul z (Cconj z)) kz in
           ksq ← setitem ksq 0 0 (RtoC 1);
           Ok (zip2 (λ z q, Cdiv (Cmul z z) q) kz ksq))
        with
        | Raise e => KSRaise e
        | Ok exp2ipsi =>
            let gz := zip2 (λ a b, Cadd (RtoC a) (Cmul (RtoC b) Ci)) g1 g2 in
            let gz_k := fft2 gz in
            let kz_k := zip2 Cmul (amap Cconj exp2ipsi) gz_k in
            let kz := ifft2 kz_k in
            KSOk (amap Re kz) (amap Im kz)
        end
  end.
End KaiserSquires.

(** * Specification-side definitions *)

Open Scope nat_scope.

(** The cell of an array that is known to exist. *)
Definition cell (a : arr2 C) (i j : nat) : C := default C0 (lookup2 a i j).

(** One statement of [_make_hermitian]:
    [a[s1, s2] = f(a[s1', s2'])]. *)
Definition herm_step (s1 s2 : slice) (f : C → C) (s1' s2' : slice)
    (a : arr2 C) : arr2 C :=
  setslice a s1 s2 (amap f (getslice a s1' s2')).

(** The slices [set_size] stores for a grid of side [n]. *)
Definition sl_h (n : nat) : slice :=
  Slice (Some 0%Z) (Some (Z.of_nat (n / 2 + 1))) None.
Definition sl_p (n : nat) : slice :=
  Slice (Some 1%Z) (Some (Z.of_nat ((n + 1) / 2))) None.
Definition sl_n (n : nat) : slice :=
  Slice (Some (-1)%Z) (Some (Z.of_nat (n / 2))) (Some (-1)%Z).
Definition sl_at (k : nat) : slice :=
  Slice (Some (Z.of_nat k)) (Some (Z.of_nat k + 1)%Z) None.

Definition sized (self : PowerSpectrumRealizer) (n : nat) : Prop :=
  nx self = n ∧ ny self = n ∧
  ikx self = sl_h n ∧ ikxp self = sl_p n ∧ ikxn self = sl_n n ∧
  iky self = sl_h n ∧ ikyp self = sl_p n ∧ ikyn self = sl_n n.

(** The index of [-k] on an axis of length [n]. *)
Definition neg_index (n i : nat) : nat := Nat.modulo (n - i) n.

(** The cells paired with themselves under [k ↦ -k]. *)
Definition self_paired (n i : nat) : Prop :=
  i = 0 ∨ (Nat.modulo n 2 = 0 ∧ i = n / 2).

(** [F[-k] = conj(F[k])] on an [n × n] array, with real self-paired cells. *)
Definition hermitian (n : nat) (F : arr2 C) : Prop :=
  shape F n n ∧
  (∀ i j, i < n → j < n →
     lookup2 F (neg_index n i) (neg_index n j) = Cconj <$> lookup2 F i j) ∧
  (∀ i j, i < n → j < n → self_paired n i → self_paired n j →
     ∃ z, lookup2 F i j = Some z ∧ is_real z).

(** What [_make_hermitian] leaves in cell [(i, j)], in terms of the array
    it was given. *)
Definition herm_spec (n : nat) (a : arr2 C) (i j : nat) : C :=
  let h := n / 2 in
  let hp := (n + 1) / 2 in
  let even := Nat.modulo n 2 =? 0 in
  if j =? 0 then
    if i =? 0 then Creal (cell a 0 0)
    else if i <? hp then cell a i 0
    else if even && (i =? h) then Creal (cell a h 0)
    else Cconj (cell a (n - i) 0)
  else if j <? hp then cell a i j
  else if even && (j =? h) then
    if i =? 0 then Creal (cell a 0 h)
    else if i <? hp then cell a i h
    else if i =? h then Creal (cell a h h)
    else Cconj (cell a (n - i) h)
  else
    if i =? 0 then Cconj (cell a 0 (n - j))
    else Cconj (cell a (n - i) (n - j)).

(** The power array [_generate_power_array] returns, in terms of the values
    [P_k] of the power function on the half plane. *)
Definition mirrored (self : PowerSpectrumRealizer) (junk : R) (P_k : arr2 R)
  : arr2 R :=
  setslice
    (setslice (np_empty junk (ny self) (nx self / 2 + 1))
       (iky self) (ikx self) P_k)
    (ikyn self) (ikx self) (getslice P_k (ikyp self) (ikx self)).

(** The power function returns a negative value somewhere on the sampled
    grid, other than in the bin of [k = 0]. *)
Definition negative_on_grid (self : PowerSpectrumRealizer) (pf : power_fn)
  : Prop :=
  ∃ kk i j k v,
    sampled_k self = Ok kk ∧ lookup2 kk i j = Some k ∧ (i, j) ≠ (0, 0) ∧
    pf_call pf k = Ok v ∧ (v < 0)%R.

(** [|k|] in cell [(i, j)] of the frequency grid of side [n]. *)
Definition kval (n : nat) (p : R) (i j : nat) : R :=
  sqrt ((2 * PI * fftfreq n j / p) ^ 2 + (2 * PI * fftfreq n i / p) ^ 2).

(** The deviate after [k] more draws. *)
Definition advance (gd : GaussianDeviate) (k : nat) : GaussianDeviate :=
  Deviate (gd_stream gd) (gd_pos gd + k).

(** The array of shape [(r, c)] filled, row by row, with the draws that
    follow the first [off] ones. *)
Definition draw_block (gd : GaussianDeviate) (off r c : nat) : arr2 R :=
  (λ i, (λ j, gd_stream gd (gd_pos gd + off + i * c + j)) <$> seq 0 c)
    <$> seq 0 r.

(** The grids buildGrid keeps from a realization. *)
Definition kept_grids (ngrid kmin_factor kmax_factor : Z)
    (g : arr2 R * arr2 R * arr2 R) : arr2 R * arr2 R * arr2 R :=
  if negb (kmin_factor =? 1)%Z || negb (kmax_factor =? 1)%Z then
    let s := Slice (Some 0%Z) (Some (ngrid * kmax_factor)%Z)
               (Some kmax_factor) in
    (getslice g.1.1 s s, getslice g.1.2 s s, getslice g.2 s s)
  else g.

(** The inputs the round trip is claimed for. *)
Definition valid_input (gamma1 gamma2 kappa : R) : Prop :=
  (kappa ≠ 1 ∧ gamma1 ^ 2 + gamma2 ^ 2 ≠ (1 - kappa) ^ 2)%R.

(** [s] is [a] taken at every [f]-th row and column: an [(n/f) × (n/f)]
    array with [s[i, j] = a[f*i, f*j]]. *)
Definition strided (f n : nat) (a s : arr2 R) : Prop :=
  shape s (n / f) (n / f) ∧
  ∀ i j, i < n / f → j < n / f → lookup2 s i j = lookup2 a (f * i) (f * j).

Section SpecDefinitions.
Context `{Numpy} `{Galsim}.

(** The string cannot be turned into a function: the evaluation of
    [lambda k : s], or the trial call at [k = 1.0], raises. *)
Definition bad_power_string (s : string) : Prop :=
  os_path_isfile s = false ∧
  ((∃ e, math_eval ("lambda k : " ++ s) = Raise e) ∨
   (∃ f e, math_eval ("lambda k : " ++ s) = Ok f ∧ pf_call f 1%R = Raise e)).

(** The integrator returns zero for an integrand that is zero. *)
Definition int1d_of_zero : Prop :=
  ∀ g a b rel_err abs_err,
    (∀ k, g k = Ok 0%R) → int1d g a b rel_err abs_err = Ok 0%R.

(** The value the loop of a [get] method appends for a position when the
    box is not periodic. *)
Definition query_value {A} (g : Geometry) (outside : A) (inside : R * R → A)
    (p : R * R) : A :=
  if bounds_includes (bounds g) p
  then inside (pos_div (pos_sub p (center g)) (grid_spacing g))
  else outside.


(** The number of modes with a power function. *)
Definition active_modes (self : PowerSpectrum) : Z :=
  ((if e_power_function self is Some _ then 1 else 0)
   + (if b_power_function self is Some _ then 1 else 0))%Z.

(** The Fourier array of a mode built from two given arrays of draws. *)
Definition mode_from_draws (psr : PowerSpectrumRealizer)
    (amplitude r1 r2 : arr2 R) : arr2 C :=
  _make_hermitian psr
    (setslice (np_empty junkC (ny psr) (nx psr)) (Slice None None None)
       (ikx psr) (mode_half_plane amplitude r1 r2)).
End SpecDefinitions.

Open Scope R_scope.

(** The input is of none of the four accepted types. *)
Definition is_other (v : lens_val) : bool :=
  match v with LOther _ => true | _ => false end.

Section SubsampleDefinitions.
Context `{Galsim}.

(** The state [subsampleGrid(f)] leaves behind when it succeeds. *)
Definition subsampled (self : PowerSpectrum) (f : nat)
    (ims : arr2 R * arr2 R * arr2 R) (g : Geometry) : PowerSpectrum :=
  let s := Slice None None (Some (Z.of_nat f)) in
  with_geometry
    (with_images self
       (getslice ims.1.1 s s, getslice ims.1.2 s s, getslice ims.2 s s))
    (Geom (grid_spacing g * INR f)
       (if adjust_center g
        then pos_add (center g)
               (pos_mul (pos_mul (1 / 2, 1 / 2) (grid_spacing g)) (INR f - 1))
        else center g)
       (adjust_center g) (bounds g)).
End SubsampleDefinitions.

(** A function applied to the value of a computation that returned. *)
Definition rmap {A B} (f : A → B) (m : result A) : result B :=
  match m with Ok a => Ok (f a) | Raise e => Raise e end.

(** The position a periodic query evaluates for [p]: [p] itself inside the
    bounds, its image under the translations of the box otherwise. *)
Definition folded (b : BoundsD) (p : R * R) : R * R :=
  if bounds_includes b p then p
  else
    let dx := xmax b - xmin b in
    let dy := ymax b - ymin b in
    (p.1 - xmin b - dx * IZR (Int_part ((p.1 - xmin b) / dx)) + xmin b,
     p.2 - ymin b - dy * IZR (Int_part ((p.2 - ymin b) / dy)) + ymin b).

(** The spin factor [exp(2 i psi)] of the wave vector [(x, y)]. *)
Definition phase2 (x y : R) : C :=
  mkC ((x ^ 2 - y ^ 2) / (x ^ 2 + y ^ 2)) (2 * x * y / (x ^ 2 + y ^ 2)).

Section RealizedModes.
Context `{Numpy}.

(** The Fourier coefficients [kappa_k = E_k + 1j * B_k] that [__call__]
    builds from the deviate. *)
Definition realized_kappa_k (self : PowerSpectrumRealizer)
    (gd : GaussianDeviate) : arr2 C :=
  let '(E_k, gd) :=
    match amplitude_E self with
    | Some amp => let '(E_k, gd) := realize_mode self amp gd in (Some E_k, gd)
    | None => (None, gd)
    end in
  let '(B_k, gd) :=
    match amplitude_B self with
    | Some amp => let '(B_k, gd) := realize_mode self amp gd in (Some B_k, gd)
    | None => (None, gd)
    end in
  zip2 (λ e b, Cadd e (Cmul Ci b)) (broadcast0 self E_k) (broadcast0 self B_k).
End RealizedModes.

(** The two inputs are of the same accepted kind. *)
Definition same_kind (g1 g2 : shear_input) : bool :=
  match g1, g2 with
  | GImage _, GImage _ | GArray _, GArray _ => true
  | _, _ => false
  end.

(** ** Concrete instances *)

Open Scope R_scope.

(** A simple instance of the collaborators, to run the model on concrete
    inputs. *)
Definition numpy_example : Numpy :=
  {| ifft2 := λ a, a;
     irfft2 := λ a _, amap Re a;
     junkR := 0;
     junkC := C0 |}.

Definition galsim_example : Galsim :=
  {| Interpolant := unit;
     Lanczos := λ _, ();
     Quintic := ();
     xValue := λ _ _ _ _, 0;
     os_path_isfile := λ _, false;
     LookupTable_file := λ _, Raise (UserException 0);
     math_eval := λ _, Raise (UserException 1);
     get_angle_unit := λ _, Ok 1;
     int1d := λ g a b _ _, v ← g a; Ok ((b - a) * v);
     bessel_j0 := λ _, 1;
     bessel_jn := λ _ _, 0 |}.

(** The constant power function [P(k) = c]. *)
Definition constant_power (c : R) : power_fn := pf_lambda (λ _, Ok c).

Section Examples.
#[local] Existing Instance numpy_example.
#[local] Existing Instance galsim_example.

(** [PowerSpectrum(e_power_function = lambda k : c + 0 * k)] *)
Definition ps_example (c : R) : PowerSpectrum :=
  PS (Some (PFCallable (constant_power c))) None false (UnitsAngle 1) 1
     None None None None None.

(** The arguments of
    [buildGrid(grid_spacing=3., ngrid=1, kmax_factor=2, bandlimit=None,
    get_convergence=True)]. *)
Definition args_example : buildGrid_args :=
  BuildGridArgs (Some 3) (Some (PyInt 1)) None (CenterPositionD 0 0)
    (UnitsAngle 1) true (PyInt 1) (PyInt 2) BandNone.

Definition rng_example : GaussianDeviate := Deviate (λ _, 0) 0.
End Examples.

(** The forward transform that goes with [numpy_example]. *)
Definition fft_example : NumpyFft := {| fft2 := λ a, a |}.

(** An instance whose inverse transforms return arrays of the shapes NumPy
    documents. *)
Definition numpy_shaped : Numpy :=
  {| ifft2 := λ a, a;
     irfft2 := λ _ s, replicate s.1 (replicate s.2 0);
     junkR := 0;
     junkC := C0 |}.

Section MoreExamples.
#[local] Existing Instance galsim_example.

(** An instance as a build leaves it, with the same array for the three
    fields, on the box [[-1, 1] x [-1, 1]]. *)
Definition built_example (a : arr2 R) : PowerSpectrum :=
  PS (Some (PFCallable (constant_power 1))) None false (UnitsAngle 1) 1
     (Some (Geom 1 (0, 0) true (Bounds (-1) 1 (-1) 1)))
     (Some ()) (Some (2%Z, 1)) (Some (a, a, a)) (Some (a, a, a)).

(** [PowerSpectrum(b_power_function = lambda k : 1 + 0 * k)] and the
    spectrum with both modes. *)
Definition ps_B_example : PowerSpectrum :=
  PS None (Some (PFCallable (constant_power 1))) false (UnitsAngle 1) 1
     None None None None None.
Definition ps_EB_example : PowerSpectrum :=
  PS (Some (PFCallable (constant_power 1)))
     (Some (PFCallable (constant_power 1))) false (UnitsAngle 1) 1
     None None None None None.

(** [buildGrid(grid_spacing=1., ngrid=1, kmax_factor=2, bandlimit=None)] *)
Definition args_small : buildGrid_args :=
  BuildGridArgs (Some 1) (Some (PyInt 1)) None (CenterPositionD 0 0)
    (UnitsAngle 1) true (PyInt 1) (PyInt 2) BandNone.

(** [buildGrid()] *)
Definition args_missing : buildGrid_args :=
  BuildGridArgs None None None (CenterPositionD 0 0)
    (UnitsAngle 1) true (PyInt 1) (PyInt 1) BandNone.

(** [buildGrid(grid_spacing=1., ngrid=ngrid)], with the defaults of the
    other arguments: the band limit is the hard one. *)
Definition args_hard (ngrid : Z) : buildGrid_args :=
  BuildGridArgs (Some 1) (Some (PyInt ngrid)) None (CenterPositionD 0 0)
    (UnitsAngle 1) false (PyInt 1) (PyInt 1) BandHard.

(** [buildGrid(grid_spacing=3., ngrid=1, kmax_factor=2, bandlimit='none',
    get_convergence=True)]: an unrecognized band limit. *)
Definition args_badband : buildGrid_args :=
  BuildGridArgs (Some 3) (Some (PyInt 1)) None (CenterPositionD 0 0)
    (UnitsAngle 1) true (PyInt 1) (PyInt 2) BandOther.
End MoreExamples.

Open Scope nat_scope.

(** * Properties *)

(** ** Slices and arrays *)

Tactic Notation "rsimpl" := cbn [mbind result_bind mret result_ret].
Tactic Notation "rsimpl" "in" hyp(H) :=
  cbn [mbind result_bind mret result_ret] in H.
Tactic Notation "osimpl" :=
  cbn [mbind option_bind fmap option_fmap option_map mret option_ret].
Tactic Notation "osimpl" "in" hyp(H) :=
  cbn [mbind option_bind fmap option_fmap option_map mret option_ret] in H.

Lemma slice_list_pos (a b n : nat) :
  slice_list (Slice (Some (Z.of_nat a)) (Some (Z.of_nat b)) None) n
  = seq a (Nat.min b n - a).
Proof.
  unfold slice_list, py_range; simpl.
  destruct (Z.ltb_spec (Z.of_nat a) 0); [lia|].
  destruct (Z.ltb_spec (Z.of_nat b) 0); [lia|].
  destruct (Z.ltb_spec (Z.of_nat a `min` Z.of_nat n) (Z.of_nat b `min` Z.of_nat n)).
  - rewrite Z.div_1_r.
    replace (Z.to_nat _) with (Nat.min b n - a) by lia.
    rewrite <- list_fmap_compose.
    replace a with (a + 0) at 2 by lia.
    rewrite <- (fmap_add_seq a 0).
    apply list_fmap_ext. intros i x Hx. apply lookup_seq in Hx. simpl. lia. 
  - simpl. replace (Nat.min b n - a) with 0 by lia. reflexivity.
Qed.

Lemma slice_list_neg (b n : nat) :
  slice_list (Slice (Some (-1)%Z) (Some (Z.of_nat b)) (Some (-1)%Z)) n
  = (λ t, n - 1 - t) <$> seq 0 (n - 1 - b).
Proof.
  unfold slice_list, py_range; simpl.
  destruct (Z.ltb_spec (Z.of_nat b) 0); [lia|].
  destruct (Z.ltb_spec (Z.of_nat b `min` (Z.of_nat n - 1))
                       ((-1 + Z.of_nat n) `max` (-1))).
  - rewrite Z.div_1_r.
    replace (Z.to_nat _) with (n - 1 - b) by lia.
    rewrite <- list_fmap_compose.
    apply list_fmap_ext. intros i x Hx. apply lookup_seq in Hx. simpl. lia.
  - simpl. replace (n - 1 - b) with 0 by lia. reflexivity.
Qed.

Lemma slice_list_stride (f n : nat) :
  0 < f →
  slice_list (Slice None None (Some (Z.of_nat f))) n
  = (λ t, t * f) <$> seq 0 ((n + f - 1) / f).
Proof.
  intros Hf. unfold slice_list, py_range; simpl.
  destruct (Z.ltb_spec (Z.of_nat f) 0); [lia|].
  destruct (Z.ltb_spec 0 (Z.of_nat f)); [|lia].
  destruct (Z.ltb_spec 0 (Z.of_nat n)).
  - assert (Hc : Z.to_nat ((Z.of_nat n - 0 - 1) / Z.of_nat f + 1) = (n + f - 1) / f).
    { replace (Z.of_nat n - 0 - 1)%Z with (Z.of_nat (n - 1)) by lia.
      rewrite <- Nat2Z.inj_div.
      replace (n + f - 1) with ((n - 1) + 1 * f) by lia.
      rewrite Nat.div_add by lia. lia. }
    rewrite Hc, <- list_fmap_compose.
    apply list_fmap_ext. intros i x Hx. apply lookup_seq in Hx. simpl. lia.
  - replace n with 0 by lia. simpl.
    rewrite Nat.div_small by lia. reflexivity.
Qed.

Lemma slice_list_all (n : nat) :
  slice_list (Slice None None None) n = seq 0 n.
Proof.
  unfold slice_list, py_range; simpl.
  destruct (Z.ltb_spec 0 (Z.of_nat n)).
  - rewrite Z.div_1_r.
    replace (Z.to_nat _) with n by lia.
    rewrite <- list_fmap_compose.
    rewrite <- (list_fmap_id (seq 0 n)) at 2.
    apply list_fmap_ext. intros i x Hx. apply lookup_seq in Hx. simpl. lia.
  - replace n with 0 by lia. reflexivity.
Qed.

Lemma index_of_seq (i a len : nat) :
  index_of i (seq a len)
  = if (a <=? i) && (i <? a + len) then Some (i - a) else None.
Proof.
  revert a. induction len as [|len IH]; intros a; simpl.
  - destruct (Nat.leb_spec a i), (Nat.ltb_spec i (a + 0)); simpl; auto; lia.
  - destruct (Nat.eqb_spec a i) as [->|Hne].
    + rewrite Nat.leb_refl. destruct (Nat.ltb_spec i (i + S len)); [|lia].
      simpl. f_equal. lia.
    + rewrite IH.
      destruct (Nat.leb_spec (S a) i), (Nat.ltb_spec i (S a + len)),
        (Nat.leb_spec a i), (Nat.ltb_spec i (a + S len)); simpl; try lia; auto.
      f_equal. lia.
Qed.

Lemma index_of_rev_seq (i c s m : nat) :
  s + m ≤ c + 1 →
  index_of i ((λ t, c - t) <$> seq s m)
  = if (c + 1 - (s + m) <=? i) && (i <=? c - s) && (0 <? m)
    then Some (c - s - i) else None.
Proof.
  revert s. induction m as [|m IH]; intros s Hs; simpl.
  - rewrite andb_false_r. reflexivity.
  - destruct (Nat.eqb_spec (c - s) i) as [<-|Hne].
    + destruct (Nat.leb_spec (c + 1 - (s + S m)) (c - s)); [|lia].
      rewrite Nat.leb_refl. simpl. f_equal. lia.
    + rewrite IH by lia.
      destruct (Nat.leb_spec (c + 1 - (S s + m)) i), (Nat.leb_spec i (c - S s)),
        (Nat.leb_spec (c + 1 - (s + S m)) i), (Nat.leb_spec i (c - s)),
        (Nat.ltb_spec 0 m); simpl; try lia; auto.
      f_equal. lia.
Qed.

Lemma lookup_select {B} (l : list B) (idx : list nat) (p : nat) :
  Forall (λ i, i < length l) idx →
  select l idx !! p = idx !! p ≫= (l !!.).
Proof.
  unfold select. intros H. revert p.
  induction H as [|i idx Hi _ IH]; intros p; [reflexivity|].
  simpl. destruct (lookup_lt_is_Some_2 l i Hi) as [x Hx].
  rewrite Hx. destruct p; simpl; [by rewrite Hx|apply IH].
Qed.

Lemma length_select {B} (l : list B) (idx : list nat) :
  Forall (λ i, i < length l) idx → length (select l idx) = length idx.
Proof.
  unfold select. induction 1 as [|i idx Hi _ IH]; [reflexivity|].
  simpl. destruct (lookup_lt_is_Some_2 l i Hi) as [x ->]. simpl.
  f_equal. exact IH.
Qed.

Lemma lookup2_Some {A} (a : arr2 A) r c i j :
  shape a r c → i < r → j < c → is_Some (lookup2 a i j).
Proof.
  intros [Hr Hc] Hi Hj. unfold lookup2.
  destruct (lookup_lt_is_Some_2 a i) as [row Hrow]; [lia|].
  rewrite Hrow. simpl. apply lookup_lt_is_Some_2.
  rewrite Forall_lookup in Hc. rewrite (Hc _ _ Hrow). done.
Qed.

Lemma lookup2_sub_block {A} (a : arr2 A) r c ys xs p q :
  shape a r c → Forall (λ i, i < r) ys → Forall (λ j, j < c) xs →
  lookup2 (sub_block a ys xs) p q
  = i ← ys !! p; j ← xs !! q; lookup2 a i j.
Proof.
  intros [Hr Hc] Hys Hxs. unfold lookup2, sub_block.
  rewrite list_lookup_fmap, lookup_select by (by rewrite Hr).
  destruct (ys !! p) as [i|] eqn:Hi; simpl; [|done].
  destruct (a !! i) as [row|] eqn:Hrow; simpl.
  - rewrite lookup_select; [done|].
    rewrite Forall_lookup in Hc. by rewrite (Hc _ _ Hrow).
  - apply lookup_ge_None in Hrow. rewrite Forall_lookup in Hys.
    specialize (Hys _ _ Hi). simpl in Hys. lia.
Qed.

Lemma lookup2_amap {A B} (f : A → B) (a : arr2 A) i j :
  lookup2 (amap f a) i j = f <$> lookup2 a i j.
Proof.
  unfold lookup2, amap. 
  change (map (map f) a) with (fmap (M:=list) (fmap f) a).
  rewrite list_lookup_fmap.
  destruct (a !! i) as [row|]; simpl; [|done].
  apply list_lookup_fmap.
Qed.

Lemma lookup2_assign_block {A} (a : arr2 A) ys xs rhs i j :
  lookup2 (assign_block a ys xs rhs) i j
  = v ← lookup2 a i j;
    Some (match index_of i ys, index_of j xs with
          | Some p, Some q => default v (lookup2 rhs p q)
          | _, _ => v
          end).
Proof.
  unfold lookup2 at 1 3, assign_block.
  rewrite list_lookup_imap.
  destruct (a !! i) as [row|]; simpl; [|done].
  rewrite list_lookup_imap. by destruct (row !! j).
Qed.

Lemma shape_assign_block {A} (a : arr2 A) ys xs rhs r c :
  shape a r c → shape (assign_block a ys xs rhs) r c.
Proof.
  intros [Hr Hc]. split; unfold assign_block.
  - by rewrite length_imap.
  - apply Forall_lookup. intros i row Hrow.
    rewrite list_lookup_imap in Hrow.
    destruct (a !! i) as [row0|] eqn:E; simplify_eq/=.
    rewrite length_imap. rewrite Forall_lookup in Hc. eauto.
Qed.

Lemma nrows_shape {A} (a : arr2 A) r c : shape a r c → nrows a = r.
Proof. by intros [? _]. Qed.
Lemma ncols_shape {A} (a : arr2 A) r c : shape a r c → 0 < r → ncols a = c.
Proof.
  intros [Hr Hc] ?. destruct a as [|row a]; simpl in *; [lia|].
  by inversion Hc.
Qed.

Lemma shape_herm_step s1 s2 f s1' s2' a r c :
  shape a r c → shape (herm_step s1 s2 f s1' s2' a) r c.
Proof. apply shape_assign_block. Qed.

Lemma lookup2_cell a r c i j :
  shape a r c → i < r → j < c → lookup2 a i j = Some (cell a i j).
Proof.
  intros H Hi Hj. unfold cell.
  by destruct (lookup2_Some a r c i j H Hi Hj) as [v ->].
Qed.

Lemma cell_herm_step s1 s2 f s1' s2' a n i j :
  shape a n n → i < n → j < n →
  Forall (λ i, i < n) (slice_list s1' n) →
  Forall (λ j, j < n) (slice_list s2' n) →
  cell (herm_step s1 s2 f s1' s2' a) i j
  = match index_of i (slice_list s1 n), index_of j (slice_list s2 n) with
    | Some p, Some q =>
        match slice_list s1' n !! p, slice_list s2' n !! q with
        | Some i', Some j' => f (cell a i' j')
        | _, _ => cell a i j
        end
    | _, _ => cell a i j
    end.
Proof.
  intros Ha Hi Hj Hys Hxs.
  unfold herm_step, setslice, getslice, cell at 1.
  rewrite (nrows_shape a n n Ha), (ncols_shape a n n Ha) by lia.
  rewrite lookup2_assign_block, (lookup2_cell a n n i j) by done. simpl.
  destruct (index_of i _) as [p|]; [|done].
  destruct (index_of j _) as [q|]; [|done].
  rewrite lookup2_amap, (lookup2_sub_block a n n) by done.
  destruct (slice_list s1' n !! p) as [i'|] eqn:Ei; simpl; [|done].
  destruct (slice_list s2' n !! q) as [j'|] eqn:Ej; simpl; [|done].
  rewrite Forall_lookup in Hys. rewrite Forall_lookup in Hxs.
  rewrite (lookup2_cell a n n i' j'); eauto.
Qed.

(** ** The Hermitian completion *)

Lemma sl_p_list n : slice_list (sl_p n) n = seq 1 ((n + 1) / 2 - 1).
Proof.
  unfold sl_p. rewrite (slice_list_pos 1). f_equal. lia.
Qed.
Lemma sl_n_list n :
  slice_list (sl_n n) n = (λ t, n - 1 - t) <$> seq 0 (n - 1 - n / 2).
Proof. apply slice_list_neg. Qed.
Lemma sl_at_list k n : k < n → slice_list (sl_at k) n = [k].
Proof.
  intros H. unfold sl_at.
  replace (Z.of_nat k + 1)%Z with (Z.of_nat (k + 1)) by lia.
  rewrite slice_list_pos. replace (Nat.min (k + 1) n - k) with 1 by lia. done.
Qed.

Lemma sl_p_bound n : Forall (λ i, i < n) (slice_list (sl_p n) n).
Proof.
  rewrite sl_p_list. apply Forall_lookup. intros p x Hx.
  apply lookup_seq in Hx. simpl. lia.
Qed.
Lemma sl_n_bound n : Forall (λ i, i < n) (slice_list (sl_n n) n).
Proof.
  rewrite sl_n_list. apply Forall_lookup. intros p x Hx.
  rewrite list_lookup_fmap in Hx.
  destruct (seq 0 (n - 1 - n / 2) !! p) as [t|] eqn:E; simplify_eq/=.
  apply lookup_seq in E. lia.
Qed.
Lemma sl_at_bound k n : k < n → Forall (λ i, i < n) (slice_list (sl_at k) n).
Proof. intros H. rewrite sl_at_list by done. by repeat constructor. Qed.

Lemma index_of_sl_p i n :
  index_of i (slice_list (sl_p n) n)
  = if (1 <=? i) && (i <? (n + 1) / 2) then Some (i - 1) else None.
Proof.
  rewrite sl_p_list, index_of_seq.
  destruct (Nat.leb_spec 1 i), (Nat.ltb_spec i (1 + ((n + 1) / 2 - 1))),
    (Nat.ltb_spec i ((n + 1) / 2)); simpl; auto; lia.
Qed.
Lemma index_of_sl_n i n :
  index_of i (slice_list (sl_n n) n)
  = if (n / 2 <? i) && (i <? n) then Some (n - 1 - i) else None.
Proof.
  rewrite sl_n_list, index_of_rev_seq by lia.
  destruct (Nat.leb_spec (n - 1 + 1 - (0 + (n - 1 - n / 2))) i),
    (Nat.leb_spec i (n - 1 - 0)), (Nat.ltb_spec 0 (n - 1 - n / 2)),
    (Nat.ltb_spec (n / 2) i), (Nat.ltb_spec i n); simpl; auto; try lia.
  f_equal; lia.
Qed.
Lemma index_of_sl_at i k n :
  k < n →
  index_of i (slice_list (sl_at k) n) = if k =? i then Some 0 else None.
Proof. intros H. rewrite sl_at_list by done. simpl. by destruct (k =? i). Qed.

Lemma lookup_sl_p p n :
  p + 1 < (n + 1) / 2 → slice_list (sl_p n) n !! p = Some (p + 1).
Proof. intros H. rewrite sl_p_list, lookup_seq_lt by lia. f_equal; lia. Qed.
Lemma lookup_sl_n p n :
  p < n - 1 - n / 2 → slice_list (sl_n n) n !! p = Some (n - 1 - p).
Proof.
  intros H. rewrite sl_n_list, list_lookup_fmap, lookup_seq_lt by lia. done.
Qed.
Lemma lookup_sl_at k n : k < n → slice_list (sl_at k) n !! 0 = Some k.
Proof. intros H. by rewrite sl_at_list. Qed.

Lemma make_hermitian_steps self a n :
  sized self n →
  _make_hermitian self a =
    let P := herm_step (sl_n n) (sl_at 0) Cconj (sl_p n) (sl_at 0) a in
    let P := herm_step (sl_at 0) (sl_at 0) Creal (sl_at 0) (sl_at 0) P in
    let P := herm_step (sl_p n) (sl_n n) Cconj (sl_n n) (sl_p n) P in
    let P := herm_step (sl_n n) (sl_n n) Cconj (sl_p n) (sl_p n) P in
    let P := herm_step (sl_at 0) (sl_n n) Cconj (sl_at 0) (sl_p n) P in
    if Nat.modulo n 2 =? 0 then
      let P := herm_step (sl_n n) (sl_at (n / 2)) Cconj (sl_p n) (sl_at (n / 2)) P in
      let P := herm_step (sl_at (n / 2)) (sl_n n) Cconj (sl_at (n / 2)) (sl_p n) P in
      let P := herm_step (sl_at (n / 2)) (sl_at 0) Creal (sl_at (n / 2)) (sl_at 0) P in
      let P := herm_step (sl_at 0) (sl_at (n / 2)) Creal (sl_at 0) (sl_at (n / 2)) P in
      herm_step (sl_at (n / 2)) (sl_at (n / 2)) Creal (sl_at (n / 2)) (sl_at (n / 2)) P
    else P.
Proof.
  intros (Hx & Hy & _ & Hxp & Hxn & _ & Hyp & Hyn).
  unfold _make_hermitian. rewrite Hx, Hy, Hxp, Hxn, Hyp, Hyn. reflexivity.
Qed.

Ltac bool_tac :=
  repeat match goal with
  | |- context [(?a <=? ?b)] =>
      first [ rewrite (proj2 (Nat.leb_le a b)) by lia
            | rewrite (proj2 (Nat.leb_gt a b)) by lia ]
  | |- context [(?a <? ?b)] =>
      first [ rewrite (proj2 (Nat.ltb_lt a b)) by lia
            | rewrite (proj2 (Nat.ltb_ge a b)) by lia ]
  | |- context [(?a =? ?b)] =>
      first [ rewrite (proj2 (Nat.eqb_eq a b)) by lia
            | rewrite (proj2 (Nat.eqb_neq a b)) by lia ]
  end.

Ltac shape_tac := repeat apply shape_herm_step; assumption.

Ltac bound_tac :=
  first [ apply sl_p_bound | apply sl_n_bound | apply sl_at_bound; lia ].

Ltac herm_step_tac n :=
  rewrite (cell_herm_step _ _ _ _ _ _ n);
    [ | shape_tac | lia | lia | bound_tac | bound_tac ];
  rewrite ?index_of_sl_p, ?index_of_sl_n, ?index_of_sl_at by lia;
  bool_tac; cbn [andb orb];
  rewrite ?lookup_sl_p, ?lookup_sl_n, ?lookup_sl_at by lia.

Lemma make_hermitian_cell self a n i j :
  sized self n → shape a n n → i < n → j < n →
  cell (_make_hermitian self a) i j = herm_spec n a i j.
Proof.
  intros Hs Ha Hi Hj. rewrite (make_hermitian_steps self a n Hs).
  unfold herm_spec. cbv zeta.
  assert (Hic : i = 0 ∨ (1 ≤ i ∧ i < (n + 1) / 2)
                ∨ (Nat.modulo n 2 = 0 ∧ i = n / 2) ∨ n / 2 < i) by lia.
  assert (Hjc : j = 0 ∨ (1 ≤ j ∧ j < (n + 1) / 2)
                ∨ (Nat.modulo n 2 = 0 ∧ j = n / 2) ∨ n / 2 < j) by lia.
  destruct (Nat.eqb_spec (Nat.modulo n 2) 0) as [He|Ho].
  - destruct Hic as [Hic|[Hic|[Hic|Hic]]], Hjc as [Hjc|[Hjc|[Hjc|Hjc]]];
      repeat herm_step_tac n; bool_tac; cbn [andb orb];
      try reflexivity; try (f_equal; f_equal; lia).
  - destruct Hic as [Hic|[Hic|[Hic|Hic]]], Hjc as [Hjc|[Hjc|[Hjc|Hjc]]];
      try lia;
      repeat herm_step_tac n; bool_tac; cbn [andb orb];
      try reflexivity; try (f_equal; f_equal; lia).
Qed.

Lemma neg_index_0 n : neg_index n 0 = 0.
Proof. unfold neg_index. rewrite Nat.sub_0_r. apply Nat.Div0.mod_same. Qed.

Lemma neg_index_pos n i : 0 < i → i < n → neg_index n i = n - i.
Proof. intros ? ?. unfold neg_index. apply Nat.mod_small. lia. Qed.

Lemma Cconj_involutive z : Cconj (Cconj z) = z.
Proof. destruct z as [x y]. unfold Cconj. simpl. f_equal. apply Ropp_involutive. Qed.

Lemma Cconj_Creal z : Cconj (Creal z) = Creal z.
Proof. unfold Cconj, Creal. simpl. f_equal. apply Ropp_0. Qed.

Lemma shape_make_hermitian self a n :
  sized self n → shape a n n → shape (_make_hermitian self a) n n.
Proof.
  intros Hs Ha. rewrite (make_hermitian_steps self a n Hs). cbv zeta.
  destruct (Nat.modulo n 2 =? 0); shape_tac.
Qed.

Lemma herm_spec_conj n a i j :
  i < n → j < n →
  herm_spec n a (neg_index n i) (neg_index n j) = Cconj (herm_spec n a i j).
Proof.
  intros Hi Hj.
  assert (Hni : (i = 0 ∧ neg_index n i = 0) ∨ (0 < i ∧ neg_index n i = n - i)).
  { destruct i; [left; split; [done|apply neg_index_0]|].
    right. split; [lia|]. apply neg_index_pos; lia. }
  assert (Hnj : (j = 0 ∧ neg_index n j = 0) ∨ (0 < j ∧ neg_index n j = n - j)).
  { destruct j; [left; split; [done|apply neg_index_0]|].
    right. split; [lia|]. apply neg_index_pos; lia. }
  assert (Hic : i = 0 ∨ (1 ≤ i ∧ i < (n + 1) / 2)
                ∨ (Nat.modulo n 2 = 0 ∧ i = n / 2) ∨ n / 2 < i) by lia.
  assert (Hjc : j = 0 ∨ (1 ≤ j ∧ j < (n + 1) / 2)
                ∨ (Nat.modulo n 2 = 0 ∧ j = n / 2) ∨ n / 2 < j) by lia.
  destruct Hni as [[-> ->]|[? ->]], Hnj as [[-> ->]|[? ->]];
    unfold herm_spec; cbv zeta;
    destruct (Nat.eqb_spec (Nat.modulo n 2) 0) as [He|Ho];
    destruct Hic as [Hic|[Hic|[Hic|Hic]]], Hjc as [Hjc|[Hjc|[Hjc|Hjc]]];
    try lia; bool_tac; cbn [andb orb];
    rewrite ?Cconj_involutive, ?Cconj_Creal;
    try reflexivity; try (f_equal; lia); try (f_equal; f_equal; lia).
Qed.

Lemma hermitian_make_hermitian self n P_k :
  sized self n → shape P_k n n → hermitian n (_make_hermitian self P_k).
Proof.
  intros Hs Ha.
  pose proof (shape_make_hermitian self P_k n Hs Ha) as HF.
  split; [done|]. split.
  - intros i j Hi Hj.
    assert (neg_index n i < n) by (unfold neg_index; apply Nat.mod_upper_bound; lia).
    assert (neg_index n j < n) by (unfold neg_index; apply Nat.mod_upper_bound; lia).
    rewrite !(lookup2_cell _ n n) by done. simpl.
    rewrite !(make_hermitian_cell self P_k n) by done.
    by rewrite herm_spec_conj.
  - intros i j Hi Hj Hpi Hpj.
    exists (herm_spec n P_k i j). split.
    + rewrite (lookup2_cell _ n n) by done.
      by rewrite (make_hermitian_cell self P_k n).
    + unfold herm_spec, self_paired in *. cbv zeta.
      destruct Hpi as [->|[He ->]], Hpj as [->|[He' ->]];
        bool_tac; cbn [andb orb]; try reflexivity;
        destruct (Nat.eqb_spec (n / 2) 0) as [->|?];
        bool_tac; cbn [andb orb]; reflexivity.
Qed.

Lemma shape_np_empty {A} (junk : A) r c : shape (np_empty junk r c) r c.
Proof.
  unfold np_empty. split; [apply length_replicate|].
  apply Forall_replicate, length_replicate.
Qed.

Lemma set_size_sized n p self : set_size n p = Ok self → sized self n.
Proof.
  unfold set_size. destruct (kxky (n, n)) as [[kx0 ky0]|]; simpl; [|done].
  destruct (_generate_exp2ipsi _ _); simpl; [|done].
  intros [= <-]. by repeat split.
Qed.

Section RealizerProperties.
Context `{Numpy}.

Lemma set_power_sized self pE pB self' n :
  set_power self pE pB = Ok self' → sized self n → sized self' n.
Proof.
  unfold set_power.
  destruct pE as [f|]; simpl.
  - destruct (_generate_power_array self junkR f); simpl; [|done].
    destruct pB as [g|]; simpl.
    + destruct (_generate_power_array self junkR g); simpl; [|done].
      by intros [= <-].
    + by intros [= <-].
  - destruct pB as [g|]; simpl.
    + destruct (_generate_power_array self junkR g); simpl; [|done].
      by intros [= <-].
    + by intros [= <-].
Qed.

Lemma init_sized n p pE pB self :
  PowerSpectrumRealizer_init n p pE pB = Ok self → sized self n.
Proof.
  unfold PowerSpectrumRealizer_init.
  destruct (set_size n p) as [self0|] eqn:E; simpl; [|done].
  intros Hp. eapply set_power_sized; [done|]. by eapply set_size_sized.
Qed.

Lemma realize_mode_fst self amp gd :
  (realize_mode self amp gd).1
  = _make_hermitian self
      (setslice (np_empty junkC (ny self) (nx self)) (Slice None None None)
         (ikx self)
         (mode_half_plane amp
            (rand_arr (nrows amp, ncols amp) gd).1
            (rand_arr (nrows amp, ncols amp)
               (rand_arr (nrows amp, ncols amp) gd).2).1)).
Proof. reflexivity. Qed.

(** C5. After [_make_hermitian] the full array satisfies
    [F[-i mod N, -j mod N] = conj(F[i, j])] for every index pair, and the
    self-paired cells [(0,0)] and, for even [N], [(N/2,0)], [(0,N/2)],
    [(N/2,N/2)] are real; this holds for any array the routine is applied
    to, and so for the E-mode and the B-mode arrays [__call__] builds
    before the inverse transform. *)
Theorem make_hermitian_conjugate_symmetry (self : PowerSpectrumRealizer)
    (n : nat) :
  sized self n →
  (∀ P_k, shape P_k n n → hermitian n (_make_hermitian self P_k)) ∧
  (∀ amplitude gd, hermitian n (realize_mode self amplitude gd).1).
Proof.
  intros Hs. split.
  - intros P_k HP. by apply hermitian_make_hermitian.
  - intros amp gd. rewrite realize_mode_fst.
    apply hermitian_make_hermitian; [done|].
    destruct Hs as (-> & -> & _).
    apply shape_assign_block, shape_np_empty.
Qed.
End RealizerProperties.

(** ** The power array *)


Lemma lookup2_zip2 {A B D} (f : A → B → D) a b i j :
  lookup2 (zip2 f a b) i j
  = x ← lookup2 a i j; y ← lookup2 b i j; Some (f x y).
Proof.
  unfold lookup2, zip2. rewrite lookup_zip_with.
  destruct (a !! i) as [ra|]; simpl; [|done].
  destruct (b !! i) as [rb|]; simpl.
  - rewrite lookup_zip_with. done.
  - by destruct (ra !! j).
Qed.

Lemma lookup2_grid {A} (g : nat → nat → A) r c i j :
  i < r → j < c →
  lookup2 ((λ i, (λ j, g i j) <$> seq 0 c) <$> seq 0 r) i j = Some (g i j).
Proof.
  intros Hi Hj. unfold lookup2.
  rewrite list_lookup_fmap, lookup_seq_lt by done. simpl.
  rewrite list_lookup_fmap, lookup_seq_lt by done. done.
Qed.

Lemma shape_grid {A} (g : nat → nat → A) r c :
  shape ((λ i, (λ j, g i j) <$> seq 0 c) <$> seq 0 r) r c.
Proof.
  split.
  - by rewrite length_fmap, length_seq.
  - apply Forall_fmap, Forall_forall. intros i _. simpl.
    by rewrite length_fmap, length_seq.
Qed.

Lemma shape_amap {A B} (f : A → B) a r c : shape a r c → shape (amap f a) r c.
Proof.
  intros [Hr Hc]. split; unfold amap.
  - by rewrite length_map.
  - change (map (map f) a) with (map f <$> a).
    apply Forall_fmap. eapply Forall_impl; [done|].
    intros row Hrow. simpl. by rewrite length_map.
Qed.

Lemma shape_zip2 {A B D} (f : A → B → D) a b r c :
  shape a r c → shape b r c → shape (zip2 f a b) r c.
Proof.
  intros [Hr Hc] [Hr' Hc']. split; unfold zip2.
  - rewrite length_zip_with. lia.
  - apply Forall_lookup. intros i row Hrow.
    rewrite lookup_zip_with in Hrow.
    destruct (a !! i) as [ra|] eqn:Ea; simpl in Hrow; [|done].
    destruct (b !! i) as [rb|] eqn:Eb; simpl in Hrow; [|done].
    simplify_eq. rewrite length_zip_with.
    rewrite Forall_lookup in Hc. rewrite Forall_lookup in Hc'.
    rewrite (Hc _ _ Ea), (Hc' _ _ Eb). lia.
Qed.

Lemma shape_sub_block {A} (a : arr2 A) r c ys xs :
  shape a r c → Forall (λ i, i < r) ys → Forall (λ j, j < c) xs →
  shape (sub_block a ys xs) (length ys) (length xs).
Proof.
  intros [Hr Hc] Hys Hxs. unfold sub_block. split.
  - rewrite length_fmap, length_select; [done|by rewrite Hr].
  - apply Forall_fmap, Forall_lookup. intros p row Hrow. simpl.
    rewrite lookup_select in Hrow by (by rewrite Hr).
    destruct (ys !! p) as [i|]; simpl in Hrow; [|done].
    rewrite Forall_lookup in Hc. rewrite length_select; [done|].
    by rewrite (Hc _ _ Hrow).
Qed.

Lemma rmapM_Ok_length {A B} (f : A → result B) l l' :
  rmapM f l = Ok l' → length l' = length l.
Proof.
  revert l'. induction l as [|x l IH]; intros l'; simpl.
  - by intros [= <-].
  - destruct (f x); simpl; [|done].
    destruct (rmapM f l); simpl; [|done].
    intros [= <-]. simpl. f_equal. by apply IH.
Qed.

Lemma rmapM_Ok_lookup {A B} (f : A → result B) l l' i x :
  rmapM f l = Ok l' → l !! i = Some x →
  ∃ y, f x = Ok y ∧ l' !! i = Some y.
Proof.
  revert l' i. induction l as [|x0 l IH]; intros l' i; simpl; [done|].
  destruct (f x0) as [y0|] eqn:E0; simpl; [|done].
  destruct (rmapM f l) as [ys|]; simpl; [|done].
  intros [= <-]. destruct i; simpl.
  - intros [= <-]. eauto.
  - intros Hx. by apply IH.
Qed.

Lemma rmapM_ext {A B} (f g : A → result B) l :
  Forall (λ x, f x = g x) l → rmapM f l = rmapM g l.
Proof.
  induction 1 as [|x l Hx _ IH]; simpl; [done|]. by rewrite Hx, IH.
Qed.

Lemma call_arr2_Ok_shape f k P r c :
  call_arr2 f k = Ok P → shape k r c → shape P r c.
Proof.
  unfold call_arr2. intros HP [Hr Hc]. split.
  - by rewrite (rmapM_Ok_length _ _ _ HP).
  - apply Forall_lookup. intros i row Hrow.
    destruct (lookup_lt_is_Some_2 k i) as [krow Hk].
    { rewrite <- (rmapM_Ok_length _ _ _ HP). by eapply lookup_lt_Some. }
    destruct (rmapM_Ok_lookup _ _ _ _ _ HP Hk) as (row' & Hrow' & Hl).
    simplify_eq. rewrite (rmapM_Ok_length _ _ _ Hrow').
    rewrite Forall_lookup in Hc. eauto.
Qed.

Lemma call_arr2_Ok_lookup f k P i j x :
  call_arr2 f k = Ok P → lookup2 k i j = Some x →
  ∃ y, pf_call f x = Ok y ∧ lookup2 P i j = Some y.
Proof.
  unfold call_arr2, lookup2. intros HP Hx.
  destruct (k !! i) as [krow|] eqn:Ek; simpl in Hx; [|done].
  destruct (rmapM_Ok_lookup _ _ _ _ _ HP Ek) as (row' & Hrow' & Hl).
  destruct (rmapM_Ok_lookup _ _ _ _ _ Hrow' Hx) as (y & Hy & Hl').
  exists y. split; [done|]. by rewrite Hl.
Qed.

Lemma any_negative_true (a : arr2 R) i j v :
  lookup2 a i j = Some v → (v < 0)%R → any_negative a = true.
Proof.
  unfold lookup2, any_negative. intros Hl Hv.
  destruct (a !! i) as [row|] eqn:Ei; simpl in Hl; [|done].
  apply existsb_exists. exists row. split.
  - apply list_elem_of_In. by eapply list_elem_of_lookup_2.
  - apply existsb_exists. exists v. split.
    + apply list_elem_of_In. by eapply list_elem_of_lookup_2.
    + unfold Rltb. by destruct (Rlt_dec v 0).
Qed.

Lemma getitem_Ok {A} (a : arr2 A) i j v :
  getitem a i j = Ok v ↔ lookup2 a i j = Some v.
Proof.
  unfold getitem. destruct (lookup2 a i j); split; intros; by simplify_eq.
Qed.

Lemma setitem_Ok {A} (a : arr2 A) i j v a' :
  setitem a i j v = Ok a' →
  is_Some (lookup2 a i j) ∧ a' = assign_block a [i] [j] [[v]].
Proof.
  unfold setitem. destruct (lookup2 a i j); [|done].
  intros [= <-]. eauto.
Qed.

Lemma lookup2_setitem {A} (a : arr2 A) i j v i' j' :
  lookup2 (assign_block a [i] [j] [[v]]) i' j'
  = if (i =? i') && (j =? j') then (λ _, v) <$> lookup2 a i' j' else lookup2 a i' j'.
Proof.
  rewrite lookup2_assign_block. simpl.
  destruct (i =? i'), (j =? j'); simpl; by destruct (lookup2 a i' j').
Qed.


Lemma generate_power_array_Ok self junk pf arr :
  _generate_power_array self junk pf = Ok arr →
  ∃ kk P_k,
    sampled_k self = Ok kk ∧ call_arr2 pf kk = Ok P_k ∧
    is_Some (lookup2 P_k 0 0) ∧
    any_negative (assign_block P_k [0] [0] [[0%R]]) = false ∧
    arr = mirrored self junk (assign_block P_k [0] [0] [[0%R]]).
Proof.
  unfold _generate_power_array.
  destruct (sampled_k self) as [kk|]; rsimpl; [|done].
  destruct (match pf_table pf with Some _ => _ | None => _ end); rsimpl; [|done].
  destruct (call_arr2 pf kk) as [P_k|] eqn:EP; rsimpl; [|done].
  destruct (getitem P_k 0 1); rsimpl; [|done].
  destruct (setitem P_k 0 0 0%R) as [P'|] eqn:Es; rsimpl; [|done].
  apply setitem_Ok in Es as [Hs ->].
  destruct (any_negative _) eqn:En; [done|].
  intros [= <-]. exists kk, P_k. by repeat split.
Qed.

Lemma generate_power_array_negative self junk pf :
  negative_on_grid self pf →
  ∃ e, _generate_power_array self junk pf = Raise e.
Proof.
  intros (kk & i & j & k & v & Hk & Hl & Hij & Hv & Hneg).
  destruct (_generate_power_array self junk pf) as [arr|e] eqn:E; [|by eauto].
  exfalso.
  apply generate_power_array_Ok in E as (kk' & P_k & Hk' & HP & _ & Hn & _).
  rewrite Hk in Hk'. simplify_eq.
  destruct (call_arr2_Ok_lookup _ _ _ _ _ _ HP Hl) as (y & Hy & HPl).
  rewrite Hv in Hy. simplify_eq.
  rewrite (any_negative_true _ i j y) in Hn; [done| |done].
  rewrite lookup2_setitem, HPl.
  destruct i, j; simpl; done.
Qed.


Lemma sl_h_list n len :
  slice_list (sl_h n) len = seq 0 (Nat.min (n / 2 + 1) len).
Proof.
  unfold sl_h. rewrite (slice_list_pos 0). f_equal. lia.
Qed.

Lemma shape_mirrored self junk P n :
  sized self n → shape (mirrored self junk P) n (n / 2 + 1).
Proof.
  intros (Hx & Hy & _). unfold mirrored, setslice.
  do 2 apply shape_assign_block. rewrite Hx, Hy. apply shape_np_empty.
Qed.

Lemma set_size_pos n p self : set_size n p = Ok self → 0 < n.
Proof.
  unfold set_size, kxky. destruct n; simpl; [done|lia].
Qed.

Lemma nrows_np_empty {A} (junk : A) r c : nrows (np_empty junk r c) = r.
Proof. apply length_replicate. Qed.
Lemma ncols_np_empty {A} (junk : A) r c :
  0 < r → ncols (np_empty junk r c) = c.
Proof. intros Hr. destruct r; [lia|]. apply length_replicate. Qed.
Lemma nrows_assign_block {A} (a : arr2 A) ys xs rhs :
  nrows (assign_block a ys xs rhs) = nrows a.
Proof. apply length_imap. Qed.
Lemma ncols_assign_block {A} (a : arr2 A) ys xs rhs :
  ncols (assign_block a ys xs rhs) = ncols a.
Proof. destruct a; [done|]. apply length_imap. Qed.
Lemma lookup2_np_empty {A} (junk : A) r c i j :
  i < r → j < c → lookup2 (np_empty junk r c) i j = Some junk.
Proof.
  intros. unfold np_empty, lookup2. rewrite lookup_replicate_2 by lia.
  simpl. apply lookup_replicate_2. lia.
Qed.

Lemma lookup2_mirrored_origin self junk P n :
  sized self n → 0 < n → is_Some (lookup2 P 0 0) →
  lookup2 (mirrored self junk P) 0 0 = lookup2 P 0 0.
Proof.
  intros (Hx & Hy & Hikx & _ & _ & Hiky & _ & Hikyn) Hn [v Hv].
  unfold mirrored, setslice.
  rewrite Hx, Hy, Hikx, Hiky, Hikyn.
  rewrite !nrows_assign_block, !ncols_assign_block.
  rewrite nrows_np_empty, ncols_np_empty by done.
  rewrite !lookup2_assign_block, lookup2_np_empty by lia.
  rewrite !sl_h_list, !index_of_seq, index_of_sl_n.
  bool_tac. simpl. by rewrite Hv.
Qed.


Lemma fftfreq_nonzero n i : 0 < i → i < n → fftfreq n i ≠ 0%R.
Proof.
  intros Hi Hn. unfold fftfreq.
  assert (INR n ≠ 0)%R by (apply not_0_INR; lia).
  assert (0 < INR i)%R by (apply lt_0_INR; lia).
  assert (INR i < INR n)%R by (apply lt_INR; lia).
  destruct (i <? (n + 1) / 2); intros Hz;
    apply Rmult_integral in Hz as [Hz|Hz];
    solve [lra | by apply Rinv_neq_0_compat in Hz].
Qed.

Lemma kval_nonzero n p i j :
  p ≠ 0%R → fftfreq n i ≠ 0%R ∨ fftfreq n j ≠ 0%R → kval n p i j ≠ 0%R.
Proof.
  intros Hp Hf Hk. unfold kval in Hk.
  set (x := (2 * PI * fftfreq n j / p)%R) in *.
  set (y := (2 * PI * fftfreq n i / p)%R) in *.
  apply sqrt_eq_0 in Hk; [|nra].
  assert (Hnz : ∀ f, f ≠ 0%R → (2 * PI * f / p)%R ≠ 0%R).
  { intros f Hf0 Hz. pose proof PI_RGT_0.
    apply Rmult_integral in Hz as [Hz|Hz];
      [|by apply Rinv_neq_0_compat in Hz].
    apply Rmult_integral in Hz as [Hz|Hz]; [lra|done]. }
  assert (x = 0 ∧ y = 0)%R as [Hx Hy] by (split; nra).
  destruct Hf as [Hf|Hf]; eapply Hnz; eauto.
Qed.

Lemma set_size_grids n p self :
  set_size n p = Ok self →
  kx self = amap (λ x, (x / p)%R)
              ((λ _ : nat, (λ j, (2 * PI * fftfreq n j)%R) <$> seq 0 n) <$> seq 0 n) ∧
  ky self = amap (λ x, (x / p)%R)
              ((λ i, (λ _ : nat, (2 * PI * fftfreq n i)%R) <$> seq 0 n) <$> seq 0 n).
Proof.
  unfold set_size, kxky.
  destruct (((n =? 0) || (n =? 0))); rsimpl; [done|].
  destruct (_generate_exp2ipsi _ _); rsimpl; [|done].
  by intros [= <-].
Qed.

Lemma lookup2_kx n p self i j :
  set_size n p = Ok self → i < n → j < n →
  lookup2 (kx self) i j = Some (2 * PI * fftfreq n j / p)%R ∧
  lookup2 (ky self) i j = Some (2 * PI * fftfreq n i / p)%R.
Proof.
  intros Hs Hi Hj. destruct (set_size_grids _ _ _ Hs) as [-> ->].
  rewrite !lookup2_amap.
  rewrite (lookup2_grid (λ _ j, (2 * PI * fftfreq n j)%R)) by done.
  rewrite (lookup2_grid (λ i _, (2 * PI * fftfreq n i)%R)) by done.
  done.
Qed.

Lemma shape_kx n p self :
  set_size n p = Ok self → shape (kx self) n n ∧ shape (ky self) n n.
Proof.
  intros Hs. destruct (set_size_grids _ _ _ Hs) as [-> ->].
  split; apply shape_amap.
  - apply (shape_grid (λ _ j, (2 * PI * fftfreq n j)%R)).
  - apply (shape_grid (λ i _, (2 * PI * fftfreq n i)%R)).
Qed.

Lemma sl_h_bound n : Forall (λ i, i < n) (slice_list (sl_h n) n).
Proof.
  rewrite sl_h_list. apply Forall_lookup. intros i x Hx.
  apply lookup_seq in Hx. simpl. lia.
Qed.

(** The half-plane |k| grid before the value at the origin is replaced. *)
Lemma lookup2_half_plane n p self i j k :
  set_size n p = Ok self →
  lookup2 (zip2 (λ x y, sqrt (x ^ 2 + y ^ 2))
             (getslice (kx self) (iky self) (ikx self))
             (getslice (ky self) (iky self) (ikx self))) i j = Some k →
  i < n ∧ j < n ∧ i ≤ n / 2 ∧ j ≤ n / 2 ∧ k = kval n p i j.
Proof.
  intros Hs. pose proof (set_size_sized _ _ _ Hs) as (_ & _ & -> & _ & _ & -> & _).
  pose proof (set_size_pos _ _ _ Hs) as Hn.
  destruct (shape_kx _ _ _ Hs) as [Hkx Hky].
  rewrite lookup2_zip2. unfold getslice.
  rewrite (nrows_shape _ _ _ Hkx), (ncols_shape _ _ _ Hkx) by done.
  rewrite (nrows_shape _ _ _ Hky), (ncols_shape _ _ _ Hky) by done.
  rewrite !(lookup2_sub_block _ n n) by (done || apply sl_h_bound).
  rewrite sl_h_list.
  destruct (seq 0 _ !! i) as [i'|] eqn:Ei; osimpl; [|done].
  destruct (seq 0 _ !! j) as [j'|] eqn:Ej; osimpl; [|done].
  apply lookup_seq in Ei as [-> Hi]. apply lookup_seq in Ej as [-> Hj].
  rewrite !Nat.add_0_l.
  destruct (lookup2_kx n p self i j Hs) as [-> ->]; [lia..|]. osimpl.
  intros [= <-]. repeat split; lia.
Qed.

Lemma sampled_k_nonzero n p self kk i j k :
  set_size n p = Ok self → p ≠ 0%R →
  sampled_k self = Ok kk → lookup2 kk i j = Some k → k ≠ 0%R.
Proof.
  intros Hs Hp. unfold sampled_k.
  set (k0 := zip2 _ _ _).
  destruct (getitem k0 1 0) as [k10|] eqn:E10; rsimpl; [|done].
  apply getitem_Ok in E10.
  intros Hset. apply setitem_Ok in Hset as [_ ->].
  rewrite lookup2_setitem.
  apply (lookup2_half_plane n p) in E10 as (H1 & _ & _ & _ & ->); [|done].
  destruct ((0 =? i) && (0 =? j)) eqn:Eij.
  - destruct (lookup2 k0 i j); simpl; [|done].
    intros [= <-]. apply kval_nonzero; [done|].
    left. apply fftfreq_nonzero; lia.
  - intros Hl.
    apply (lookup2_half_plane n p) in Hl as (Hi & Hj & _ & _ & ->); [|done].
    apply kval_nonzero; [done|].
    destruct i; [destruct j; [done|]|].
    + right. apply fftfreq_nonzero; lia.
    + left. apply fftfreq_nonzero; lia.
Qed.


Lemma call_arr2_ext pf pf' (kk : arr2 R) :
  (∀ i j k, lookup2 kk i j = Some k → pf_call pf k = pf_call pf' k) →
  call_arr2 pf kk = call_arr2 pf' kk.
Proof.
  intros Hext. unfold call_arr2. apply rmapM_ext, Forall_lookup.
  intros i row Hrow. apply rmapM_ext, Forall_lookup. intros j k Hk.
  apply (Hext i j). unfold lookup2. by rewrite Hrow.
Qed.

Lemma generate_power_array_ext n p self junk pf pf' :
  set_size n p = Ok self → p ≠ 0%R →
  pf_table pf = pf_table pf' →
  (∀ k, k ≠ 0%R → pf_call pf k = pf_call pf' k) →
  _generate_power_array self junk pf = _generate_power_array self junk pf'.
Proof.
  intros Hs Hp Ht Hext. unfold _generate_power_array.
  destruct (sampled_k self) as [kk|] eqn:Ek; rsimpl; [|done].
  rewrite Ht, (call_arr2_ext pf pf' kk); [done|].
  intros i j k Hl. apply Hext. by eapply sampled_k_nonzero.
Qed.

Lemma generate_power_array_origin n p self junk pf arr :
  set_size n p = Ok self →
  _generate_power_array self junk pf = Ok arr →
  shape arr n (n / 2 + 1) ∧ lookup2 arr 0 0 = Some 0%R.
Proof.
  intros Hs Hg.
  pose proof (set_size_sized _ _ _ Hs) as Hsz.
  pose proof (set_size_pos _ _ _ Hs) as Hn.
  apply generate_power_array_Ok in Hg as (kk & P_k & _ & _ & [v Hv] & _ & ->).
  split; [by apply shape_mirrored|].
  rewrite (lookup2_mirrored_origin _ _ _ n); try done.
  - by rewrite lookup2_setitem, Hv.
  - rewrite lookup2_setitem, Hv. by eexists.
Qed.

Section Realizer2.
Context `{Numpy}.

Lemma init_inv n p pE pB self :
  PowerSpectrumRealizer_init n p pE pB = Ok self →
  ∃ self0,
    set_size n p = Ok self0 ∧ sized self n ∧
    match pE with
    | None => amplitude_E self = None
    | Some f => ∃ pa, _generate_power_array self0 junkR f = Ok pa ∧
                      amplitude_E self = Some (amap (λ x, (sqrt x / p)%R) pa)
    end ∧
    match pB with
    | None => amplitude_B self = None
    | Some f => ∃ pa, _generate_power_array self0 junkR f = Ok pa ∧
                      amplitude_B self = Some (amap (λ x, (sqrt x / p)%R) pa)
    end.
Proof.
  intros Hi. pose proof (init_sized _ _ _ _ _ Hi) as Hsz.
  unfold PowerSpectrumRealizer_init in Hi.
  destruct (set_size n p) as [self0|] eqn:Es; rsimpl in Hi; [|done].
  exists self0. split; [done|]. split; [done|].
  assert (Hp : pixel_size self0 = p).
  { unfold set_size in Es. destruct (kxky _) as [[??]|]; rsimpl in Es; [|done].
    destruct (_generate_exp2ipsi _ _); rsimpl in Es; [|done]. by simplify_eq. }
  unfold set_power in Hi. rewrite Hp in Hi.
  destruct pE as [f|], pB as [g|]; rsimpl in Hi;
    repeat match type of Hi with
    | context [_generate_power_array ?s ?j ?f] =>
        destruct (_generate_power_array s j f) eqn:?; rsimpl in Hi; [|done]
    end; simplify_eq; simpl; repeat split; eauto.
Qed.

Lemma amplitude_origin n p self0 f pa :
  set_size n p = Ok self0 →
  _generate_power_array self0 junkR f = Ok pa →
  shape (amap (λ x, (sqrt x / p)%R) pa) n (n / 2 + 1) ∧
  lookup2 (amap (λ x, (sqrt x / p)%R) pa) 0 0 = Some 0%R.
Proof.
  intros Hs Hg.
  destruct (generate_power_array_origin _ _ _ _ _ _ Hs Hg) as [Hsh H0].
  split; [by apply shape_amap|].
  rewrite lookup2_amap, H0. simpl. f_equal.
  rewrite sqrt_0. unfold Rdiv. apply Rmult_0_l.
Qed.

Lemma lookup2_rand_arr r c gd i j :
  i < r → j < c →
  lookup2 (rand_arr (r, c) gd).1 i j
  = Some (gd_stream gd (gd_pos gd + i * c + j)).
Proof.
  intros. unfold rand_arr. cbn [fst].
  by rewrite (lookup2_grid (λ i j, gd_stream gd (gd_pos gd + i * c + j))).
Qed.

Lemma Cmul_zero_amplitude z s : Cmul (Cmul (RtoC 0) z) (RtoC s) = C0.
Proof. unfold Cmul, RtoC, C0. simpl. f_equal; ring. Qed.

Lemma realize_mode_origin self n amp gd :
  sized self n → 0 < n → shape amp n (n / 2 + 1) →
  lookup2 amp 0 0 = Some 0%R →
  lookup2 (realize_mode self amp gd).1 0 0 = Some C0.
Proof.
  intros Hs Hn Hamp H0. rewrite realize_mode_fst.
  set (X := setslice _ _ _ _).
  assert (HX : shape X n n).
  { unfold X. destruct Hs as (-> & -> & _).
    apply shape_assign_block, shape_np_empty. }
  rewrite (lookup2_cell _ n n) by (by try apply shape_make_hermitian).
  rewrite (make_hermitian_cell self X n) by done.
  unfold herm_spec. cbn.
  assert (Hc : cell X 0 0 = Cmul (Cmul (RtoC 0) 
     (Cadd (RtoC (gd_stream gd (gd_pos gd))) (Cmul Ci (RtoC (gd_stream gd (gd_pos gd + n * (n / 2 + 1))))))) (RtoC ISQRT2)).
  { unfold cell, X, setslice.
    destruct Hs as (Hx & Hy & Hikx & _). rewrite Hx, Hy, Hikx.
    rewrite nrows_np_empty, ncols_np_empty by done.
    rewrite lookup2_assign_block, lookup2_np_empty by lia.
    rewrite slice_list_all, sl_h_list, !index_of_seq. bool_tac.
    cbn [andb]. osimpl.
    cbn [Nat.sub]. unfold mode_half_plane. rewrite !lookup2_zip2, H0.
    rewrite (nrows_shape _ _ _ Hamp), (ncols_shape _ _ _ Hamp) by done.
    rewrite !lookup2_rand_arr by lia. cbn.
    by rewrite !Nat.add_0_r. }
  rewrite Hc, Cmul_zero_amplitude. done.
Qed.
End Realizer2.

(** ** buildGrid and the random draws *)

Section BuildGridProperties.
Context `{Numpy} `{Galsim}.

Lemma buildGrid_power_with self g i stored bl :
  buildGrid_power (with_interpolant (with_geometry self g) i) stored bl
  = buildGrid_power self stored bl.
Proof. reflexivity. Qed.

Lemma buildGrid_Ok self a rng out self' rng' :
  buildGrid self a rng = (Ok out, self', rng') →
  ∃ grid_spacing ngrid kmin_factor kmax_factor center0 stored pE pB psr,
    buildGrid_inputs a
      = Ok (grid_spacing, ngrid, kmin_factor, kmax_factor, center0) ∧
    py_floordiv grid_spacing (IZR kmax_factor) = Ok stored ∧
    buildGrid_power self stored (bg_bandlimit a) = Ok (pE, pB) ∧
    (0 ≤ ngrid * kmin_factor * kmax_factor)%Z ∧
    PowerSpectrumRealizer_init
      (Z.to_nat (ngrid * kmin_factor * kmax_factor))
      (grid_spacing / IZR kmax_factor)%R pE pB = Ok psr ∧
    rng' = (PowerSpectrumRealizer_call psr rng).2 ∧
    e_power_function self' = e_power_function self ∧
    b_power_function self' = b_power_function self ∧
    ngrid_tot self'
      = Some ((ngrid * kmin_factor * kmax_factor)%Z,
              (grid_spacing / IZR kmax_factor)%R) ∧
    (∃ c adj b, geometry self' = Some (Geom stored c adj b)) ∧
    images self'
      = Some (kept_grids ngrid kmin_factor kmax_factor
                (PowerSpectrumRealizer_call psr rng).1) ∧
    grids self' = images self'.
Proof.
  unfold buildGrid.
  destruct (buildGrid_inputs a) as [[[[[gs ngrid] kmin] kmax] c0]|] eqn:Ei;
    rsimpl; [|done].
  destruct (py_floordiv gs (IZR kmax)) as [stored|] eqn:Ef; rsimpl; [|done].
  rewrite buildGrid_power_with.
  destruct (buildGrid_power self stored (bg_bandlimit a)) as [[pE pB]|] eqn:Ep;
    [|done].
  destruct (Z.ltb_spec (ngrid * kmin * kmax) 0); [done|].
  destruct (PowerSpectrumRealizer_init _ _ pE pB) as [psr|] eqn:Er; [|done].
  destruct (PowerSpectrumRealizer_call psr rng) as [[[g1 g2] kappa] gd] eqn:Ec.
  intros Heq.
  exists gs, ngrid, kmin, kmax, c0, stored, pE, pB, psr.
  rewrite Ec. unfold kept_grids. cbn [fst snd].
  destruct (negb (kmin =? 1)%Z || negb (kmax =? 1)%Z);
    simplify_eq; cbn; repeat split; eauto.
Qed.
Lemma rand_arr_draw_block r c gd :
  rand_arr (r, c) gd = (draw_block gd 0 r c, advance gd (r * c)).
Proof.
  unfold rand_arr, draw_block, advance. f_equal.
  apply list_fmap_ext. intros i x _. apply list_fmap_ext. intros j y _.
  f_equal. lia.
Qed.

Lemma draw_block_advance gd k off r c :
  draw_block (advance gd k) off r c = draw_block gd (k + off) r c.
Proof.
  unfold draw_block, advance. cbn [gd_stream gd_pos].
  apply list_fmap_ext. intros i x _. apply list_fmap_ext. intros j y _.
  f_equal. lia.
Qed.

Lemma realize_mode_draws psr amp gd :
  realize_mode psr amp gd
  = (mode_from_draws psr amp
       (draw_block gd 0 (nrows amp) (ncols amp))
       (draw_block gd (nrows amp * ncols amp) (nrows amp) (ncols amp)),
     advance gd (2 * (nrows amp * ncols amp))).
Proof.
  unfold realize_mode. do 2 rewrite rand_arr_draw_block.
  rewrite draw_block_advance. unfold mode_from_draws, advance.
  cbn [gd_stream gd_pos]. rewrite Nat.add_0_r.
  replace (gd_pos gd + 2 * (nrows amp * ncols amp))
    with (gd_pos gd + nrows amp * ncols amp + nrows amp * ncols amp) by lia.
  reflexivity.
Qed.

Lemma advance_advance gd a b : advance (advance gd a) b = advance gd (a + b).
Proof. unfold advance. cbn. f_equal. lia. Qed.
Lemma advance_0 gd : advance gd 0 = gd.
Proof. destruct gd. unfold advance. cbn. f_equal. lia. Qed.

Lemma call_deviate psr gd :
  (PowerSpectrumRealizer_call psr gd).2
  = advance gd
      ((if amplitude_E psr is Some a then 2 * (nrows a * ncols a) else 0)
       + (if amplitude_B psr is Some a then 2 * (nrows a * ncols a) else 0)).
Proof.
  unfold PowerSpectrumRealizer_call.
  destruct (amplitude_E psr) as [aE|], (amplitude_B psr) as [aB|];
    rewrite ?realize_mode_draws; cbn [snd];
    rewrite ?advance_advance, ?Nat.add_0_r, ?Nat.add_0_l, ?advance_0; reflexivity.
Qed.

Lemma convert_power_function_Some pf r :
  _convert_power_function pf = Ok r → (is_Some r ↔ is_Some pf).
Proof.
  unfold _convert_power_function. destruct pf as [pf|].
  - destruct (match pf with PFString _ => _ | PFCallable _ => _ end) as [f|];
      rsimpl; [|done].
    destruct (pf_table f).
    + intros [= <-]. split; intros _; by eexists.
    + destruct (call_arr1 f [_; 1%R]); rsimpl; [|done].
      destruct (call_arr1 f [0%R; _]); rsimpl; [|done].
      intros [= <-]. split; intros _; by eexists.
  - intros [= <-]. split; intros []; done.
Qed.

Lemma buildGrid_power_modes self stored bl pE pB :
  buildGrid_power self stored bl = Ok (pE, pB) →
  (is_Some pE ↔ is_Some (e_power_function self)) ∧
  (is_Some pB ↔ is_Some (b_power_function self)).
Proof.
  unfold buildGrid_power.
  destruct (_convert_power_function (e_power_function self)) as [e|] eqn:Ee;
    rsimpl; [|done].
  destruct (_convert_power_function (b_power_function self)) as [b|] eqn:Eb;
    rsimpl; [|done].
  destruct (py_truediv _ _); rsimpl; [|done].
  destruct (bandlimit_func bl); rsimpl; [|done].
  intros [= <- <-].
  apply convert_power_function_Some in Ee, Eb.
  rewrite <- Ee, <- Eb. unfold wrap_power.
  split; [destruct e|destruct b]; split; intros [? ?]; by eauto.
Qed.
Lemma init_negative n p pE pB self0 pf :
  set_size n p = Ok self0 → pE = Some pf ∨ pB = Some pf →
  negative_on_grid self0 pf →
  ∃ e, PowerSpectrumRealizer_init n p pE pB = Raise e.
Proof.
  intros Hs Hpf Hneg. unfold PowerSpectrumRealizer_init, set_power.
  rewrite Hs. rsimpl.
  destruct (generate_power_array_negative self0 junkR pf Hneg) as [e He].
  destruct Hpf as [-> | ->].
  - rewrite He. rsimpl. eauto.
  - destruct pE as [f|]; rsimpl.
    + destruct (_generate_power_array self0 junkR f); rsimpl; [|eauto].
      rewrite He. rsimpl. eauto.
    + rewrite He. rsimpl. eauto.
Qed.

Lemma buildGrid_raise_rng self a rng e self' rng' :
  buildGrid self a rng = (Raise e, self', rng') → rng' = rng.
Proof.
  unfold buildGrid.
  destruct (buildGrid_inputs a) as [[[[[gs ngrid] kmin] kmax] c0]|];
    rsimpl; [|by intros [= _ _ ->]].
  destruct (py_floordiv gs (IZR kmax)) as [stored|]; rsimpl;
    [|by intros [= _ _ ->]].
  destruct (buildGrid_power _ stored (bg_bandlimit a)) as [[pE pB]|];
    [|by intros [= _ _ ->]].
  destruct (if (ngrid * kmin * kmax <? 0)%Z then _ else _) as [psr|];
    [|by intros [= _ _ ->]].
  destruct (PowerSpectrumRealizer_call psr rng) as [[[g1 g2] kappa] gd].
  by destruct (negb (kmin =? 1)%Z || negb (kmax =? 1)%Z).
Qed.

Lemma to_nat_cells (N : Z) :
  (0 ≤ N)%Z →
  Z.to_nat (N * (N `div` 2 + 1)) = Z.to_nat N * (Z.to_nat N / 2 + 1).
Proof.
  intros HN. rewrite Z2Nat.inj_mul by lia. f_equal. lia.
Qed.

(** C3. For every power function, the power array generated on the
    half-plane grid has exactly zero in the bin of [k = 0]; the function is
    only evaluated at nonzero [|k|], so the array does not depend on what
    it would return at [k = 0]; and the [k = 0] coefficient of every
    realized Fourier array (the one convergence is transformed from) is
    zero. *)
Theorem power_array_zero_at_origin (n : nat) (p : R)
    (self0 : PowerSpectrumRealizer) :
  set_size n p = Ok self0 →
  (∀ junk pf arr,
     _generate_power_array self0 junk pf = Ok arr →
     lookup2 arr 0 0 = Some 0%R) ∧
  (p ≠ 0%R →
   (∀ kk i j k,
      sampled_k self0 = Ok kk → lookup2 kk i j = Some k → k ≠ 0%R) ∧
   (∀ junk pf pf',
      pf_table pf = pf_table pf' →
      (∀ k, k ≠ 0%R → pf_call pf k = pf_call pf' k) →
      _generate_power_array self0 junk pf
      = _generate_power_array self0 junk pf')) ∧
  (∀ pE pB self gd,
     PowerSpectrumRealizer_init n p pE pB = Ok self →
     (∀ amp, amplitude_E self = Some amp →
             lookup2 (realize_mode self amp gd).1 0 0 = Some C0) ∧
     (∀ amp, amplitude_B self = Some amp →
             lookup2 (realize_mode self amp gd).1 0 0 = Some C0)).
Proof.
  intros Hs. split; [|split].
  - intros junk pf arr Hg.
    by destruct (generate_power_array_origin _ _ _ _ _ _ Hs Hg).
  - intros Hp. split.
    + intros kk i j k Hk Hl. by eapply sampled_k_nonzero.
    + intros junk pf pf' Ht Hext. by eapply generate_power_array_ext.
  - intros pE pB self gd Hi.
    destruct (init_inv _ _ _ _ _ Hi) as (self1 & Hs1 & Hsz & HE & HB).
    rewrite Hs in Hs1. simplify_eq.
    pose proof (set_size_pos _ _ _ Hs) as Hn.
    split; intros amp Hamp.
    + destruct pE as [f|]; [|by rewrite HE in Hamp].
      destruct HE as (pa & Hg & HE). rewrite HE in Hamp. simplify_eq.
      destruct (amplitude_origin _ _ _ _ _ Hs Hg) as [Hsh Hz].
      by apply (realize_mode_origin self n).
    + destruct pB as [f|]; [|by rewrite HB in Hamp].
      destruct HB as (pa & Hg & HB). rewrite HB in Hamp. simplify_eq.
      destruct (amplitude_origin _ _ _ _ _ Hs Hg) as [Hsh Hz].
      by apply (realize_mode_origin self n).
Qed.

(** C6. After a successful buildGrid with total grid size
    [N = ngrid * kmin_factor * kmax_factor], nRandCallsForBuildGrid returns
    [2 * N * (N // 2 + 1)] times the number of active modes; this is the
    number of draws the realizer consumed; and the draws were used in the
    order E-mode [r1], E-mode [r2], B-mode [r1], B-mode [r2]. *)
Theorem nRandCalls_counts_draws (self : PowerSpectrum) (a : buildGrid_args)
    (rng : GaussianDeviate) out self' rng'
    grid_spacing ngrid kmin_factor kmax_factor center0 :
  buildGrid self a rng = (Ok out, self', rng') →
  buildGrid_inputs a
    = Ok (grid_spacing, ngrid, kmin_factor, kmax_factor, center0) →
  let N := (ngrid * kmin_factor * kmax_factor)%Z in
  let count := (active_modes self * (2 * N * (N `div` 2 + 1)))%Z in
  let n := Z.to_nat N in
  let c := n / 2 + 1 in
  let h := n * c in
  nRandCallsForBuildGrid self' = Ok count ∧
  rng' = advance rng (Z.to_nat count) ∧
  ∃ psr pE pB,
    PowerSpectrumRealizer_init n (grid_spacing / IZR kmax_factor)%R pE pB
      = Ok psr ∧
    rng' = (PowerSpectrumRealizer_call psr rng).2 ∧
    (∀ amp, amplitude_E psr = Some amp →
       realize_mode psr amp rng
       = (mode_from_draws psr amp (draw_block rng 0 n c)
            (draw_block rng h n c),
          advance rng (2 * h))) ∧
    (∀ amp, amplitude_B psr = Some amp →
       let off := if e_power_function self is Some _ then 2 * h else 0 in
       realize_mode psr amp
         (if amplitude_E psr is Some ampE
          then (realize_mode psr ampE rng).2 else rng)
       = (mode_from_draws psr amp (draw_block rng off n c)
            (draw_block rng (off + h) n c),
          advance rng (off + 2 * h))).
Proof.
  intros Hb Hin N count n c h.
  apply buildGrid_Ok in Hb
    as (gs & ng & kmin & kmax & c0 & stored & pE & pB & psr
        & Hin' & _ & Hp & HN & Hinit & -> & He & Hbp & Hnt & _).
  rewrite Hin in Hin'. simplify_eq. fold N in HN, Hinit, Hnt. fold n in Hinit.
  destruct (buildGrid_power_modes _ _ _ _ _ Hp) as [HmE HmB].
  destruct (init_inv _ _ _ _ _ Hinit) as (self0 & Hs & Hsz & HE & HB).
  pose proof (set_size_pos _ _ _ Hs) as Hn.
  assert (Hh : Z.to_nat (N * (N `div` 2 + 1)) = h) by (by apply to_nat_cells).
  assert (Hshape : ∀ f pa,
            _generate_power_array self0 junkR f = Ok pa →
            nrows (amap (λ x, (sqrt x / (gs / IZR kmax))%R) pa) = n ∧
            ncols (amap (λ x, (sqrt x / (gs / IZR kmax))%R) pa) = c).
  { intros f pa Hg.
    destruct (amplitude_origin _ _ _ _ _ Hs Hg) as [Hsh _].
    split; [by eapply nrows_shape|by eapply ncols_shape]. }
  assert (HaE : if e_power_function self is Some _
                then ∃ amp, amplitude_E psr = Some amp ∧ nrows amp = n
                            ∧ ncols amp = c
                else amplitude_E psr = None).
  { destruct (e_power_function self) as [x|], pE as [f|];
      try (by destruct HmE as [[? ?] _]; eauto);
      try (by destruct HmE as [_ [? ?]]; eauto); [|done].
    destruct HE as (pa & Hg & ->). destruct (Hshape _ _ Hg). eauto. }
  assert (HaB : if b_power_function self is Some _
                then ∃ amp, amplitude_B psr = Some amp ∧ nrows amp = n
                            ∧ ncols amp = c
                else amplitude_B psr = None).
  { destruct (b_power_function self) as [x|], pB as [f|];
      try (by destruct HmB as [[? ?] _]; eauto);
      try (by destruct HmB as [_ [? ?]]; eauto); [|done].
    destruct HB as (pa & Hg & ->). destruct (Hshape _ _ Hg). eauto. }
  assert (Hcount : Z.to_nat count
                   = (if e_power_function self is Some _ then 2 * h else 0)
                     + (if b_power_function self is Some _ then 2 * h else 0)).
  { unfold count, active_modes. rewrite <- Hh.
    destruct (e_power_function self), (b_power_function self); nia. }
  split; [|split].
  - unfold nRandCallsForBuildGrid. rewrite Hnt, He, Hbp. f_equal.
    unfold count, active_modes.
    destruct (e_power_function self), (b_power_function self); lia.
  - rewrite call_deviate, Hcount. f_equal.
    destruct (e_power_function self), (b_power_function self);
      repeat match goal with
      | H : ∃ _, _ |- _ => destruct H as (? & -> & -> & ->)
      | H : _ = None |- _ => rewrite H
      end; reflexivity.
  - exists psr, pE, pB. split; [done|]. split; [done|]. split.
    + intros amp Hamp. rewrite realize_mode_draws.
      destruct (e_power_function self); [|by rewrite HaE in Hamp].
      destruct HaE as (? & Ha & <- & <-). rewrite Ha in Hamp. by simplify_eq.
    + intros amp Hamp off.
      destruct (b_power_function self); [|by rewrite HaB in Hamp].
      destruct HaB as (? & Ha & HrB & HcB). rewrite Ha in Hamp. simplify_eq.
      unfold off. destruct (e_power_function self).
      * destruct HaE as (ampE & -> & HrE & HcE).
        rewrite !realize_mode_draws. cbn [snd].
        rewrite HrB, HcB, HrE, HcE.
        rewrite !draw_block_advance, advance_advance, Nat.add_0_r.
        reflexivity.
      * rewrite HaE, realize_mode_draws, HrB, HcB. reflexivity.
Qed.
End BuildGridProperties.

(** ** Negative power *)

Open Scope R_scope.

(** The cells of the sampled [|k|] grid. *)
Lemma sampled_k_cell n p self kk i j k :
  set_size n p = Ok self → sampled_k self = Ok kk →
  lookup2 kk i j = Some k →
  (i ≤ n / 2)%nat ∧ (j ≤ n / 2)%nat ∧
  k = if ((0 =? i) && (0 =? j))%nat then kval n p 1 0 else kval n p i j.
Proof.
  intros Hs. unfold sampled_k.
  set (k0 := zip2 _ _ _).
  destruct (getitem k0 1 0) as [k10|] eqn:E10; rsimpl; [|done].
  apply getitem_Ok in E10.
  intros Hset. apply setitem_Ok in Hset as [_ ->].
  rewrite lookup2_setitem.
  apply (lookup2_half_plane n p) in E10 as (H1 & _ & _ & _ & ->); [|done].
  destruct ((0 =? i)%nat && (0 =? j)%nat) eqn:Eij.
  - apply andb_prop in Eij as [Ei Ej].
    apply Nat.eqb_eq in Ei as <-. apply Nat.eqb_eq in Ej as <-.
    destruct (lookup2 k0 0 0); simpl; [|done].
    intros [= <-]. repeat split; lia.
  - intros Hl.
    apply (lookup2_half_plane n p) in Hl as (Hi & Hj & Hi2 & Hj2 & ->); done.
Qed.

Lemma floordiv_nonzero_pixel s m stored k_max :
  py_floordiv s m = Ok stored → py_truediv PI stored = Ok k_max → s / m ≠ 0.
Proof.
  unfold py_floordiv, py_truediv.
  destruct (Reqb m 0); [done|]. intros [= <-].
  destruct (Reqb _ 0) eqn:E; [done|]. intros _ Hz.
  rewrite Hz in E.
  replace (Int_part 0) with 0%Z in E.
  - unfold Reqb in E. by destruct (Req_dec_T 0 0).
  - apply Int_part_spec. split; lra.
Qed.

Section NegativePower.
Context `{Numpy} `{Galsim}.

(** The band-limited function handed to the realizer is negative where the
    user's function is, as far as the band limit lets it through. *)
Lemma wrap_power_negative (self : PowerSpectrum) bl k_max f k v :
  pf_call f (scale self * k) = Ok v → v < 0 → k ≠ 0 → scale self ≠ 0 →
  0 < bl (scale self * k) (scale self * k_max) →
  ∃ p w, wrap_power self bl k_max (Some f) = Some p ∧
         pf_call p k = Ok w ∧ w < 0.
Proof.
  intros Hv Hneg Hk Hs Hbl.
  set (b := bl (scale self * k) (scale self * k_max)) in *.
  assert (Hk2 : 0 < k ^ 2)
    by (destruct (Rtotal_order k 0) as [?|[?|?]]; [nra|done|nra]).
  assert (Hs2 : 0 < scale self ^ 2)
    by (destruct (Rtotal_order (scale self) 0) as [?|[?|?]]; [nra|done|nra]).
  unfold wrap_power.
  destruct (delta2 self) eqn:Ed; [|destruct (Reqb (scale self) 1) eqn:E1].
  - eexists _, (2 * PI * v / k ^ 2 * b). split; [reflexivity|].
    split; [cbn; rewrite Hv; reflexivity|].
    pose proof PI_RGT_0.
    assert (Hq : 0 < / k ^ 2) by (by apply Rinv_0_lt_compat).
    unfold Rdiv.
    assert (2 * PI * v < 0) by nra.
    assert (2 * PI * v * / k ^ 2 < 0) by nra. nra.
  - eexists _, (v * b). split; [reflexivity|].
    assert (Hsc : scale self = 1).
    { unfold Reqb in E1. by destruct (Req_dec_T (scale self) 1). }
    split; [|nra].
    cbn. subst b. rewrite Hsc, !Rmult_1_l in *. rewrite Hv. reflexivity.
  - eexists _, (v * scale self ^ 2 * b). split; [reflexivity|].
    split; [cbn; rewrite Hv; reflexivity|].
    assert (v * scale self ^ 2 < 0) by nra. nra.
Qed.

(** C4 (amended).  Whenever buildGrid fails, no Gaussian draw has been
    consumed: the deviate is the one it was given.  And it fails whenever
    a power function of the instance returns a negative value [v] at
    [scale * k] for a sampled [|k|], other than in the bin of [k = 0],
    where the band limit lets it through: what the realizer checks is the
    product of [v], a positive factor for the units, and the band-limit
    factor [bl (scale * k) (scale * k_max)], which must be positive
    there. *)
Theorem negative_power_fails_before_draws (self : PowerSpectrum)
    (a : buildGrid_args) (rng : GaussianDeviate) :
  (∀ e self' rng',
     buildGrid self a rng = (Raise e, self', rng') → rng' = rng) ∧
  (∀ grid_spacing ngrid kmin_factor kmax_factor center0 stored k_max bl
     psr0 f kk i j k v,
     buildGrid_inputs a
       = Ok (grid_spacing, ngrid, kmin_factor, kmax_factor, center0) →
     py_floordiv grid_spacing (IZR kmax_factor) = Ok stored →
     py_truediv PI stored = Ok k_max →
     bandlimit_func (bg_bandlimit a) = Ok bl →
     _convert_power_function (e_power_function self) = Ok (Some f) ∨
     _convert_power_function (b_power_function self) = Ok (Some f) →
     set_size (Z.to_nat (ngrid * kmin_factor * kmax_factor))
       (grid_spacing / IZR kmax_factor) = Ok psr0 →
     sampled_k psr0 = Ok kk → lookup2 kk i j = Some k →
     (i, j) ≠ (0, 0)%nat →
     pf_call f (scale self * k) = Ok v → v < 0 →
     scale self ≠ 0 →
     0 < bl (scale self * k) (scale self * k_max) →
     ∃ e self', buildGrid self a rng = (Raise e, self', rng)).
Proof.
  split.
  - intros e self' rng'. apply buildGrid_raise_rng.
  - intros gs ngrid kmin kmax c0 stored k_max bl psr0 f kk i j k v
      Hi Hf Hk Hbl Hpf Hs Hkk Hl Hij Hv Hneg Hsc Hb.
    pose proof (floordiv_nonzero_pixel _ _ _ _ Hf Hk) as Hp.
    pose proof (sampled_k_nonzero _ _ _ _ _ _ _ Hs Hp Hkk Hl) as Hk0.
    destruct (wrap_power_negative self bl k_max f k v Hv Hneg Hk0 Hsc Hb)
      as (p & w & Hw & Hcall & Hwneg).
    assert (Hng : negative_on_grid psr0 p).
    { exists kk, i, j, k, w. done. }
    unfold buildGrid. rewrite Hi. rsimpl. rewrite Hf. rsimpl.
    rewrite buildGrid_power_with. unfold buildGrid_power.
    destruct (_convert_power_function (e_power_function self))
      as [fe|] eqn:Ee; rsimpl; [|by eauto].
    destruct (_convert_power_function (b_power_function self))
      as [fb|] eqn:Eb; rsimpl; [|by eauto].
    rewrite Hk, Hbl. rsimpl.
    destruct (Z.ltb_spec (ngrid * kmin * kmax) 0); [by eauto|].
    destruct (init_negative _ _ (wrap_power self bl k_max fe)
                (wrap_power self bl k_max fb) _ p Hs) as [e He].
    + destruct Hpf as [[= ->]|[= ->]]; [by left|by right].
    + exact Hng.
    + rewrite He. eauto.
Qed.
End NegativePower.


(** ** theoryToObserved *)

Open Scope R_scope.

Lemma theoryToObserved_float (gamma1 gamma2 kappa : R) :
  theoryToObserved (LFloat gamma1) (LFloat gamma2) (LFloat kappa)
  = Ok (LFloat (gamma1 / (1 - kappa)), LFloat (gamma2 / (1 - kappa)),
        LFloat (1 / ((1 - kappa) ^ 2 - (gamma1 ^ 2 + gamma2 ^ 2)))).
Proof. reflexivity. Qed.

Lemma theoryToObserved_array (g1 g2 k : arr2 R) :
  np_shape (LArray g1) = np_shape (LArray g2) →
  np_shape (LArray k) = np_shape (LArray g1) →
  theoryToObserved (LArray g1) (LArray g2) (LArray k)
  = Ok (LArray (zip2 reduced_shear g1 k), LArray (zip2 reduced_shear g2 k),
        LArray (zip2 (λ g k, g k) (zip2 magnification g1 g2) k)).
Proof.
  intros H1 H2. unfold theoryToObserved, shape_eqb. cbn [same_type negb].
  rewrite !bool_decide_eq_true_2 by done. reflexivity.
Qed.

Lemma observed_sign_dichotomy (a1 a2 u b1 b2 v : R) :
  u ≠ 0 → v ≠ 0 →
  u ^ 2 - (a1 ^ 2 + a2 ^ 2) ≠ 0 → v ^ 2 - (b1 ^ 2 + b2 ^ 2) ≠ 0 →
  a1 / u = b1 / v → a2 / u = b2 / v →
  1 / (u ^ 2 - (a1 ^ 2 + a2 ^ 2)) = 1 / (v ^ 2 - (b1 ^ 2 + b2 ^ 2)) →
  (b1 = a1 ∧ b2 = a2 ∧ v = u) ∨ (b1 = - a1 ∧ b2 = - a2 ∧ v = - u).
Proof.
  intros Hu Hv HD HD' H1 H2 H3.
  assert (E1 : a1 * v = b1 * u).
  { apply (Rmult_eq_compat_r (u * v)) in H1. field_simplify in H1; lra. }
  assert (E2 : a2 * v = b2 * u).
  { apply (Rmult_eq_compat_r (u * v)) in H2. field_simplify in H2; lra. }
  assert (E3 : u ^ 2 - (a1 ^ 2 + a2 ^ 2) = v ^ 2 - (b1 ^ 2 + b2 ^ 2)).
  { apply (f_equal Rinv) in H3. unfold Rdiv in H3.
    rewrite !Rmult_1_l, !Rinv_inv in H3. exact H3. }
  assert (E4 : (u ^ 2 - (a1 ^ 2 + a2 ^ 2)) * (v ^ 2 - u ^ 2) = 0).
  { transitivity (u ^ 2 * (v ^ 2 - (b1 ^ 2 + b2 ^ 2))
                  - u ^ 2 * (u ^ 2 - (a1 ^ 2 + a2 ^ 2))
                  + ((b1 * u) ^ 2 - (a1 * v) ^ 2)
                  + ((b2 * u) ^ 2 - (a2 * v) ^ 2)); [ring|].
    rewrite <- E1, <- E2, <- E3. ring. }
  apply Rmult_integral in E4 as [E4|E4]; [done|].
  assert (E5 : (v - u) * (v + u) = 0) by (rewrite <- E4; ring).
  apply Rmult_integral in E5 as [E5|E5].
  - left. assert (v = u) as -> by lra.
    split; [|split]; [apply (Rmult_eq_reg_r u); lra..|done].
  - right. assert (v = - u) as -> by lra.
    split; [|split]; [apply (Rmult_eq_reg_r u); lra..|done].
Qed.

(** C8, as stated, fails: the inputs [(1, 0, 3)] and [(-1, 0, -1)] are both
    valid and give the same reduced shear and magnification, so the outputs
    do not determine the inputs. *)
Lemma theoryToObserved_not_injective :
  ¬ (∀ g1 g2 k g1' g2' k',
       valid_input g1 g2 k → valid_input g1' g2' k' →
       theoryToObserved (LFloat g1) (LFloat g2) (LFloat k)
       = theoryToObserved (LFloat g1') (LFloat g2') (LFloat k') →
       (g1', g2', k') = (g1, g2, k)).
Proof.
  intros Hinj.
  assert (Hv1 : valid_input 1 0 3) by (split; lra).
  assert (Hv2 : valid_input (-1) 0 (-1)) by (split; lra).
  specialize (Hinj 1 0 3 (-1) 0 (-1) Hv1 Hv2).
  assert (Heq : ((-1) : R, 0 : R, (-1) : R) = (1, 0, 3)).
  { apply Hinj. rewrite !theoryToObserved_float.
    do 2 f_equal; [f_equal|]; f_equal; lra. }
  injection Heq as Heq _. lra.
Qed.

(** C8 (amended).  theoryToObserved returns [g = gamma / (1 - kappa)] and
    [mu = 1 / ((1 - kappa)^2 - |gamma|^2)], element by element on arrays;
    on valid inputs the outputs determine [(gamma1, gamma2, kappa)] up to
    the simultaneous sign change of [gamma] and [1 - kappa], and uniquely
    among inputs whose [1 - kappa] have the same sign. *)
Theorem theoryToObserved_round_trip (gamma1 gamma2 kappa : R) :
  theoryToObserved (LFloat gamma1) (LFloat gamma2) (LFloat kappa)
  = Ok (LFloat (gamma1 / (1 - kappa)), LFloat (gamma2 / (1 - kappa)),
        LFloat (1 / ((1 - kappa) ^ 2 - (gamma1 ^ 2 + gamma2 ^ 2)))) ∧
  (∀ g1 g2 k : arr2 R,
     np_shape (LArray g1) = np_shape (LArray g2) →
     np_shape (LArray k) = np_shape (LArray g1) →
     theoryToObserved (LArray g1) (LArray g2) (LArray k)
     = Ok (LArray (zip2 reduced_shear g1 k), LArray (zip2 reduced_shear g2 k),
           LArray (zip2 (λ g k, g k) (zip2 magnification g1 g2) k))) ∧
  (∀ gamma1' gamma2' kappa',
     valid_input gamma1 gamma2 kappa →
     valid_input gamma1' gamma2' kappa' →
     theoryToObserved (LFloat gamma1) (LFloat gamma2) (LFloat kappa)
     = theoryToObserved (LFloat gamma1') (LFloat gamma2') (LFloat kappa') →
     ((gamma1', gamma2', kappa') = (gamma1, gamma2, kappa)
      ∨ (gamma1', gamma2', kappa') = (- gamma1, - gamma2, 2 - kappa)) ∧
     (0 < (1 - kappa) * (1 - kappa') →
      (gamma1', gamma2', kappa') = (gamma1, gamma2, kappa))).
Proof.
  split; [apply theoryToObserved_float|].
  split; [apply theoryToObserved_array|].
  intros g1' g2' k' [Hk Hd] [Hk' Hd'] Heq.
  rewrite !theoryToObserved_float in Heq.
  injection Heq as E1 E2 E3.
  destruct (observed_sign_dichotomy gamma1 gamma2 (1 - kappa) g1' g2' (1 - k'))
    as [(-> & -> & Hu)|(-> & -> & Hu)]; try lra; try done.
  - assert (k' = kappa) as -> by lra. split; [by left|done].
  - assert (k' = 2 - kappa) as -> by lra. split; [by right|].
    intros Hpos. exfalso. nra.
Qed.

Open Scope nat_scope.

(** ** Subsampling *)

Lemma stride_count f n :
  0 < f → Nat.modulo n f = 0 → (n + f - 1) / f = n / f.
Proof.
  intros Hf Hm. symmetry. apply (Nat.div_unique _ _ _ (f - 1)); [lia|].
  pose proof (Nat.div_mod_eq n f). lia.
Qed.

Lemma getslice_strided f n (a : arr2 R) :
  1 < f → 0 < n → Nat.modulo n f = 0 → shape a n n →
  strided f n a
    (getslice a (Slice None None (Some (Z.of_nat f)))
       (Slice None None (Some (Z.of_nat f)))).
Proof.
  intros Hf Hn Hm Ha. unfold getslice.
  rewrite (nrows_shape _ _ _ Ha), (ncols_shape _ _ _ Ha) by done.
  rewrite slice_list_stride, stride_count by lia.
  assert (Hq : n = f * (n / f)).
  { pose proof (Nat.div_mod_eq n f). lia. }
  assert (Hb : Forall (λ i, i < n) ((λ t, t * f) <$> seq 0 (n / f))).
  { apply Forall_fmap, Forall_forall. intros t Ht%elem_of_seq. simpl. nia. }
  split.
  - pose proof (shape_sub_block a n n _ _ Ha Hb Hb) as Hs.
    by rewrite length_fmap, length_seq in Hs.
  - intros i j Hi Hj.
    rewrite (lookup2_sub_block a n n) by done.
    rewrite !list_lookup_fmap, !lookup_seq_lt by done. simpl.
    f_equal; lia.
Qed.


Open Scope R_scope.

(** ** The constructor, calculateXi and the queries *)

Section PowerSpectrumProperties.
Context `{Numpy} `{Galsim}.

Lemma read_name_origpf : read_name "origpf" = Raise NameError.
Proof. reflexivity. Qed.

Lemma convert_bad_string s :
  bad_power_string s →
  _convert_power_function (Some (PFString s)) = Raise NameError.
Proof.
  intros [Hf Hbad]. unfold _convert_power_function. rewrite Hf.
  destruct Hbad as [[e He]|(f & e & Hf1 & He)].
  - rewrite He. reflexivity.
  - rewrite Hf1. rsimpl. rewrite He. reflexivity.
Qed.

(** C10. A string power function that is not a file name and whose
    evaluation to a lambda, or whose trial call at [k = 1.0], raises makes
    [_convert_power_function], and so the constructor, raise [NameError]
    (the message of the intended [ValueError] reads the unbound name
    [origpf]). *)
Theorem bad_string_raises_NameError (s : string) :
  bad_power_string s →
  _convert_power_function (Some (PFString s)) = Raise NameError ∧
  (∀ b delta2 units,
     PowerSpectrum_init (Some (PFString s)) b delta2 units = Raise NameError) ∧
  (∀ e r delta2 units,
     _convert_power_function e = Ok r →
     PowerSpectrum_init e (Some (PFString s)) delta2 units = Raise NameError).
Proof.
  intros Hbad. pose proof (convert_bad_string s Hbad) as Hc.
  split; [done|]. split.
  - intros b d u. unfold PowerSpectrum_init. by rewrite Hc.
  - intros e r d u He. unfold PowerSpectrum_init. rewrite He, Hc.
    by destruct e.
Qed.

(** *** calculateXi *)

Lemma py_truediv_nonzero a b : b ≠ 0 → py_truediv a b = Ok (a / b).
Proof.
  intros Hb. unfold py_truediv, Reqb. by destruct (Req_dec_T b 0).
Qed.


Lemma convert_None : _convert_power_function None = Ok None.
Proof. reflexivity. Qed.


Lemma rmapM_const {A B} (f : A → result B) (y : B) (l : list A) :
  (∀ x, f x = Ok y) → rmapM f l = Ok (replicate (length l) y).
Proof.
  intros Hf. induction l as [|x l IH]; [done|].
  simpl. rewrite Hf, IH. reflexivity.
Qed.

Lemma map_replicate {A B} (f : A → B) n x :
  map f (replicate n x) = replicate n (f x).
Proof. induction n; simpl; congruence. Qed.

Lemma wrap_power_zero self bl k_max f g :
  (∀ k, pf_call f k = Ok 0) →
  wrap_power self bl k_max (Some f) = Some g →
  ∀ k, pf_call g k = Ok 0.
Proof.
  intros Hf [= <-] k. cbn [pf_call pf_lambda].
  rewrite !Hf. rsimpl.
  destruct (delta2 self); [|destruct (negb _)]; f_equal;
    unfold Rdiv; ring.
Qed.

Lemma length_np_logspace a b n : length (np_logspace a b n) = n.
Proof. unfold np_logspace. by rewrite length_fmap, length_seq. Qed.

(** C9. If the E-mode power function returns 0 for every [k] and there is
    no B-mode function, calculateXi returns [xi_plus] and [xi_minus] arrays
    of [n_theta] zeros, whatever the grid configuration it accepts. *)
Theorem calculateXi_zero_power (self : PowerSpectrum) (f : power_fn)
    (grid_spacing : R) (ngrid kmax_factor kmin_factor n_theta : Z)
    (units : units_arg) (u : R) (bandlimit : bandlimit_arg) :
  int1d_of_zero →
  e_power_function self = Some (PFCallable f) →
  b_power_function self = None →
  (∀ k, pf_call f k = Ok 0) →
  resolve_units units = Ok u →
  (0 ≤ n_theta)%Z →
  bandlimit ≠ BandOther →
  let scale_fac := if negb (Reqb u 1) then 1 * u / 1 else 1 in
  let spacing :=
    if negb (Reqb u 1) then grid_spacing * scale_fac else grid_spacing in
  spacing ≠ 0 →
  IZR ngrid * spacing * IZR kmin_factor ≠ 0 →
  (∀ ngrid' kmax' kmin' n_theta' r,
     calculateXi self grid_spacing ngrid' kmax' kmin' n_theta' units bandlimit
     = Ok r →
     ∃ m, r.1.2 = replicate m 0 ∧ r.2 = replicate m 0 ∧ length r.1.1 = m) ∧
  ∃ theta,
    calculateXi self grid_spacing (PyInt ngrid) (PyInt kmax_factor)
      (PyInt kmin_factor) (PyInt n_theta) units bandlimit
    = Ok (theta, replicate (Z.to_nat n_theta) 0,
          replicate (Z.to_nat n_theta) 0) ∧
    length theta = Z.to_nat n_theta.
Proof.
  intros Hint He Hb Hf Hu Hn Hbl scale_fac spacing Hsp Hkmin.
  assert (Hconv : _convert_power_function (e_power_function self) = Ok (Some f)).
  { rewrite He. unfold _convert_power_function. rsimpl.
    destruct (pf_table f); [done|].
    unfold call_arr1. cbn [rmapM]. rewrite !Hf. reflexivity. }
  assert (Hxi : ∀ bl k_max k_min (theta : list R),
    rmapM (λ th,
       match wrap_power self bl k_max (Some f),
             wrap_power self bl k_max None with
       | Some _, Some _ => Raise TypeError
       | Some p_E, None =>
           xp ← int1d (xip_integrand p_E th) k_min k_max (1 / 10 ^ 6) (1 / 10 ^ 12);
           xm ← int1d (xim_integrand p_E th) k_min k_max (1 / 10 ^ 6) (1 / 10 ^ 12);
           Ok (xp, xm)
       | None, _ => Raise TypeError
       end) theta = Ok (replicate (length theta) (0, 0))).
  { intros bl k_max k_min theta. apply rmapM_const. intros th.
    cbn [wrap_power].
    set (g := pf_lambda _).
    assert (Hg : ∀ k, pf_call g k = Ok 0)
      by (by apply (wrap_power_zero self bl k_max f g)).
    rewrite !Hint; [done| |].
    - intros k. unfold xip_integrand. rewrite Hg. rsimpl. f_equal. ring.
    - intros k. unfold xim_integrand. rewrite Hg. rsimpl. f_equal. ring. }
  split.
  - intros ngrid' kmax' kmin' n_theta' r. unfold calculateXi.
    destruct (check_int ngrid') as [ng|]; rsimpl; [|done].
    destruct (check_int kmin') as [kmn|]; rsimpl; [|done].
    destruct (check_int kmax') as [kmx|]; rsimpl; [|done].
    destruct (check_int n_theta') as [nth|]; rsimpl; [|done].
    rewrite Hu. rsimpl.
    destruct (if (_ <? 0)%Z then _ else _) as [theta|]; rsimpl; [|done].
    rewrite Hconv, Hb, convert_None. rsimpl.
    destruct (py_truediv (IZR kmx * PI) _); rsimpl; [|done].
    destruct (bandlimit_func bandlimit) as [bl|]; rsimpl; [|done].
    destruct (py_truediv (2 * PI) _); rsimpl; [|done].
    rewrite Hxi. rsimpl. intros [= <-]. cbn [fst snd].
    exists (length theta). rewrite !map_replicate, length_map. cbn [fst snd].
    unfold Rdiv. rewrite Rmult_0_l. done.
  - unfold calculateXi. cbn [check_int]. rsimpl. rewrite Hu. rsimpl.
    destruct (Z.ltb_spec n_theta 0); [lia|]. rsimpl.
    rewrite Hconv, Hb, convert_None. rsimpl.
    fold scale_fac. fold spacing.
    rewrite !py_truediv_nonzero by done. rsimpl.
    destruct bandlimit; [| | |done]; cbn [bandlimit_func]; rsimpl;
      rewrite Hxi; rsimpl;
      (eexists; split; [|by rewrite length_map, length_np_logspace]);
      rewrite !map_replicate, length_np_logspace; cbn [fst snd];
      unfold Rdiv; rewrite Rmult_0_l; reflexivity.
Qed.
Lemma query_loop_nonperiodic {A} (g : Geometry) (outside : A)
    (inside : R * R → A) (pos : list (R * R)) :
  query_loop g false outside inside pos
  = (Ok (query_value g outside inside <$> pos),
     OutsideBounds <$>
       filter (λ p, bounds_includes (bounds g) p = false) pos).
Proof.
  induction pos as [|p pos IH]; [done|].
  cbn [query_loop]. rewrite IH, fmap_cons, filter_cons.
  destruct (bounds_includes (bounds g) p) eqn:E; cbn [negb]; rsimpl.
  - rewrite decide_False by done. unfold query_value at 2. by rewrite E.
  - rewrite decide_True by done. unfold query_value at 2. by rewrite E.
Qed.

Lemma outside_warned (g : Geometry) (pos : list (R * R)) idx p :
  pos !! idx = Some p → bounds_includes (bounds g) p = false →
  OutsideBounds p
  ∈ OutsideBounds <$> filter (λ p, bounds_includes (bounds g) p = false) pos.
Proof.
  intros Hp Hout. apply list_elem_of_fmap_2, list_elem_of_filter.
  split; [done|]. by eapply list_elem_of_lookup_2.
Qed.
(** C7. After a build, with [periodic=False], a position outside the
    stored bounds gets shear [(0, 0)] from getShear, convergence [0] from
    getConvergence and magnification [1] from getMagnification; a warning
    is issued for it and no exception is raised; the positions of the same
    query that are inside the bounds are interpolated as usual. *)
Theorem out_of_bounds_fallback (self : PowerSpectrum)
    (im_g1 im_g2 im_kappa : arr2 R) (g : Geometry) (i : Interpolant)
    (pos : list (R * R)) (reduced : bool) (interp : option Interpolant)
    (idx : nat) (p : R * R) :
  built self = Ok (im_g1, im_g2, im_kappa, g, i) →
  np_shape (LArray im_g1) = np_shape (LArray im_g2) →
  np_shape (LArray im_kappa) = np_shape (LArray im_g1) →
  pos !! idx = Some p →
  bounds_includes (bounds g) p = false →
  ∃ shear kappa mu ws wk wm,
    getShear self pos reduced false interp = (Ok shear, ws) ∧
    getConvergence self pos false interp = (Ok kappa, wk) ∧
    getMagnification self pos false interp = (Ok mu, wm) ∧
    shear !! idx = Some (0, 0) ∧ kappa !! idx = Some 0 ∧ mu !! idx = Some 1 ∧
    OutsideBounds p ∈ ws ∧ OutsideBounds p ∈ wk ∧ OutsideBounds p ∈ wm ∧
    ∀ idx' q,
      pos !! idx' = Some q → bounds_includes (bounds g) q = true →
      let c := pos_div (pos_sub q (center g)) (grid_spacing g) in
      let xinterp := default i interp in
      let a1 := if reduced then zip2 reduced_shear im_g1 im_kappa else im_g1 in
      let a2 := if reduced then zip2 reduced_shear im_g2 im_kappa else im_g2 in
      let im_mu := amap (λ m, m - 1)
                     (zip2 (λ g k, g k) (zip2 magnification im_g1 im_g2)
                        im_kappa) in
      shear !! idx' = Some (xValue a1 xinterp Quintic c,
                            xValue a2 xinterp Quintic c) ∧
      kappa !! idx' = Some (xValue im_kappa xinterp Quintic c) ∧
      mu !! idx' = Some (xValue im_mu xinterp Quintic c + 1).
Proof.
  intros Hb Hs1 Hs2 Hp Hout.
  pose proof (theoryToObserved_array im_g1 im_g2 im_kappa Hs1 Hs2) as Htto.
  destruct reduced; do 6 eexists.
  all: split;
    [unfold getShear; rewrite Hb; rsimpl; rewrite ?Htto; rsimpl;
     cbn [interp_image fst snd np_array]; rsimpl;
     apply query_loop_nonperiodic|].
  all: split;
    [unfold getConvergence; rewrite Hb; rsimpl; cbn [interp_image];
     rsimpl; apply query_loop_nonperiodic|].
  all: split;
    [unfold getMagnification; rewrite Hb; rsimpl; rewrite Htto; rsimpl;
     cbn [interp_image fst snd np_array]; rsimpl;
     apply query_loop_nonperiodic|].
  all: rewrite !list_lookup_fmap, Hp; unfold query_value;
    cbn [fmap option_fmap option_map]; rewrite Hout;
    do 3 (split; [done|]); do 3 (split; [by eapply outside_warned|]);
    intros idx' q Hq Hin; cbv zeta;
    rewrite !list_lookup_fmap, Hq; cbn [fmap option_fmap option_map];
    by rewrite Hin.
Qed.

Open Scope nat_scope.

(** C1 (the code departs from it).  After a build, subsampleGrid with a
    factor [f > 1] dividing the side [N] stores images that are the
    original ones at stride [f], of side [N / f]; but the arrays it returns
    are the grids of the build, of side [N], not the subsampled ones. *)
Theorem subsampleGrid_returns_unsampled_grids (self : PowerSpectrum)
    (g1 g2 kappa : arr2 R) (geom : Geometry) (f N : nat)
    (get_convergence : bool) :
  images self = Some (g1, g2, kappa) →
  grids self = Some (g1, g2, kappa) →
  geometry self = Some geom →
  shape g1 N N → shape g2 N N → shape kappa N N →
  1 < f → 0 < N → Nat.modulo N f = 0 →
  ∃ self' s1 s2 sk,
    subsampleGrid self (PyInt (Z.of_nat f)) get_convergence
    = (Ok (g1, g2, if get_convergence then Some kappa else None), self') ∧
    images self' = Some (s1, s2, sk) ∧
    strided f N g1 s1 ∧ strided f N g2 s2 ∧ strided f N kappa sk ∧
    nrows s1 = N / f ∧ nrows g1 = N ∧ N / f < N.
Proof.
  intros Him Hgr Hge H1 H2 Hk Hf HN Hm.
  unfold subsampleGrid. rewrite Him.
  destruct (Z.eqb_spec (Z.of_nat f) 0); [lia|].
  rewrite (nrows_shape _ _ _ H1).
  assert (Hmod : (Z.of_nat N `mod` Z.of_nat f)%Z = 0%Z).
  { rewrite <- Nat2Z.inj_mod, Hm. done. }
  rewrite Hmod. cbn [Z.eqb negb orb].
  destruct (Z.leb_spec (Z.of_nat f) 1); [lia|].
  cbn [geometry grids with_images]. rewrite Hge, Hgr.
  do 4 eexists. split; [reflexivity|]. split; [reflexivity|].
  pose proof (getslice_strided f N g1 Hf HN Hm H1) as S1.
  split; [done|]. split; [by apply getslice_strided|].
  split; [by apply getslice_strided|].
  split; [by destruct S1 as [[? _] _]|]. split; [by destruct H1|].
  apply Nat.div_lt; lia.
Qed.
End PowerSpectrumProperties.

(** ** Builds that succeed *)

Open Scope nat_scope.

Lemma sampled_k_Ok n p self0 :
  set_size n p = Ok self0 → 2 ≤ n →
  ∃ kk, sampled_k self0 = Ok kk ∧ shape kk (n / 2 + 1) (n / 2 + 1).
Proof.
  intros Hs Hn. unfold sampled_k.
  pose proof (set_size_sized _ _ _ Hs) as (_ & _ & -> & _ & _ & -> & _).
  destruct (shape_kx _ _ _ Hs) as [Hkx Hky].
  set (k0 := zip2 _ _ _).
  assert (Hk0 : shape k0 (n / 2 + 1) (n / 2 + 1)).
  { unfold k0, getslice.
    rewrite (nrows_shape _ _ _ Hkx), (ncols_shape _ _ _ Hkx) by lia.
    rewrite (nrows_shape _ _ _ Hky), (ncols_shape _ _ _ Hky) by lia.
    assert (Hl : length (slice_list (sl_h n) n) = n / 2 + 1).
    { rewrite sl_h_list, length_seq. lia. }
    apply shape_zip2.
    - rewrite <- Hl at 1 2. apply (shape_sub_block _ n n); auto using sl_h_bound.
    - rewrite <- Hl at 1 2. apply (shape_sub_block _ n n); auto using sl_h_bound. }
  destruct (lookup2_Some k0 _ _ 1 0 Hk0) as [k10 H10]; [lia..|].
  destruct (lookup2_Some k0 _ _ 0 0 Hk0) as [k00 H00]; [lia..|].
  unfold getitem. rewrite H10. rsimpl. unfold setitem. rewrite H00.
  eexists. split; [done|]. by apply shape_assign_block.
Qed.

Lemma any_negative_false (a : arr2 R) :
  (∀ i j v, lookup2 a i j = Some v → (0 <= v)%R) → any_negative a = false.
Proof.
  intros Ha. unfold any_negative.
  apply not_true_is_false. intros Hex.
  apply existsb_exists in Hex as (row & Hrow & Hex).
  apply existsb_exists in Hex as (v & Hv & Hneg).
  apply list_elem_of_In, list_elem_of_lookup in Hrow as [i Hi].
  apply list_elem_of_In, list_elem_of_lookup in Hv as [j Hj].
  assert (0 <= v)%R by (apply (Ha i j); unfold lookup2; by rewrite Hi).
  unfold Rltb in Hneg. destruct (Rlt_dec v 0); [lra|done].
Qed.

Lemma rmapM_total {A B} (f : A → result B) (g : A → B) (l : list A) :
  (∀ x, f x = Ok (g x)) → rmapM f l = Ok (g <$> l).
Proof.
  intros Hf. induction l as [|x l IH]; [done|].
  cbn [rmapM]. rewrite Hf, IH. reflexivity.
Qed.

Lemma call_arr2_constant pf c (kk : arr2 R) :
  (∀ k, pf_call pf k = Ok c) → call_arr2 pf kk = Ok (amap (λ _, c) kk).
Proof.
  intros Hc. unfold call_arr2, amap.
  apply (rmapM_total _ (map (λ _, c))). intros row.
  by apply (rmapM_total _ (λ _, c)).
Qed.

(** A constant, non-negative power is accepted on every grid of side at
    least 2. *)
Lemma generate_power_array_constant n p self0 junk pf c :
  set_size n p = Ok self0 → 2 ≤ n →
  pf_table pf = None → (∀ k, pf_call pf k = Ok c) → (0 <= c)%R →
  ∃ arr, _generate_power_array self0 junk pf = Ok arr.
Proof.
  intros Hs Hn Ht Hc Hpos.
  destruct (sampled_k_Ok _ _ _ Hs Hn) as (kk & Hk & Hsh).
  unfold _generate_power_array. rewrite Hk, Ht. rsimpl.
  rewrite (call_arr2_constant pf c kk Hc). rsimpl.
  assert (HP : shape (amap (λ _ : R, c) kk) (n / 2 + 1) (n / 2 + 1))
    by (by apply shape_amap).
  destruct (lookup2_Some _ _ _ 0 1 HP) as [v01 H01]; [lia..|].
  destruct (lookup2_Some _ _ _ 0 0 HP) as [v00 H00]; [lia..|].
  unfold getitem, setitem. rewrite H01, H00. rsimpl.
  rewrite any_negative_false; [by eexists|].
  intros i j v. rewrite lookup2_setitem, lookup2_amap.
  destruct ((0 =? i) && (0 =? j)), (lookup2 kk i j);
    cbn [fmap option_fmap option_map]; intros [= <-]; lra.
Qed.

Lemma set_size_Ok n p : 0 < n → ∃ self0, set_size n p = Ok self0.
Proof.
  intros Hn. unfold set_size, kxky.
  destruct n as [|n]; [lia|]. cbn [Nat.eqb orb]. rsimpl.
  unfold _generate_exp2ipsi.
  match goal with
  | |- context [setitem ?a 0 0 ?v] =>
      assert (Hsh : shape a (S n) (S n)); [|
        destruct (lookup2_Some a _ _ 0 0 Hsh) as [w Hw]; [lia..|];
        unfold setitem; rewrite Hw ]
  end.
  - apply shape_amap, shape_zip2; apply shape_amap.
    + apply (shape_grid (λ _ j, (2 * PI * fftfreq (S n) j)%R)).
    + apply (shape_grid (λ i _, (2 * PI * fftfreq (S n) i)%R)).
  - rsimpl. by eexists.
Qed.


Section BuildSucceeds.
Context `{Numpy} `{Galsim}.

Lemma init_constant_power n p pf c :
  2 ≤ n → pf_table pf = None → (∀ k, pf_call pf k = Ok c) → (0 <= c)%R →
  ∃ psr, PowerSpectrumRealizer_init n p (Some pf) None = Ok psr.
Proof.
  intros Hn Ht Hc Hpos. unfold PowerSpectrumRealizer_init.
  destruct (set_size n p) as [self0|] eqn:Hs.
  - rsimpl. unfold set_power.
    destruct (generate_power_array_constant n p self0 junkR pf c)
      as [arr ->]; try done.
    rsimpl. by eexists.
  - destruct (set_size_Ok n p) as [? Hs']; [lia|]. by rewrite Hs in Hs'.
Qed.

Lemma buildGrid_succeeds self a rng
    grid_spacing ngrid kmin_factor kmax_factor center0 stored pE pB psr :
  buildGrid_inputs a
    = Ok (grid_spacing, ngrid, kmin_factor, kmax_factor, center0) →
  py_floordiv grid_spacing (IZR kmax_factor) = Ok stored →
  buildGrid_power self stored (bg_bandlimit a) = Ok (pE, pB) →
  (0 ≤ ngrid * kmin_factor * kmax_factor)%Z →
  PowerSpectrumRealizer_init
    (Z.to_nat (ngrid * kmin_factor * kmax_factor))
    (grid_spacing / IZR kmax_factor)%R pE pB = Ok psr →
  ∃ out self' rng', buildGrid self a rng = (Ok out, self', rng').
Proof.
  intros Hi Hf Hp Hn Hr. unfold buildGrid.
  rewrite Hi. rsimpl. rewrite Hf. rsimpl.
  rewrite buildGrid_power_with, Hp.
  destruct (Z.ltb_spec (ngrid * kmin_factor * kmax_factor) 0); [lia|].
  rewrite Hr.
  destruct (PowerSpectrumRealizer_call psr rng) as [[[g1 g2] kappa] gd].
  destruct (negb (kmin_factor =? 1)%Z || negb (kmax_factor =? 1)%Z);
    by do 3 eexists.
Qed.
End BuildSucceeds.

Open Scope R_scope.

Lemma Reqb_refl x : Reqb x x = true.
Proof. unfold Reqb. by destruct (Req_dec_T x x). Qed.
Lemma Reqb_false x y : x ≠ y → Reqb x y = false.
Proof. intros. unfold Reqb. by destruct (Req_dec_T x y). Qed.
Lemma Rltb_false x y : y <= x → Rltb x y = false.
Proof. intros. unfold Rltb. destruct (Rlt_dec x y); [lra|done]. Qed.
Lemma Rltb_true x y : x < y → Rltb x y = true.
Proof. intros. unfold Rltb. by destruct (Rlt_dec x y). Qed.
Lemma Rleb_true x y : x <= y → Rleb x y = true.
Proof. intros. unfold Rleb. by destruct (Rle_dec x y). Qed.
Lemma Rleb_false x y : y < x → Rleb x y = false.
Proof. intros. unfold Rleb. destruct (Rle_dec x y); [lra|done]. Qed.


Section ExampleProperties.
#[local] Existing Instance numpy_example.
#[local] Existing Instance galsim_example.

Lemma inputs_example :
  buildGrid_inputs args_example = Ok (3, 1%Z, 1%Z, 2%Z, (0, 0)).
Proof.
  unfold buildGrid_inputs, args_example. cbn. by rewrite Reqb_refl.
Qed.

Lemma floordiv_example : py_floordiv 3 (IZR 2) = Ok 1.
Proof.
  unfold py_floordiv. rewrite Reqb_false by lra. do 2 f_equal.
  symmetry. apply Int_part_spec. split; lra.
Qed.

Lemma wrapped_example c bl k_max k :
  (p ← wrap_power (ps_example c) bl k_max (Some (constant_power c));
   Some (pf_call p k)) = Some (Ok (c * bl k k_max)).
Proof. cbn. by rewrite Reqb_refl. Qed.

Lemma power_example c :
  buildGrid_power (ps_example c) 1 BandNone
  = Ok (wrap_power (ps_example c) (λ _ _, 1) (PI / 1)
          (Some (constant_power c)), None).
Proof.
  unfold buildGrid_power. cbn [ps_example e_power_function b_power_function].
  cbn [_convert_power_function constant_power pf_lambda pf_table call_arr1
       rmapM pf_call]. rsimpl.
  unfold py_truediv. rewrite Reqb_false by lra. reflexivity.
Qed.
End ExampleProperties.

Open Scope R_scope.

(** ** The stored grid spacing *)

Section StoredSpacing.
Context `{Numpy} `{Galsim}.

(** C2 (the code departs from it).  After a successful buildGrid with
    input spacing [s] (in arcsec) and [kmax_factor = m], the stored grid
    spacing is the floor of [s / m], while the pixel size recorded next to
    [ngrid_tot] is [s / m]. *)
Theorem buildGrid_stores_floor_spacing (self : PowerSpectrum)
    (a : buildGrid_args) (rng : GaussianDeviate) out self' rng'
    grid_spacing ngrid kmin_factor kmax_factor center0 :
  buildGrid self a rng = (Ok out, self', rng') →
  buildGrid_inputs a
    = Ok (grid_spacing, ngrid, kmin_factor, kmax_factor, center0) →
  (∃ c adj b,
     geometry self'
     = Some (Geom (IZR (Int_part (grid_spacing / IZR kmax_factor))) c adj b)) ∧
  ngrid_tot self'
  = Some ((ngrid * kmin_factor * kmax_factor)%Z,
          grid_spacing / IZR kmax_factor).
Proof.
  intros Hb Hin.
  apply buildGrid_Ok in Hb
    as (gs & ng & kmin & kmax & c0 & stored & pE & pB & psr
        & Hin' & Hf & _ & _ & _ & _ & _ & _ & Hnt & (c & adj & b & Hg) & _).
  rewrite Hin in Hin'. simplify_eq. split; [|done].
  unfold py_floordiv in Hf. destruct (Reqb (IZR kmax) 0); [done|].
  simplify_eq. eauto.
Qed.
End StoredSpacing.

(** ** A concrete build *)

Section ExampleBuild.
#[local] Existing Instance numpy_example.
#[local] Existing Instance galsim_example.

Lemma wrapped_constant c bl k_max :
  ∃ p, wrap_power (ps_example c) bl k_max (Some (constant_power c)) = Some p ∧
       pf_table p = None ∧ ∀ k, pf_call p k = Ok (c * bl k k_max).
Proof.
  eexists. split; [reflexivity|]. split; [reflexivity|].
  intros k. cbn. by rewrite Reqb_refl.
Qed.

(** The example build succeeds for every non-negative constant power. *)
Lemma buildGrid_example c :
  0 <= c →
  ∃ out self' rng',
    buildGrid (ps_example c) args_example rng_example = (Ok out, self', rng').
Proof.
  intros Hc.
  destruct (wrapped_constant c (λ _ _, 1) (PI / 1)) as (p & Hp & Ht & Hcall).
  destruct (init_constant_power 2 (3 / IZR 2) p (c * 1)) as [psr Hpsr];
    [lia|done|done|lra|].
  eapply (buildGrid_succeeds _ _ _ 3 1%Z 1%Z 2%Z (0, 0) 1 (Some p) None psr).
  - apply inputs_example.
  - apply floordiv_example.
  - cbn [bg_bandlimit args_example]. by rewrite power_example, Hp.
  - lia.
  - exact Hpsr.
Qed.
End ExampleBuild.

(** ** A negative power behind the hard band limit *)

Lemma call_arr2_total pf (g : R → R) (kk : arr2 R) :
  (∀ k, pf_call pf k = Ok (g k)) → call_arr2 pf kk = Ok (amap g kk).
Proof.
  intros Hc. unfold call_arr2, amap.
  apply (rmapM_total _ (map g)). intros row.
  by apply (rmapM_total _ g).
Qed.

(** A power function without negative values on the sampled grid is
    accepted, on every grid of side at least 2. *)
Lemma generate_power_array_nonneg n p self0 junk pf (g : R → R) :
  set_size n p = Ok self0 → (2 ≤ n)%nat →
  pf_table pf = None → (∀ k, pf_call pf k = Ok (g k)) →
  (∀ kk i j k, sampled_k self0 = Ok kk → lookup2 kk i j = Some k →
               0 <= g k) →
  ∃ arr, _generate_power_array self0 junk pf = Ok arr.
Proof.
  intros Hs Hn Ht Hc Hpos.
  destruct (sampled_k_Ok _ _ _ Hs Hn) as (kk & Hk & Hsh).
  unfold _generate_power_array. rewrite Hk, Ht. rsimpl.
  rewrite (call_arr2_total pf g kk Hc). rsimpl.
  assert (HP : shape (amap g kk) (n / 2 + 1) (n / 2 + 1))
    by (by apply shape_amap).
  destruct (lookup2_Some _ _ _ 0 1 HP) as [v01 H01]; [lia..|].
  destruct (lookup2_Some _ _ _ 0 0 HP) as [v00 H00]; [lia..|].
  unfold getitem, setitem. rewrite H01, H00. rsimpl.
  rewrite any_negative_false; [by eexists|].
  intros i j v. rewrite lookup2_setitem, lookup2_amap.
  destruct (lookup2 kk i j) as [k|] eqn:El;
    destruct ((0 =? i)%nat && (0 =? j)%nat);
    cbn [fmap option_fmap option_map]; intros [= <-];
    [lra|by eapply Hpos].
Qed.

(** On the grid of side 2 every sampled [|k|] is at least [pi / p]. *)
Lemma kval_side_2 i j :
  (i ≤ 1)%nat → (j ≤ 1)%nat → (i, j) ≠ (0, 0)%nat →
  PI <= kval 2 (1 / IZR 1) i j.
Proof.
  intros Hi Hj Hij. pose proof PI_RGT_0.
  unfold kval. rewrite <- (sqrt_pow2 PI) at 1 by lra.
  apply sqrt_le_1_alt.
  destruct i as [|[|i]], j as [|[|j]]; try lia; try done;
    unfold fftfreq; cbn [Nat.ltb Nat.leb Nat.add Nat.div Nat.divmod fst INR];
    nra.
Qed.

Section HardBandLimit.
#[local] Existing Instance numpy_example.
#[local] Existing Instance galsim_example.

Lemma inputs_hard ngrid :
  buildGrid_inputs (args_hard ngrid) = Ok (1, ngrid, 1%Z, 1%Z, (0, 0)).
Proof.
  unfold buildGrid_inputs, args_hard. cbn. by rewrite Reqb_refl.
Qed.

Lemma floordiv_hard : py_floordiv 1 (IZR 1) = Ok 1.
Proof.
  unfold py_floordiv. rewrite Reqb_false by lra. do 2 f_equal.
  symmetry. apply Int_part_spec. split; lra.
Qed.

Lemma power_hard c :
  buildGrid_power (ps_example c) 1 BandHard
  = Ok (wrap_power (ps_example c) _hard_cutoff (PI / 1)
          (Some (constant_power c)), None).
Proof.
  unfold buildGrid_power. cbn [ps_example e_power_function b_power_function].
  cbn [_convert_power_function constant_power pf_lambda pf_table call_arr1
       rmapM pf_call]. rsimpl.
  unfold py_truediv. rewrite Reqb_false by lra. reflexivity.
Qed.

(** C4, as stated, fails: with the default band limit the power function
    [P(k) = -1] is negative at every sampled [|k|], and
    [buildGrid(grid_spacing=1., ngrid=2)] returns all the same. *)
Lemma hard_bandlimit_hides_negative_power :
  ∃ psr0 kk out self' rng',
    _convert_power_function (e_power_function (ps_example (-1)))
    = Ok (Some (constant_power (-1))) ∧
    set_size 2 (1 / IZR 1) = Ok psr0 ∧ sampled_k psr0 = Ok kk ∧
    (∀ i j k, lookup2 kk i j = Some k →
              pf_call (constant_power (-1)) k = Ok (-1)) ∧
    negative_on_grid psr0 (constant_power (-1)) ∧
    buildGrid (ps_example (-1)) (args_hard 2) rng_example
    = (Ok out, self', rng').
Proof.
  destruct (set_size_Ok 2 (1 / IZR 1)) as [psr0 Hs]; [lia|].
  destruct (sampled_k_Ok _ _ _ Hs) as (kk & Hk & Hsh); [lia|].
  destruct (lookup2_Some kk _ _ 1 0 Hsh) as [k10 Hl];
    [change (2 / 2 + 1)%nat with 2%nat; lia..|].
  destruct (wrapped_constant (-1) _hard_cutoff (PI / 1))
    as (p & Hp & Ht & Hcall).
  assert (Hinit : ∃ psr, PowerSpectrumRealizer_init 2 (1 / IZR 1) (Some p) None
                         = Ok psr).
  { unfold PowerSpectrumRealizer_init, set_power. rewrite Hs. rsimpl.
    destruct (generate_power_array_nonneg 2 (1 / IZR 1) psr0 junkR p
                (λ k, -1 * _hard_cutoff k (PI / 1))) as [arr ->];
      [done|lia|done|done| |rsimpl; by eexists].
    intros kk' i j k Hk' Hl'.
    destruct (sampled_k_cell _ _ _ _ _ _ _ Hs Hk' Hl') as (Hi & Hj & ->).
    change (2 / 2)%nat with 1%nat in Hi, Hj.
    unfold _hard_cutoff. rewrite Rltb_false; [lra|].
    replace (PI / 1) with PI by lra.
    destruct ((0 =? i)%nat && (0 =? j)%nat) eqn:E.
    - apply kval_side_2; [lia|lia|done].
    - apply kval_side_2; [done|done|].
      intros [= -> ->]. done. }
  destruct Hinit as [psr Hpsr].
  destruct (buildGrid_succeeds (ps_example (-1)) (args_hard 2) rng_example
              1 2%Z 1%Z 1%Z (0, 0) 1 (Some p) None psr)
    as (out & self' & rng' & Hb).
  - apply inputs_hard.
  - apply floordiv_hard.
  - cbn [bg_bandlimit args_hard]. by rewrite power_hard, Hp.
  - lia.
  - exact Hpsr.
  - exists psr0, kk, out, self', rng'.
    split; [reflexivity|]. split; [exact Hs|]. split; [exact Hk|].
    split; [done|]. split; [|exact Hb].
    exists kk, 1%nat, 0%nat, k10, (-1). repeat split; try done. lra.
Qed.
End HardBandLimit.

(** * Further properties of the module *)

(** ** theoryToObserved: accepted inputs *)

Open Scope R_scope.

(** X1. On numeric inputs (floats, flat lists or tuples of numbers, arrays,
    or numbers of another type such as [int]) theoryToObserved returns a
    result exactly when the three inputs are all floats, all lists, all
    tuples or all arrays, and have the same shape.  A mismatch of type or
    shape raises [ValueError]; so do three numbers of another type, on
    which the formulas can be evaluated; three floats are always
    accepted. *)
Theorem theoryToObserved_accepts_iff (gamma1 gamma2 kappa : lens_val) :
  (is_ok (theoryToObserved gamma1 gamma2 kappa) = true ↔
   same_type gamma1 gamma2 = true ∧ same_type kappa gamma1 = true ∧
   np_shape gamma1 = np_shape gamma2 ∧ np_shape kappa = np_shape gamma1 ∧
   is_other gamma1 = false) ∧
  (same_type gamma1 gamma2 = false ∨ same_type kappa gamma1 = false ∨
   np_shape gamma1 ≠ np_shape gamma2 ∨ np_shape kappa ≠ np_shape gamma1 →
   theoryToObserved gamma1 gamma2 kappa = Raise ValueError) ∧
  (∀ x y z : R,
     theoryToObserved (LOther x) (LOther y) (LOther z) = Raise ValueError) ∧
  (∀ x y z : R, is_ok (theoryToObserved (LFloat x) (LFloat y) (LFloat z)) = true).
Proof.
  split; [|split; [|split; intros; reflexivity]].
  - unfold theoryToObserved, shape_eqb.
    destruct (same_type gamma1 gamma2) eqn:E1; cbn [negb];
      [|split; [done|intros (? & ? & ? & ? & ?); congruence]].
    destruct (same_type kappa gamma1) eqn:E2; cbn [negb];
      [|split; [done|intros (? & ? & ? & ? & ?); congruence]].
    destruct (decide (np_shape gamma1 = np_shape gamma2)) as [S1|S1];
      [rewrite bool_decide_eq_true_2 by done
      |rewrite bool_decide_eq_false_2 by done]; cbn [negb];
      [|split; [done|intros (? & ? & ? & ? & ?); congruence]].
    destruct (decide (np_shape kappa = np_shape gamma1)) as [S2|S2];
      [rewrite bool_decide_eq_true_2 by done
      |rewrite bool_decide_eq_false_2 by done]; cbn [negb];
      [|split; [done|intros (? & ? & ? & ? & ?); congruence]].
    destruct gamma1; cbn [is_ok is_other];
      (split; [done|intros (? & ? & ? & ? & ?); congruence]).
  - unfold theoryToObserved, shape_eqb.
    destruct (same_type gamma1 gamma2) eqn:E1; cbn [negb]; [|done].
    destruct (same_type kappa gamma1) eqn:E2; cbn [negb]; [|done].
    destruct (decide (np_shape gamma1 = np_shape gamma2)) as [S1|S1];
      [rewrite bool_decide_eq_true_2 by done
      |rewrite bool_decide_eq_false_2 by done]; cbn [negb]; [|done].
    destruct (decide (np_shape kappa = np_shape gamma1)) as [S2|S2];
      [rewrite bool_decide_eq_true_2 by done
      |rewrite bool_decide_eq_false_2 by done]; cbn [negb]; [|done].
    intros [?|[?|[?|?]]]; done.
Qed.

Lemma flat_zip2 {A B D} (f : A → B → D) (a : list A) (b : list B) :
  default [] (zip2 f [a] [b] !! 0%nat) = zip_with f a b.
Proof. reflexivity. Qed.

(** X2. On three lists, or three tuples, of the same length
    theoryToObserved returns lists (tuples) of that length, whose [i]-th
    entries are [g1 = gamma1 / (1 - kappa)], [g2 = gamma2 / (1 - kappa)]
    and [mu = 1 / ((1 - kappa)^2 - gamma1^2 - gamma2^2)] of the [i]-th
    inputs. *)
Theorem theoryToObserved_sequences (gamma1 gamma2 kappa : list R) :
  length gamma1 = length gamma2 → length kappa = length gamma1 →
  let g1 := zip_with reduced_shear gamma1 kappa in
  let g2 := zip_with reduced_shear gamma2 kappa in
  let mu := zip_with (λ g k, g k) (zip_with magnification gamma1 gamma2) kappa in
  theoryToObserved (LList gamma1) (LList gamma2) (LList kappa)
  = Ok (LList g1, LList g2, LList mu) ∧
  theoryToObserved (LTuple gamma1) (LTuple gamma2) (LTuple kappa)
  = Ok (LTuple g1, LTuple g2, LTuple mu) ∧
  length g1 = length gamma1 ∧ length g2 = length gamma1 ∧
  length mu = length gamma1 ∧
  ∀ i a b k, gamma1 !! i = Some a → gamma2 !! i = Some b → kappa !! i = Some k →
    g1 !! i = Some (a / (1 - k)) ∧ g2 !! i = Some (b / (1 - k)) ∧
    mu !! i = Some (1 / ((1 - k) ^ 2 - (a ^ 2 + b ^ 2))).
Proof.
  intros H1 H2 g1 g2 mu.
  split; [|split].
  - unfold theoryToObserved, shape_eqb. cbn [same_type negb np_shape].
    rewrite !bool_decide_eq_true_2 by congruence. reflexivity.
  - unfold theoryToObserved, shape_eqb. cbn [same_type negb np_shape].
    rewrite !bool_decide_eq_true_2 by congruence. reflexivity.
  - unfold g1, g2, mu. rewrite !length_zip_with.
    split; [lia|]. split; [lia|]. split; [lia|].
    intros i a b k Ha Hb Hk.
    rewrite !lookup_zip_with, ?Ha, ?Hb, ?Hk. done.
Qed.

(** ** buildGrid: the arguments *)

Open Scope R_scope.

Lemma Int_part_IZR (z : Z) : Int_part (IZR z) = z.
Proof.
  symmetry. apply Int_part_spec. split; lra.
Qed.

Lemma py_int_IZR (z : Z) : py_int (IZR z) = z.
Proof.
  unfold py_int. destruct (Rle_dec 0 (IZR z)).
  - apply Int_part_IZR.
  - rewrite <- opp_IZR, Int_part_IZR. lia.
Qed.

Lemma check_int_integral (z : Z) : check_int (PyFloat (IZR z)) = Ok z.
Proof. unfold check_int. by rewrite py_int_IZR, Reqb_refl. Qed.

Lemma check_int_fractional (x : R) :
  x ≠ IZR (py_int x) → check_int (PyFloat x) = Raise ValueError.
Proof. intros Hx. unfold check_int. by rewrite Reqb_false. Qed.

Section BuildGridArguments.
Context `{Numpy} `{Galsim}.

(** X3. buildGrid raises [ValueError] when the spacing or the grid size is
    missing, and when [ngrid], [kmin_factor] or [kmax_factor] is a float
    that is not integral; it raises [TypeError] when these pass and the
    centre is neither a position nor a pair.  In all these cases the
    instance and the random deviate are left as they were. *)
Theorem buildGrid_rejects_bad_arguments (self : PowerSpectrum)
    (rng : GaussianDeviate) (i : option Interpolant) (c : center_arg)
    (u : units_arg) (gc : bool) (kmin kmax : py_num) (bl : bandlimit_arg) :
  (∀ spacing ngrid, spacing = None ∨ ngrid = None →
     buildGrid self (BuildGridArgs spacing ngrid i c u gc kmin kmax bl) rng
     = (Raise ValueError, self, rng)) ∧
  (∀ s n x, In (PyFloat x) [n; kmin; kmax] → x ≠ IZR (py_int x) →
     buildGrid self (BuildGridArgs (Some s) (Some n) i c u gc kmin kmax bl) rng
     = (Raise ValueError, self, rng)) ∧
  (∀ s n, is_ok (check_int n) = true → is_ok (check_int kmin) = true →
     is_ok (check_int kmax) = true → is_ok (parse_center c) = false →
     buildGrid self (BuildGridArgs (Some s) (Some n) i c u gc kmin kmax bl) rng
     = (Raise TypeError, self, rng)).
Proof.
  unfold buildGrid, buildGrid_inputs.
  cbn [bg_grid_spacing bg_ngrid bg_kmin_factor bg_kmax_factor bg_center
       bg_units].
  split; [|split].
  - intros spacing ngrid [->| ->]; [done|]. by destruct spacing.
  - intros s n x Hin Hx.
    pose proof (check_int_fractional x Hx) as Hbad.
    assert (Hall : ∀ v, (∃ z, check_int v = Ok z)
                        ∨ check_int v = Raise ValueError).
    { intros [z|y]; cbn; [eauto|]. destruct (Reqb _ _); eauto. }
    destruct (Hall n) as [[zn Hn]|Hn]; rewrite Hn; [|done].
    destruct (Hall kmin) as [[zmin Hmin]|Hmin]; rewrite Hmin; [|done].
    destruct (Hall kmax) as [[zmax Hmax]|Hmax]; rewrite Hmax; [|done].
    destruct Hin as [->|[->|[->|[]]]]; congruence.
  - intros s n Hn Hkmin Hkmax Hc.
    destruct (check_int n); [|done].
    destruct (check_int kmin); [|done].
    destruct (check_int kmax); [|done].
    cbn [mbind result_bind].
    destruct c as [| |[|?[|?[|]]]|]; try done.
Qed.

(** X4. Integral floats are accepted for [ngrid], [kmin_factor] and
    [kmax_factor]: the call behaves exactly as with the corresponding
    integers. *)
Theorem buildGrid_accepts_integral_floats (self : PowerSpectrum)
    (rng : GaussianDeviate) (spacing : option R) (ngrid kmin kmax : Z)
    (i : option Interpolant) (c : center_arg) (u : units_arg) (gc : bool)
    (bl : bandlimit_arg) :
  buildGrid self
    (BuildGridArgs spacing (Some (PyFloat (IZR ngrid))) i c u gc
       (PyFloat (IZR kmin)) (PyFloat (IZR kmax)) bl) rng
  = buildGrid self
      (BuildGridArgs spacing (Some (PyInt ngrid)) i c u gc
         (PyInt kmin) (PyInt kmax) bl) rng.
Proof.
  unfold buildGrid, buildGrid_inputs.
  cbn [bg_grid_spacing bg_ngrid bg_kmin_factor bg_kmax_factor bg_center
       bg_units bg_interpolant bg_bandlimit bg_get_convergence].
  rewrite !check_int_integral. reflexivity.
Qed.
End BuildGridArguments.

(** ** buildGrid: what is stored *)

Open Scope R_scope.

Lemma slice_list_kept (ngrid kmin kmax : Z) :
  (0 ≤ ngrid)%Z → (0 < kmin)%Z → (0 < kmax)%Z →
  slice_list (Slice (Some 0%Z) (Some (ngrid * kmax)%Z) (Some kmax))
    (Z.to_nat (ngrid * kmin * kmax))
  = (λ t, (t * Z.to_nat kmax)%nat) <$> seq 0 (Z.to_nat ngrid).
Proof.
  intros Hn Hmin Hmax.
  assert (H0 : (0 ≤ ngrid * kmax)%Z) by (apply Z.mul_nonneg_nonneg; lia).
  assert (H1 : (ngrid * kmax ≤ ngrid * kmin * kmax)%Z).
  { rewrite <- (Z.mul_1_r ngrid) at 1.
    apply Z.mul_le_mono_nonneg_r; [lia|].
    apply Z.mul_le_mono_nonneg_l; lia. }
  assert (H2 : (0 ≤ ngrid * kmin * kmax)%Z) by (etrans; done).
  unfold slice_list, py_range.
  cbn [sl_start sl_stop sl_step default from_option Datatypes.id].
  destruct (Z.ltb_spec kmax 0); [lia|].
  destruct (Z.ltb_spec 0 kmax); [|lia].
  destruct (Z.ltb_spec 0 0); [lia|].
  destruct (Z.ltb_spec (ngrid * kmax) 0); [lia|].
  rewrite Z2Nat.id by exact H2.
  rewrite (Z.min_l 0) by exact H2.
  rewrite (Z.min_l (ngrid * kmax)) by exact H1.
  destruct (Z.ltb_spec 0 (ngrid * kmax)).
  - assert (Hc : ((ngrid * kmax - 0 - 1) / kmax + 1 = ngrid)%Z).
    { replace (ngrid * kmax - 0 - 1)%Z with ((kmax - 1) + (ngrid - 1) * kmax)%Z
        by ring.
      rewrite Z.div_add by lia. rewrite Z.div_small by lia. lia. }
    rewrite Hc, <- list_fmap_compose.
    apply list_fmap_ext. intros i x Hx. apply lookup_seq in Hx.
    destruct Hx as [-> _]. cbn.
    rewrite Z.add_0_l, Z2Nat.inj_mul, Nat2Z.id by lia. reflexivity.
  - assert (ngrid = 0%Z) as ->.
    { destruct (Z.eq_dec ngrid 0%Z); [done|].
      assert (0 < ngrid * kmax)%Z by (apply Z.mul_pos_pos; lia). lia. }
    reflexivity.
Qed.

Section BuildGridState.
Context `{Numpy} `{Galsim}.

Lemma buildGrid_Ok_out (self : PowerSpectrum)
    (a : buildGrid_args) (rng : GaussianDeviate) g1 g2 okappa self' rng' :
  buildGrid self a rng = (Ok (g1, g2, okappa), self', rng') →
  ∃ kappa,
    grids self' = Some (g1, g2, kappa) ∧
    images self' = Some (g1, g2, kappa) ∧
    okappa = (if bg_get_convergence a then Some kappa else None) ∧
    interpolant self' = Some (default (Lanczos 5) (bg_interpolant a)) ∧
    e_power_function self' = e_power_function self ∧
    b_power_function self' = b_power_function self ∧
    delta2 self' = delta2 self ∧ units self' = units self ∧
    scale self' = scale self.
Proof.
  unfold buildGrid.
  destruct (buildGrid_inputs a) as [[[[[gs ngrid] kmin] kmax] c0]|];
    cbn [mbind result_bind]; [|done].
  destruct (py_floordiv gs (IZR kmax)) as [stored|];
    cbn [mbind result_bind]; [|done].
  destruct (buildGrid_power _ stored (bg_bandlimit a)) as [[pE pB]|]; [|done].
  destruct (if (ngrid * kmin * kmax <? 0)%Z then _ else _) as [psr|]; [|done].
  destruct (PowerSpectrumRealizer_call psr rng) as [[[G1 G2] K] gd].
  destruct (negb (kmin =? 1)%Z || negb (kmax =? 1)%Z);
    intros [= <- <- <- <- <-]; eexists; cbn; repeat split; reflexivity.
Qed.

(** X5. A successful buildGrid stores the arrays it returns: [grid_g1],
    [grid_g2] (and [grid_kappa], returned only with [get_convergence]) are
    the returned arrays and also the arrays of the images used for
    interpolation; the interpolant is the one given, [Lanczos(5)] by
    default; the power functions, [delta2], [units] and [scale] of the
    instance are unchanged. *)
Theorem buildGrid_stores_what_it_returns (self : PowerSpectrum)
    (a : buildGrid_args) (rng : GaussianDeviate) g1 g2 okappa self' rng' :
  buildGrid self a rng = (Ok (g1, g2, okappa), self', rng') →
  ∃ kappa,
    grids self' = Some (g1, g2, kappa) ∧
    images self' = Some (g1, g2, kappa) ∧
    okappa = (if bg_get_convergence a then Some kappa else None) ∧
    interpolant self' = Some (default (Lanczos 5) (bg_interpolant a)) ∧
    e_power_function self' = e_power_function self ∧
    b_power_function self' = b_power_function self ∧
    delta2 self' = delta2 self ∧ units self' = units self ∧
    scale self' = scale self.
Proof. apply buildGrid_Ok_out. Qed.

(** X6. A buildGrid that raises leaves the grids and images of an earlier
    build untouched, and the power functions, [delta2], [units] and
    [scale].  If it raised in the argument checks, or in the floor
    division by [kmax_factor = 0], the instance is unchanged altogether.
    Otherwise the floored grid spacing, the centre (moved by half that
    spacing for an even [ngrid]), the expanded bounds and the interpolant
    of the failed call have already replaced the earlier ones;
    [ngrid_tot] and [pixel_size] are the earlier ones if the failure came
    before the power functions were wrapped, and those of the failed call
    if it came from the realizer. *)
Theorem failed_build_keeps_grids (self : PowerSpectrum)
    (a : buildGrid_args) (rng : GaussianDeviate) e self' rng' :
  buildGrid self a rng = (Raise e, self', rng') →
  grids self' = grids self ∧ images self' = images self ∧
  e_power_function self' = e_power_function self ∧
  b_power_function self' = b_power_function self ∧
  delta2 self' = delta2 self ∧ units self' = units self ∧
  scale self' = scale self ∧
  (∀ e', buildGrid_inputs a = Raise e' → e = e' ∧ self' = self) ∧
  (∀ s ngrid kmin kmax c0,
     buildGrid_inputs a = Ok (s, ngrid, kmin, kmax, c0) →
     (kmax = 0%Z → e = ZeroDivisionError ∧ self' = self) ∧
     (kmax ≠ 0%Z →
      let stored := IZR (Int_part (s / IZR kmax)) in
      let even := (ngrid `mod` 2 =? 0)%Z in
      let half := IZR ngrid * s / 2 in
      geometry self'
      = Some (Geom stored
                (if even then pos_add c0 (pos_mul (1 / 2, 1 / 2) stored)
                 else c0)
                even
                (bounds_expand
                   (Bounds (c0.1 - half) (c0.1 + half)
                           (c0.2 - half) (c0.2 + half))
                   (1 + 1 / 10 ^ 15))) ∧
      interpolant self' = Some (default (Lanczos 5) (bg_interpolant a)) ∧
      (∀ e', buildGrid_power self stored (bg_bandlimit a) = Raise e' →
             e = e' ∧ ngrid_tot self' = ngrid_tot self) ∧
      (is_ok (buildGrid_power self stored (bg_bandlimit a)) = true →
       ngrid_tot self' = Some ((ngrid * kmin * kmax)%Z, s / IZR kmax)))).
Proof.
  unfold buildGrid.
  destruct (buildGrid_inputs a) as [[[[[gs ngrid] kmin] kmax] c0]|e0] eqn:Ei;
    cbn [mbind result_bind].
  2:{ intros [= <- <- _]. split_and!; try done. by intros ? [= <-]. }
  unfold py_floordiv.
  destruct (Req_dec_T (IZR kmax) 0) as [Hz|Hz].
  { rewrite Hz, Reqb_refl. cbn [mbind result_bind].
    intros [= <- <- _]. apply eq_IZR_R0 in Hz.
    split_and!; try done. intros ????? [= <- <- <- <- <-]. by split. }
  rewrite Reqb_false by done. cbn [mbind result_bind].
  assert (Hk : kmax ≠ 0%Z) by (by intros ->).
  rewrite buildGrid_power_with.
  destruct (buildGrid_power self _ (bg_bandlimit a)) as [[pE pB]|e1] eqn:Ep.
  2:{ intros [= <- <- _]. cbn. split_and!; try done.
      intros ????? [= <- <- <- <- <-]. split; [done|].
      intros _. rewrite Ep. split_and!; try done. by intros ? [= <-]. }
  destruct (if (ngrid * kmin * kmax <? 0)%Z then _ else _) as [psr|e2].
  2:{ intros [= <- <- _]. cbn. split_and!; try done.
      intros ????? [= <- <- <- <- <-]. split; [done|].
      intros _. rewrite Ep. split_and!; done. }
  destruct (PowerSpectrumRealizer_call psr rng) as [[[G1 G2] K] gd].
  by destruct (negb (kmin =? 1)%Z || negb (kmax =? 1)%Z).
Qed.

(** X7. If [kmax_factor] is zero, or the spacing [s] (in arcsec) satisfies
    [0 <= s < kmax_factor], buildGrid raises [ZeroDivisionError] (the stored
    spacing [s // kmax_factor] is zero and [k_max = pi / 0]), without
    consuming random numbers. *)
Theorem buildGrid_small_spacing_fails (self : PowerSpectrum)
    (a : buildGrid_args) (rng : GaussianDeviate) s ngrid kmin kmax c0 :
  buildGrid_inputs a = Ok (s, ngrid, kmin, kmax, c0) →
  is_ok (_convert_power_function (e_power_function self)) = true →
  is_ok (_convert_power_function (b_power_function self)) = true →
  kmax = 0%Z ∨ 0 <= s < IZR kmax →
  ∃ self', buildGrid self a rng = (Raise ZeroDivisionError, self', rng).
Proof.
  intros Hin He Hb Hs. unfold buildGrid. rewrite Hin.
  cbn [mbind result_bind]. unfold py_floordiv.
  destruct Hs as [->|[Hs0 Hs1]].
  { rewrite Reqb_refl. cbn [mbind result_bind]. eauto. }
  rewrite Reqb_false by lra. cbn [mbind result_bind].
  assert (Hz : Int_part (s / IZR kmax) = 0%Z).
  { symmetry. apply Int_part_spec.
    assert (Hq : s / IZR kmax * IZR kmax = s) by (field; lra).
    set (q := s / IZR kmax) in *. split; nra. }
  rewrite Hz, buildGrid_power_with. unfold buildGrid_power.
  destruct (_convert_power_function (e_power_function self)); [|done].
  destruct (_convert_power_function (b_power_function self)); [|done].
  cbn [mbind result_bind]. unfold py_truediv. rewrite Reqb_refl.
  cbn [mbind result_bind]. eauto.
Qed.
End BuildGridState.

(** ** buildGrid: the centre and the bounds *)

Open Scope R_scope.

Lemma Rleb_spec x y : reflect (x <= y) (Rleb x y).
Proof. unfold Rleb. destruct (Rle_dec x y); by constructor. Qed.

Section BuildGridGeometry.
Context `{Numpy} `{Galsim}.

Lemma buildGrid_Ok_geometry self a rng out self' rng' s ngrid kmin kmax c0 :
  buildGrid self a rng = (Ok out, self', rng') →
  buildGrid_inputs a = Ok (s, ngrid, kmin, kmax, c0) →
  ∃ stored,
    py_floordiv s (IZR kmax) = Ok stored ∧
    geometry self'
    = Some (Geom stored
              (if (ngrid `mod` 2 =? 0)%Z
               then pos_add c0 (pos_mul (1 / 2, 1 / 2) stored) else c0)
              (ngrid `mod` 2 =? 0)%Z
              (bounds_expand
                 (Bounds (c0.1 - IZR ngrid * s / 2) (c0.1 + IZR ngrid * s / 2)
                    (c0.2 - IZR ngrid * s / 2) (c0.2 + IZR ngrid * s / 2))
                 (1 + 1 / 10 ^ 15))).
Proof.
  intros Hb Hin. revert Hb. unfold buildGrid. rewrite Hin.
  cbn [mbind result_bind].
  destruct (py_floordiv s (IZR kmax)) as [stored|];
    cbn [mbind result_bind]; [|done].
  destruct (buildGrid_power _ stored (bg_bandlimit a)) as [[pE pB]|]; [|done].
  destruct (if (ngrid * kmin * kmax <? 0)%Z then _ else _) as [psr|]; [|done].
  destruct (PowerSpectrumRealizer_call psr rng) as [[[G1 G2] K] gd].
  destruct (negb (kmin =? 1)%Z || negb (kmax =? 1)%Z);
    intros [= <- <- <-]; by eexists.
Qed.

(** X29. After a successful buildGrid (with [ngrid * grid_spacing >= 0])
    the stored bounds are the square of half-width
    [ngrid * grid_spacing / 2], grown by the factor [1 + 1e-15], about the
    centre that was given; the stored centre is the given one, moved by
    half a stored grid spacing in [x] and [y] exactly when [ngrid] is
    even. *)
Theorem buildGrid_bounds_cover_the_grid (self : PowerSpectrum)
    (a : buildGrid_args) (rng : GaussianDeviate) out self' rng'
    s ngrid kmin kmax c0 :
  buildGrid self a rng = (Ok out, self', rng') →
  buildGrid_inputs a = Ok (s, ngrid, kmin, kmax, c0) →
  0 <= IZR ngrid * s →
  let half := IZR ngrid * s / 2 in
  ∃ g,
    geometry self' = Some g ∧
    adjust_center g = (ngrid `mod` 2 =? 0)%Z ∧
    center g
    = (if (ngrid `mod` 2 =? 0)%Z
       then (c0.1 + 1 / 2 * grid_spacing g, c0.2 + 1 / 2 * grid_spacing g)
       else c0) ∧
    ∀ p,
      bounds_includes (bounds g) p = true ↔
      Rabs (p.1 - c0.1) <= half * (1 + 1 / 10 ^ 15) ∧
      Rabs (p.2 - c0.2) <= half * (1 + 1 / 10 ^ 15).
Proof.
  intros Hb Hin Hpos half.
  destruct (buildGrid_Ok_geometry _ _ _ _ _ _ _ _ _ _ _ Hb Hin)
    as (stored & _ & Hg).
  eexists. split; [exact Hg|]. cbn [adjust_center center grid_spacing bounds].
  split; [done|]. split.
  { destruct (ngrid `mod` 2 =? 0)%Z; [|done]. destruct c0; reflexivity. }
  intros p. unfold bounds_includes, bounds_defined, bounds_expand.
  cbn [xmin xmax ymin ymax]. fold half.
  assert (Hh : 0 <= half) by (unfold half; lra).
  set (e := 1 / 10 ^ 15).
  assert (He : 0 < e) by (unfold e; apply Rdiv_lt_0_compat; [lra|];
                          apply pow_lt; lra).
  assert (Hx : c0.1 + half - (c0.1 - half) = 2 * half) by ring.
  assert (Hy : c0.2 + half - (c0.2 - half) = 2 * half) by ring.
  rewrite Hx, Hy.
  replace (1 + e - 1) with e by ring.
  replace (2 * half * (1 / 2) * e) with (half * e) by field.
  assert (Hhe : 0 <= half * e) by nra.
  rewrite !andb_true_iff.
  split.
  - intros [[[[[D1 D2] X1] X2] Y1] Y2].
    apply (reflect_iff _ _ (Rleb_spec _ _)) in X1, X2, Y1, Y2.
    split; apply Rabs_le; lra.
  - intros [Ax Ay].
    pose proof (Rle_abs (p.1 - c0.1)) as A1.
    pose proof (Rle_abs (- (p.1 - c0.1))) as A2.
    pose proof (Rle_abs (p.2 - c0.2)) as A3.
    pose proof (Rle_abs (- (p.2 - c0.2))) as A4.
    rewrite Rabs_Ropp in A2, A4.
    repeat split; apply (reflect_iff _ _ (Rleb_spec _ _)); lra.
Qed.
End BuildGridGeometry.

(** ** Shapes of a realization *)

Open Scope R_scope.

Lemma arr2_ext {A} (a b : arr2 A) r c :
  shape a r c → shape b r c →
  (∀ i j, (i < r)%nat → (j < c)%nat → lookup2 a i j = lookup2 b i j) →
  a = b.
Proof.
  intros [Ha1 Ha2] [Hb1 Hb2] Heq.
  apply (list_eq_same_length _ _ r); [done|done|].
  intros i ra rb Hi Hra Hrb.
  rewrite Forall_lookup in Ha2. rewrite Forall_lookup in Hb2.
  apply (list_eq_same_length _ _ c); [by eapply Hb2|by eapply Ha2|].
  intros j x y Hj Hx Hy.
  specialize (Heq i j Hi Hj). unfold lookup2 in Heq.
  rewrite Hra, Hrb in Heq. cbn in Heq. congruence.
Qed.

Lemma shape_replicate {A} (x : A) r c : shape (replicate r (replicate c x)) r c.
Proof. apply (shape_np_empty x). Qed.

Lemma shape_setitem {A} (a : arr2 A) i j v a' r c :
  setitem a i j v = Ok a' → shape a r c → shape a' r c.
Proof.
  intros Hs Ha. apply setitem_Ok in Hs as [_ ->].
  by apply shape_assign_block.
Qed.

Lemma shape_exp2ipsi n p self :
  set_size n p = Ok self → shape (exp2ipsi self) n n.
Proof.
  intros Hs. destruct (shape_kx _ _ _ Hs) as [Hx Hy].
  destruct (set_size_grids _ _ _ Hs) as [Ekx Eky].
  revert Hs. unfold set_size.
  destruct (kxky (n, n)) as [[kx0 ky0]|] eqn:Ek; cbn [mbind result_bind];
    [|done].
  destruct (_generate_exp2ipsi _ _) as [e|] eqn:Ee; cbn [mbind result_bind];
    [|done].
  intros [= <-]. cbn [exp2ipsi kx ky] in *.
  unfold _generate_exp2ipsi in Ee.
  destruct (setitem _ 0 0 _) as [ksq|] eqn:Eq; cbn [mbind result_bind] in Ee;
    [|done].
  injection Ee as <-.
  apply shape_zip2; [by apply shape_zip2|].
  eapply shape_setitem; [done|]. apply shape_amap. by apply shape_zip2.
Qed.

Section Shapes.
Context `{Numpy}.

Lemma set_power_exp2ipsi self pE pB self' :
  set_power self pE pB = Ok self' →
  exp2ipsi self' = exp2ipsi self ∧ kx self' = kx self ∧ ky self' = ky self ∧
  pixel_size self' = pixel_size self ∧ p_E self' = pE ∧ p_B self' = pB.
Proof.
  unfold set_power.
  destruct pE as [fE|]; [destruct (_generate_power_array self junkR fE)|];
    cbn [mbind result_bind]; try done.
  all: destruct pB as [fB|]; [destruct (_generate_power_array self junkR fB)|];
    cbn [mbind result_bind mret result_ret]; try done.
  all: by intros [= <-].
Qed.

Lemma init_exp2ipsi n p pE pB self :
  PowerSpectrumRealizer_init n p pE pB = Ok self →
  shape (exp2ipsi self) n n.
Proof.
  unfold PowerSpectrumRealizer_init.
  destruct (set_size n p) as [self0|] eqn:Hs; cbn [mbind result_bind]; [|done].
  intros (-> & _)%set_power_exp2ipsi. by eapply shape_exp2ipsi.
Qed.

Lemma shape_broadcast0 self n (a : option (arr2 C)) :
  sized self n → (∀ x, a = Some x → shape x n n) →
  shape (broadcast0 self a) n n.
Proof.
  intros (Hx & Hy & _) Ha. unfold broadcast0.
  destruct a as [x|]; cbn; [by apply Ha|].
  rewrite Hx, Hy. apply shape_replicate.
Qed.

Section CallShapes.
Hypothesis ifft2_shape : ∀ a r c, shape a r c → shape (ifft2 a) r c.
Hypothesis irfft2_shape : ∀ a r c, shape (irfft2 a (r, c)) r c.

Lemma shape_call n p pE pB psr gd :
  PowerSpectrumRealizer_init n p pE pB = Ok psr →
  let out := (PowerSpectrumRealizer_call psr gd).1 in
  shape out.1.1 n n ∧ shape out.1.2 n n ∧ shape out.2 n n.
Proof.
  intros Hi. pose proof (init_sized _ _ _ _ _ Hi) as Hs.
  pose proof (init_exp2ipsi _ _ _ _ _ Hi) as He.
  assert (Hm : ∀ amp g, shape (realize_mode psr amp g).1 n n).
  { intros amp g. rewrite realize_mode_fst.
    apply shape_make_hermitian; [done|].
    destruct Hs as (-> & -> & _).
    apply shape_assign_block, shape_np_empty. }
  assert (Hb : ∀ x, (∀ y, x = Some y → shape y n n) →
                    shape (broadcast0 psr x) n n).
  { intros x Hx. by apply shape_broadcast0. }
  destruct Hs as (Hx & Hy & Hs').
  unfold PowerSpectrumRealizer_call.
  destruct (amplitude_E psr) as [aE|];
    [pose proof (Hm aE gd) as HE;
     destruct (realize_mode psr aE gd) as [E_k gd1]|];
    (destruct (amplitude_B psr) as [aB|];
     [match goal with
      | |- context [realize_mode psr aB ?g] =>
          pose proof (Hm aB g) as HB;
          destruct (realize_mode psr aB g) as [B_k gd2]
      end|]);
    cbn [fst snd] in *; rewrite ?Hx, ?Hy.
  all: split; [|split]; repeat apply shape_amap;
    try apply irfft2_shape; try apply shape_replicate.
  all: apply ifft2_shape, shape_zip2; [done|]; apply shape_zip2; apply Hb.
  all: by intros y [= <-].
Qed.
End CallShapes.
End Shapes.

(** ** buildGrid: the grids returned *)

Open Scope R_scope.

Lemma kept_bound (ngrid kmin kmax : Z) :
  (0 ≤ ngrid)%Z → (0 < kmin)%Z → (0 < kmax)%Z →
  Forall (λ i, (i < Z.to_nat (ngrid * kmin * kmax))%nat)
    ((λ t, (t * Z.to_nat kmax)%nat) <$> seq 0 (Z.to_nat ngrid)).
Proof.
  intros Hn Hmin Hmax. apply Forall_fmap, Forall_forall.
  intros t Ht%elem_of_seq. cbn.
  rewrite !Z2Nat.inj_mul by first [lia | apply Z.mul_nonneg_nonneg; lia].
  destruct Ht as [_ Ht]. rewrite Nat.add_0_l in Ht.
  apply Nat.lt_le_trans with (Z.to_nat ngrid * Z.to_nat kmax)%nat.
  - apply Nat.mul_lt_mono_pos_r; lia.
  - apply Nat.mul_le_mono_r.
    rewrite <- (Nat.mul_1_r (Z.to_nat ngrid)) at 1.
    apply Nat.mul_le_mono_l. lia.
Qed.

(** The grid kept from an [N x N] realization: [ngrid x ngrid], sampled at
    every [kmax_factor]-th point. *)
Lemma kept_grid_spec {A} (ngrid kmin kmax : Z) (G : arr2 A) :
  (0 < ngrid)%Z → (0 < kmin)%Z → (0 < kmax)%Z →
  shape G (Z.to_nat (ngrid * kmin * kmax)) (Z.to_nat (ngrid * kmin * kmax)) →
  let s := Slice (Some 0%Z) (Some (ngrid * kmax)%Z) (Some kmax) in
  let g := if negb (kmin =? 1)%Z || negb (kmax =? 1)%Z
           then getslice G s s else G in
  shape g (Z.to_nat ngrid) (Z.to_nat ngrid) ∧
  ∀ i j, (i < Z.to_nat ngrid)%nat → (j < Z.to_nat ngrid)%nat →
    lookup2 g i j = lookup2 G (i * Z.to_nat kmax) (j * Z.to_nat kmax).
Proof.
  intros Hn Hmin Hmax HG s g.
  destruct (negb (kmin =? 1)%Z || negb (kmax =? 1)%Z) eqn:E; subst g.
  - unfold getslice.
    assert (HN : (0 < Z.to_nat (ngrid * kmin * kmax))%nat).
    { assert (0 < ngrid * kmin * kmax)%Z; [|lia].
      apply Z.mul_pos_pos; [apply Z.mul_pos_pos|]; lia. }
    rewrite (nrows_shape _ _ _ HG), (ncols_shape _ _ _ HG) by done.
    unfold s. rewrite slice_list_kept by lia.
    pose proof (kept_bound ngrid kmin kmax) as Hb.
    split.
    + pose proof (shape_sub_block G _ _ _ _ HG
                    (Hb ltac:(lia) Hmin Hmax) (Hb ltac:(lia) Hmin Hmax)) as Hs.
      by rewrite length_fmap, length_seq in Hs.
    + intros i j Hi Hj.
      rewrite (lookup2_sub_block G _ _ _ _ _ _ HG) by (apply Hb; lia).
      rewrite !list_lookup_fmap, !lookup_seq_lt by done. reflexivity.
  - apply orb_false_iff in E as [E1 E2].
    apply negb_false_iff, Z.eqb_eq in E1, E2. subst kmin kmax.
    rewrite !Z.mul_1_r in HG. split; [done|].
    intros i j _ _. change (Z.to_nat 1) with 1%nat. by rewrite !Nat.mul_1_r.
Qed.

Section BuildGridShapes.
Context `{Numpy} `{Galsim}.

Section GridShapes.
Hypothesis ifft2_shape : ∀ a r c, shape a r c → shape (ifft2 a) r c.
Hypothesis irfft2_shape : ∀ a r c, shape (irfft2 a (r, c)) r c.

(** X8. With positive [kmin_factor] and [kmax_factor], and inverse
    transforms that return arrays of the expected shapes, a successful
    buildGrid returns [ngrid x ngrid] arrays: the [N x N] realization
    ([N = ngrid * kmin_factor * kmax_factor]) sampled at every
    [kmax_factor]-th row and column. *)
Theorem buildGrid_returns_ngrid_square (self : PowerSpectrum)
    (a : buildGrid_args) (rng : GaussianDeviate) g1 g2 okappa self' rng'
    s ngrid kmin kmax c0 :
  buildGrid self a rng = (Ok (g1, g2, okappa), self', rng') →
  buildGrid_inputs a = Ok (s, ngrid, kmin, kmax, c0) →
  (0 < kmin)%Z → (0 < kmax)%Z →
  let n := Z.to_nat ngrid in
  let m := Z.to_nat kmax in
  (0 < n)%nat ∧ shape g1 n n ∧ shape g2 n n ∧
  ∃ kappa psr pE pB,
    images self' = Some (g1, g2, kappa) ∧ shape kappa n n ∧
    PowerSpectrumRealizer_init (Z.to_nat (ngrid * kmin * kmax))
      (s / IZR kmax) pE pB = Ok psr ∧
    let full := (PowerSpectrumRealizer_call psr rng).1 in
    ∀ i j, (i < n)%nat → (j < n)%nat →
      lookup2 g1 i j = lookup2 full.1.1 (i * m) (j * m) ∧
      lookup2 g2 i j = lookup2 full.1.2 (i * m) (j * m) ∧
      lookup2 kappa i j = lookup2 full.2 (i * m) (j * m).
Proof.
  intros Hb Hin Hmin Hmax n m.
  destruct (buildGrid_Ok_out _ _ _ _ _ _ _ _ Hb)
    as (kappa & _ & Him & _).
  apply buildGrid_Ok in Hb
    as (gs & ng & kmin' & kmax' & c0' & stored & pE & pB & psr
        & Hin' & _ & _ & HN & Hinit & _ & _ & _ & _ & _ & Him' & _).
  rewrite Hin in Hin'. injection Hin' as <- <- <- <- <-.
  destruct (init_inv _ _ _ _ _ Hinit) as (self0 & Hs0 & _).
  pose proof (set_size_pos _ _ _ Hs0) as HNpos.
  assert (Hng : (0 < ngrid)%Z).
  { destruct (Z.lt_trichotomy ngrid 0) as [Hl|[->|Hl]]; [|by cbn in HNpos|done].
    assert (ngrid * kmin * kmax < 0)%Z; [|lia].
    apply Z.mul_neg_pos; [apply Z.mul_neg_pos|]; lia. }
  destruct (shape_call ifft2_shape irfft2_shape _ _ _ _ _ rng Hinit)
    as (S1 & S2 & S3).
  rewrite Him in Him'. unfold kept_grids in Him'.
  destruct (PowerSpectrumRealizer_call psr rng) as [[[G1 G2] K] gd] eqn:Ec.
  cbn [fst snd] in *.
  destruct (kept_grid_spec ngrid kmin kmax G1 Hng Hmin Hmax S1) as [T1 L1].
  destruct (kept_grid_spec ngrid kmin kmax G2 Hng Hmin Hmax S2) as [T2 L2].
  destruct (kept_grid_spec ngrid kmin kmax K Hng Hmin Hmax S3) as [T3 L3].
  destruct (negb (kmin =? 1)%Z || negb (kmax =? 1)%Z);
    injection Him' as -> -> ->.
  all: split; [lia|]; split; [done|]; split; [done|].
  all: eexists; exists psr, pE, pB.
  all: split; [exact Him|]; split; [done|]; split; [done|].
  all: cbv zeta; rewrite Ec; cbn [fst snd]; intros i j Hi Hj; unfold n, m in *;
    split; [|split]; [apply L1|apply L2|apply L3]; done.
Qed.
End GridShapes.

Lemma call_kappa_no_E psr gd :
  amplitude_E psr = None →
  (PowerSpectrumRealizer_call psr gd).1.2
  = replicate (ny psr) (replicate (nx psr) 0).
Proof.
  intros HE. unfold PowerSpectrumRealizer_call. rewrite HE.
  destruct (amplitude_B psr) as [aB|]; [|done].
  by destruct (realize_mode psr aB gd).
Qed.

(** X9. With no E-mode power function the convergence grid that buildGrid
    stores and returns is identically zero ([ngrid x ngrid] zeros). *)
Theorem pure_B_mode_has_zero_convergence (self : PowerSpectrum)
    (a : buildGrid_args) (rng : GaussianDeviate) g1 g2 okappa self' rng'
    s ngrid kmin kmax c0 :
  buildGrid self a rng = (Ok (g1, g2, okappa), self', rng') →
  buildGrid_inputs a = Ok (s, ngrid, kmin, kmax, c0) →
  e_power_function self = None →
  (0 < kmin)%Z → (0 < kmax)%Z →
  let n := Z.to_nat ngrid in
  let zeros := replicate n (replicate n 0) in
  images self' = Some (g1, g2, zeros) ∧
  grids self' = Some (g1, g2, zeros) ∧
  okappa = (if bg_get_convergence a then Some zeros else None).
Proof.
  intros Hb Hin He Hmin Hmax n zeros.
  destruct (buildGrid_Ok_out _ _ _ _ _ _ _ _ Hb)
    as (kappa & Hgr & Him & -> & _).
  apply buildGrid_Ok in Hb
    as (gs & ng & kmin' & kmax' & c0' & stored & pE & pB & psr
        & Hin' & _ & Hp & HN & Hinit & _ & _ & _ & _ & _ & Him' & _).
  rewrite Hin in Hin'. injection Hin' as <- <- <- <- <-.
  destruct (buildGrid_power_modes _ _ _ _ _ Hp) as [HmE _].
  assert (pE = None) as ->.
  { destruct pE; [|done]. rewrite He in HmE.
    by destruct (proj1 HmE ltac:(eauto)). }
  destruct (init_inv _ _ _ _ _ Hinit) as (self0 & Hs0 & Hsz & HaE & _).
  pose proof (set_size_pos _ _ _ Hs0) as HNpos.
  assert (Hng : (0 < ngrid)%Z).
  { destruct (Z.lt_trichotomy ngrid 0) as [Hl|[->|Hl]]; [|by cbn in HNpos|done].
    assert (ngrid * kmin * kmax < 0)%Z; [|lia].
    apply Z.mul_neg_pos; [apply Z.mul_neg_pos|]; lia. }
  pose proof (call_kappa_no_E psr rng HaE) as HK.
  destruct Hsz as (Hx & Hy & _). rewrite Hx, Hy in HK.
  rewrite Him in Him'. unfold kept_grids in Him'.
  destruct (PowerSpectrumRealizer_call psr rng) as [[[G1 G2] K] gd].
  cbn [fst snd] in *. subst K.
  set (N := Z.to_nat (ngrid * kmin * kmax)) in *.
  destruct (kept_grid_spec ngrid kmin kmax (replicate N (replicate N 0))
              Hng Hmin Hmax (shape_replicate _ _ _)) as [T L].
  assert (Hk : kappa = zeros).
  { assert (kappa = if negb (kmin =? 1)%Z || negb (kmax =? 1)%Z
                    then getslice (replicate N (replicate N 0))
                           (Slice (Some 0%Z) (Some (ngrid * kmax)%Z) (Some kmax))
                           (Slice (Some 0%Z) (Some (ngrid * kmax)%Z) (Some kmax))
                    else replicate N (replicate N 0)) as ->.
    { destruct (negb (kmin =? 1)%Z || negb (kmax =? 1)%Z); congruence. }
    apply (arr2_ext _ _ n n); [done|apply shape_replicate|].
    intros i j Hi Hj. rewrite L by done.
    pose proof (kept_bound ngrid kmin kmax ltac:(lia) Hmin Hmax) as Hbd.
    rewrite Forall_fmap, Forall_forall in Hbd.
    assert (Hi' : (i * Z.to_nat kmax < N)%nat).
    { apply (Hbd i). apply elem_of_seq. unfold n in Hi. lia. }
    assert (Hj' : (j * Z.to_nat kmax < N)%nat).
    { apply (Hbd j). apply elem_of_seq. unfold n in Hj. lia. }
    rewrite (lookup2_np_empty 0 N N), (lookup2_np_empty 0 n n); done. }
  subst kappa. done.
Qed.
End BuildGridShapes.

(** ** subsampleGrid: composition and errors *)

Open Scope R_scope.

Lemma divides_mul (N f1 f2 : nat) :
  (0 < f1)%nat → (0 < f2)%nat → Nat.modulo N (f1 * f2) = 0%nat →
  Nat.modulo N f1 = 0%nat ∧ Nat.modulo (N / f1) f2 = 0%nat ∧
  (N / f1 / f2 = N / (f1 * f2))%nat.
Proof.
  intros H1 H2 Hm.
  pose proof (Nat.div_mod_eq N (f1 * f2)) as Hq. rewrite Hm in Hq.
  set (q := (N / (f1 * f2))%nat) in *.
  assert (HN : N = ((f2 * q) * f1)%nat) by lia.
  assert (Hd : (N / f1 = f2 * q)%nat).
  { rewrite HN. apply Nat.div_mul. lia. }
  split; [|split].
  - rewrite HN. apply Nat.Div0.mod_mul.
  - rewrite Hd, (Nat.mul_comm f2 q). apply Nat.Div0.mod_mul.
  - rewrite Hd, (Nat.mul_comm f2 q). apply Nat.div_mul. lia.
Qed.

Lemma getslice_strided_twice (f1 f2 N : nat) (a : arr2 R) :
  (1 < f1)%nat → (1 < f2)%nat → (0 < N)%nat →
  Nat.modulo N (f1 * f2) = 0%nat → shape a N N →
  let s f := Slice None None (Some (Z.of_nat f)) in
  getslice (getslice a (s f1) (s f1)) (s f2) (s f2)
  = getslice a (s (f1 * f2)%nat) (s (f1 * f2)%nat).
Proof.
  intros H1 H2 HN Hm Ha s.
  destruct (divides_mul N f1 f2) as (Hm1 & Hm2 & Hd); [lia..|].
  assert (Hpos : (0 < N / (f1 * f2))%nat).
  { pose proof (Nat.div_mod_eq N (f1 * f2)) as Hq. rewrite Hm in Hq.
    destruct (N / (f1 * f2))%nat; lia. }
  assert (Hpos1 : (0 < N / f1)%nat).
  { rewrite <- Hd in Hpos. destruct (N / f1)%nat; [|lia].
    by rewrite Nat.Div0.div_0_l in Hpos. }
  destruct (getslice_strided f1 N a H1 HN Hm1 Ha) as [S1 L1].
  destruct (getslice_strided f2 (N / f1) _ H2 Hpos1 Hm2 S1) as [S2 L2].
  destruct (getslice_strided (f1 * f2) N a) as [S3 L3]; [nia|done..|].
  fold (s f1) in *. fold (s f2) in *. fold (s (f1 * f2)%nat) in *.
  rewrite Hd in S2, L2.
  apply (arr2_ext _ _ _ _ S2 S3).
  intros i j Hi Hj. rewrite L2, L3 by done.
  assert (Hb : ∀ t, (t < N / (f1 * f2) → f2 * t < N / f1)%nat).
  { intros t Ht. rewrite <- Hd in Ht.
    pose proof (Nat.div_mod_eq (N / f1) f2) as Hq. rewrite Hm2 in Hq. nia. }
  rewrite L1 by auto. f_equal; lia.
Qed.

Section SubsampleProperties.
Context `{Numpy} `{Galsim}.

Lemma subsampleGrid_Ok self ims grs g (f N : nat) gc :
  images self = Some ims → grids self = Some grs → geometry self = Some g →
  nrows ims.1.1 = N → (1 < f)%nat → Nat.modulo N f = 0%nat →
  subsampleGrid self (PyInt (Z.of_nat f)) gc
  = (Ok (grs.1.1, grs.1.2, if gc then Some grs.2 else None),
     subsampled self f ims g).
Proof.
  intros Him Hgr Hge HN Hf Hm. unfold subsampleGrid. rewrite Him.
  destruct ims as [[i1 i2] ik]. destruct grs as [[r1 r2] rk].
  cbn [fst snd] in *. rewrite HN.
  destruct (Z.eqb_spec (Z.of_nat f) 0); [lia|].
  assert (Hmod : (Z.of_nat N `mod` Z.of_nat f)%Z = 0%Z).
  { rewrite <- Nat2Z.inj_mod, Hm. done. }
  rewrite Hmod. cbn [Z.eqb negb orb].
  destruct (Z.leb_spec (Z.of_nat f) 1); [lia|].
  cbn [geometry grids with_images]. rewrite Hge, Hgr.
  unfold subsampled. cbn [fst snd].
  rewrite minus_IZR, <- INR_IZR_INZ. reflexivity.
Qed.

(** X10. Subsampling by [f1] and then by [f2] leaves the instance in the
    state that one subsampling by [f1 * f2] gives: the same strided images,
    grid spacing multiplied by [f1 * f2], the centre moved by
    [(f1 * f2 - 1) / 2] old spacings when the build had nudged it, bounds
    and stored grids unchanged; the three calls return the same arrays. *)
Theorem subsampleGrid_composes (self : PowerSpectrum)
    (g1 g2 kappa : arr2 R) grs (geom : Geometry) (f1 f2 N : nat) (gc : bool) :
  images self = Some (g1, g2, kappa) → grids self = Some grs →
  geometry self = Some geom →
  shape g1 N N → shape g2 N N → shape kappa N N →
  (1 < f1)%nat → (1 < f2)%nat → (0 < N)%nat →
  Nat.modulo N (f1 * f2) = 0%nat →
  ∃ self1 self2 r,
    subsampleGrid self (PyInt (Z.of_nat f1)) gc = (Ok r, self1) ∧
    subsampleGrid self1 (PyInt (Z.of_nat f2)) gc = (Ok r, self2) ∧
    subsampleGrid self (PyInt (Z.of_nat (f1 * f2))) gc = (Ok r, self2) ∧
    grids self2 = grids self ∧
    geometry self2
    = Some (Geom (grid_spacing geom * INR (f1 * f2))
              (if adjust_center geom
               then pos_add (center geom)
                      (pos_mul (pos_mul (1 / 2, 1 / 2) (grid_spacing geom))
                         (INR (f1 * f2) - 1))
               else center geom)
              (adjust_center geom) (bounds geom)).
Proof.
  intros Him Hgr Hge S1 S2 Sk H1 H2 HN Hm.
  destruct (divides_mul N f1 f2) as (Hm1 & Hm2 & Hd); [lia..|].
  pose proof (subsampleGrid_Ok self _ grs geom f1 N gc Him Hgr Hge
                (nrows_shape _ _ _ S1) H1 Hm1) as E1.
  set (self1 := subsampled self f1 (g1, g2, kappa) geom) in *.
  destruct (getslice_strided f1 N g1) as [T1 _]; [done..|].
  assert (E2 := subsampleGrid_Ok self1 _ grs _ f2 (N / f1) gc
                  eq_refl Hgr eq_refl (nrows_shape _ _ _ T1) H2 Hm2).
  assert (H12 : (1 < f1 * f2)%nat) by nia.
  pose proof (subsampleGrid_Ok self _ grs geom (f1 * f2) N gc Him Hgr Hge
                (nrows_shape _ _ _ S1) H12 Hm) as E3.
  eexists _, _, _. split; [exact E1|]. split; [exact E2|].
  split; [|split].
  - rewrite E3. f_equal. unfold self1, subsampled.
    cbn [fst snd images with_geometry with_images
      e_power_function b_power_function delta2 units scale geometry
      interpolant ngrid_tot grids grid_spacing center adjust_center bounds].
    rewrite !(getslice_strided_twice f1 f2 N) by done.
    rewrite mult_INR.
    f_equal. f_equal; [ring|].
    destruct (adjust_center geom); [|done].
    unfold pos_add, pos_mul. cbn [fst snd]. f_equal; ring.
  - done.
  - cbn. rewrite mult_INR. do 2 f_equal; [ring|].
    destruct (adjust_center geom); [|done].
    unfold pos_add, pos_mul. cbn [fst snd]. f_equal; ring.
Qed.

(** X11. subsampleGrid raises [RuntimeError] before any build, for a
    factor that is not an [int], and for an integer factor that is [<= 1]
    or does not divide the grid size; a factor of zero raises
    [ZeroDivisionError].  The instance is unchanged in all these cases. *)
Theorem subsampleGrid_rejects (self : PowerSpectrum) (gc : bool) :
  (images self = None →
   ∀ f, subsampleGrid self f gc = (Raise RuntimeError, self)) ∧
  (∀ g1 g2 kappa, images self = Some (g1, g2, kappa) →
     (∀ x, subsampleGrid self (PyFloat x) gc = (Raise RuntimeError, self)) ∧
     subsampleGrid self (PyInt 0) gc = (Raise ZeroDivisionError, self) ∧
     (∀ f, f ≠ 0%Z →
        (f ≤ 1)%Z ∨ (Z.of_nat (nrows g1) `mod` f ≠ 0)%Z →
        subsampleGrid self (PyInt f) gc = (Raise RuntimeError, self))).
Proof.
  unfold subsampleGrid. split.
  - by intros ->.
  - intros g1 g2 kappa ->. split; [done|]. split; [done|].
    intros f Hf Hbad.
    destruct (Z.eqb_spec f 0); [done|].
    destruct (Z.eqb_spec (Z.of_nat (nrows g1) `mod` f) 0); cbn [negb orb];
      [|done].
    destruct (Z.leb_spec f 1); [done|]. lia.
Qed.
End SubsampleProperties.

(** ** The queries: values and warnings *)

Open Scope R_scope.

Section QueryProperties.
Context `{Numpy} `{Galsim}.

Lemma query_loop_fmap {A B} (φ : A → B) g periodic outside inside pos :
  query_loop g periodic (φ outside) (λ c, φ (inside c)) pos
  = (rmap (fmap φ) (query_loop g periodic outside inside pos).1,
     (query_loop g periodic outside inside pos).2).
Proof.
  induction pos as [|p pos IH]; [done|].
  cbn [query_loop].
  destruct (negb (bounds_includes (bounds g) p)).
  - destruct (negb periodic).
    + rewrite IH. destruct (query_loop g periodic outside inside pos) as [[l|e] w];
        reflexivity.
    + destruct (wrap_pos (bounds g) p); [|done].
      rewrite IH.
      destruct (query_loop g periodic outside inside pos) as [[l|e] w];
        reflexivity.
  - rewrite IH. destruct (query_loop g periodic outside inside pos) as [[l|e] w];
      reflexivity.
Qed.

Lemma query_loop_Ok {A} g periodic (outside : A) inside pos l w :
  query_loop g periodic outside inside pos = (Ok l, w) →
  length l = length pos ∧
  (periodic = true → w = []) ∧
  (periodic = false →
   w = OutsideBounds <$>
         filter (λ p, bounds_includes (bounds g) p = false) pos).
Proof.
  destruct periodic.
  - revert l w. induction pos as [|p pos IH]; intros l w.
    + intros [= <- <-]. done.
    + cbn [query_loop negb].
      destruct (negb (bounds_includes (bounds g) p)).
      * destruct (wrap_pos (bounds g) p); [|done].
        destruct (query_loop g true outside inside pos) as [[l'|e] w'];
          cbn [mbind result_bind]; [|done].
        intros [= <- <-]. destruct (IH _ _ eq_refl) as (Hl & Hw & _).
        cbn. rewrite Hl. split; [done|]. split; [auto|done].
      * destruct (query_loop g true outside inside pos) as [[l'|e] w'];
          cbn [mbind result_bind]; [|done].
        intros [= <- <-]. destruct (IH _ _ eq_refl) as (Hl & Hw & _).
        cbn. rewrite Hl. split; [done|]. split; [auto|done].
  - rewrite query_loop_nonperiodic. intros [= <- <-].
    rewrite length_fmap. done.
Qed.

(** X12. A query that returns gives one value per position; with
    [periodic=True] it issues no warning, and otherwise exactly one warning
    per position outside the bounds, in order. *)
Theorem queries_return_one_value_per_position (self : PowerSpectrum)
    (g : Geometry) (pos : list (R * R)) (reduced periodic : bool)
    (interp : option Interpolant) :
  geometry self = Some g →
  let warned (w : list warning) :=
    w = if periodic then []
        else OutsideBounds <$>
               filter (λ p, bounds_includes (bounds g) p = false) pos in
  (∀ l w, getShear self pos reduced periodic interp = (Ok l, w) →
          length l = length pos ∧ warned w) ∧
  (∀ l w, getConvergence self pos periodic interp = (Ok l, w) →
          length l = length pos ∧ warned w) ∧
  (∀ l w, getMagnification self pos periodic interp = (Ok l, w) →
          length l = length pos ∧ warned w) ∧
  (∀ l w, getLensing self pos periodic interp = (Ok l, w) →
          length l = length pos ∧ warned w).
Proof.
  intros Hg warned.
  assert (Hq : ∀ A g' (o : A) inside l w,
            geometry self = Some g' →
            query_loop g' periodic o inside pos = (Ok l, w) →
            length l = length pos ∧ warned w).
  { intros A g' o inside l w Hg' Hl.
    rewrite Hg in Hg'. injection Hg' as <-.
    destruct (query_loop_Ok _ _ _ _ _ _ _ Hl) as (Hlen & Hp & Hn).
    split; [done|]. unfold warned. destruct periodic; auto. }
  assert (Hbuilt : ∀ ims g i, built self = Ok (ims, g, i) →
            geometry self = Some g).
  { unfold built. intros ims g0 i.
    destruct (images self); [|done].
    destruct (geometry self); [|done].
    destruct (interpolant self); [|done]. by intros [= _ <- _]. }
  split; [|split; [|split]]; intros l w.
  - unfold getShear.
    destruct (built self) as [[[[[i1 i2] ik] g0] i]|] eqn:Eb;
      cbn [mbind result_bind]; [|done].
    destruct (if reduced then _ else _) as [ims|]; cbn [mbind result_bind];
      [|done].
    destruct (interp_image periodic ims.1); cbn [mbind result_bind]; [|done].
    destruct (interp_image periodic ims.2); cbn [mbind result_bind]; [|done].
    apply Hq. by eapply Hbuilt.
  - unfold getConvergence.
    destruct (built self) as [[[[[i1 i2] ik] g0] i]|] eqn:Eb;
      cbn [mbind result_bind]; [|done].
    destruct (interp_image periodic ik); cbn [mbind result_bind]; [|done].
    apply Hq. by eapply Hbuilt.
  - unfold getMagnification.
    destruct (built self) as [[[[[i1 i2] ik] g0] i]|] eqn:Eb;
      cbn [mbind result_bind]; [|done].
    destruct (theoryToObserved _ _ _) as [r|]; cbn [mbind result_bind];
      [|done].
    destruct (interp_image periodic _); cbn [mbind result_bind]; [|done].
    apply Hq. by eapply Hbuilt.
  - unfold getLensing.
    destruct (built self) as [[[[[i1 i2] ik] g0] i]|] eqn:Eb;
      cbn [mbind result_bind]; [|done].
    destruct (theoryToObserved _ _ _) as [r|]; cbn [mbind result_bind];
      [|done].
    destruct (interp_image periodic (amap _ _)); cbn [mbind result_bind];
      [|done].
    destruct (interp_image periodic (np_array r.1.1));
      cbn [mbind result_bind]; [|done].
    destruct (interp_image periodic (np_array r.1.2));
      cbn [mbind result_bind]; [|done].
    apply Hq. by eapply Hbuilt.
Qed.

(** X13. getLensing agrees with the separate queries: when it returns,
    getShear (with [reduced=True]) returns its shears and getMagnification
    its magnifications, with the same warnings. *)
Theorem getLensing_agrees_with_getShear_getMagnification
    (self : PowerSpectrum) (pos : list (R * R)) (periodic : bool)
    (interp : option Interpolant) (l : list (R * R * R)) (w : list warning) :
  getLensing self pos periodic interp = (Ok l, w) →
  getShear self pos true periodic interp = (Ok (fst <$> l), w) ∧
  getMagnification self pos periodic interp = (Ok (snd <$> l), w).
Proof.
  unfold getLensing, getShear, getMagnification.
  destruct (built self) as [[[[[i1 i2] ik] g] i]|];
    cbn [mbind result_bind]; [|done].
  destruct (theoryToObserved _ _ _) as [r|]; cbn [mbind result_bind fst snd];
    [|done].
  destruct (interp_image periodic (amap _ _)) as [amu|];
    cbn [mbind result_bind]; [|done].
  destruct (interp_image periodic (np_array r.1.1)) as [a1|];
    cbn [mbind result_bind]; [|done].
  destruct (interp_image periodic (np_array r.1.2)) as [a2|];
    cbn [mbind result_bind]; [|done].
  intros Hl.
  pose proof (query_loop_fmap (fst : R * R * R → R * R) g periodic (0, 0, 1)
    (λ c, (xValue a1 (default i interp) Quintic c,
           xValue a2 (default i interp) Quintic c,
           xValue amu (default i interp) Quintic c + 1)) pos) as H1.
  pose proof (query_loop_fmap (snd : R * R * R → R) g periodic (0, 0, 1)
    (λ c, (xValue a1 (default i interp) Quintic c,
           xValue a2 (default i interp) Quintic c,
           xValue amu (default i interp) Quintic c + 1)) pos) as H2.
  rewrite Hl in H1, H2. cbn [fst snd rmap] in H1, H2. done.
Qed.
End QueryProperties.

(** ** Periodic wrapping *)

Open Scope R_scope.

Lemma py_mod_range a d :
  0 < d →
  ∃ k : Z, py_mod a d = Ok (a - IZR k * d) ∧ 0 <= a - IZR k * d < d.
Proof.
  intros Hd. exists (Int_part (a / d)). unfold py_mod.
  rewrite Reqb_false by lra. split; [f_equal; ring|].
  destruct (base_Int_part (a / d)) as [H1 H2].
  assert (Hq : a / d * d = a) by (field; lra).
  set (t := a / d) in *. set (z := IZR (Int_part t)) in *.
  split; nra.
Qed.

Lemma py_mod_shift a d (k : Z) :
  0 < d → 0 <= a < d → py_mod (a + IZR k * d) d = Ok a.
Proof.
  intros Hd Ha. unfold py_mod. rewrite Reqb_false by lra.
  assert (Hq : a / d * d = a) by (field; lra).
  assert (Ht : 0 <= a / d < 1) by (set (t := a / d) in *; split; nra).
  assert (Hz : Int_part ((a + IZR k * d) / d) = k).
  { symmetry. apply Int_part_spec.
    replace ((a + IZR k * d) / d) with (a / d + IZR k) by (field; lra).
    lra. }
  rewrite Hz. f_equal. ring.
Qed.

Lemma wrap_pos_fold (b : BoundsD) (p : R * R) :
  xmin b < xmax b → ymin b < ymax b →
  let dx := xmax b - xmin b in
  let dy := ymax b - ymin b in
  (∃ (q : R * R) (kx ky : Z),
     wrap_pos b p = Ok q ∧
     q = (p.1 - IZR kx * dx, p.2 - IZR ky * dy) ∧
     xmin b <= q.1 < xmax b ∧ ymin b <= q.2 < ymax b ∧
     bounds_includes b q = true) ∧
  (xmin b <= p.1 < xmax b → ymin b <= p.2 < ymax b →
   ∀ kx ky : Z, wrap_pos b (p.1 + IZR kx * dx, p.2 + IZR ky * dy) = Ok p).
Proof.
  intros Hx Hy dx dy. split.
  - destruct (py_mod_range (p.1 - xmin b) dx) as (kx & Ex & Rx);
      [unfold dx; lra|].
    destruct (py_mod_range (p.2 - ymin b) dy) as (ky & Ey & Ry);
      [unfold dy; lra|].
    exists (p.1 - IZR kx * dx, p.2 - IZR ky * dy), kx, ky.
    unfold wrap_pos. fold dx dy. rewrite Ex, Ey.
    cbn [mbind result_bind fst snd].
    split; [f_equal; f_equal; ring|]. split; [done|].
    assert (Bx : xmin b <= p.1 - IZR kx * dx < xmax b) by (unfold dx in *; lra).
    assert (By : ymin b <= p.2 - IZR ky * dy < ymax b) by (unfold dy in *; lra).
    split; [done|]. split; [done|].
    unfold bounds_includes, bounds_defined. cbn [fst snd].
    by rewrite !Rleb_true by lra.
  - intros Bx By kx ky. unfold wrap_pos. fold dx dy. cbn [fst snd].
    replace (p.1 + IZR kx * dx - xmin b) with ((p.1 - xmin b) + IZR kx * dx)
      by ring.
    replace (p.2 + IZR ky * dy - ymin b) with ((p.2 - ymin b) + IZR ky * dy)
      by ring.
    rewrite !py_mod_shift by (unfold dx, dy; lra).
    cbn [mbind result_bind]. destruct p as [x y]. cbn [fst snd].
    f_equal. f_equal; ring.
Qed.

(** X14. For a box of positive width and height, the periodic treatment
    moves a position by whole multiples of the box size to a point of
    [[xmin, xmax) x [ymin, ymax)], which the bounds include; and every
    translate of a point of that half-open box by whole box sizes is
    mapped back to the point. *)
Theorem wrap_pos_periodic (b : BoundsD) (p : R * R) :
  xmin b < xmax b → ymin b < ymax b →
  let dx := xmax b - xmin b in
  let dy := ymax b - ymin b in
  (∃ (q : R * R) (kx ky : Z),
     wrap_pos b p = Ok q ∧
     q = (p.1 - IZR kx * dx, p.2 - IZR ky * dy) ∧
     xmin b <= q.1 < xmax b ∧ ymin b <= q.2 < ymax b ∧
     bounds_includes b q = true) ∧
  (xmin b <= p.1 < xmax b → ymin b <= p.2 < ymax b →
   ∀ kx ky : Z, wrap_pos b (p.1 + IZR kx * dx, p.2 + IZR ky * dy) = Ok p).
Proof. apply wrap_pos_fold. Qed.

Open Scope nat_scope.

Lemma wrap_index m b i :
  0 < m → b ≤ m → i < m + 2 * b →
  Nat.modulo (i + m - b) m
  = if i <? b then i + m - b else if i <? b + m then i - b else i - b - m.
Proof.
  intros Hm Hb Hi.
  destruct (Nat.ltb_spec i b); [|destruct (Nat.ltb_spec i (b + m))].
  - apply Nat.mod_small. lia.
  - replace (i + m - b) with ((i - b) + 1 * m) by lia.
    rewrite Nat.Div0.mod_add. apply Nat.mod_small. lia.
  - replace (i + m - b) with ((i - b - m) + 2 * m) by lia.
    rewrite Nat.Div0.mod_add. apply Nat.mod_small. lia.
Qed.

Lemma lookup2_assign_sub {A} (w im : arr2 A) m n y0 x0 h wd sy sx i j :
  shape im m n → sy + h ≤ m → sx + wd ≤ n →
  lookup2 (assign_block w (seq y0 h) (seq x0 wd)
             (sub_block im (seq sy h) (seq sx wd))) i j
  = v ← lookup2 w i j;
    Some (if (y0 <=? i) && (i <? y0 + h) && (x0 <=? j) && (j <? x0 + wd)
          then default v (lookup2 im (sy + (i - y0)) (sx + (j - x0)))
          else v).
Proof.
  intros Him Hy Hx. rewrite lookup2_assign_block.
  destruct (lookup2 w i j) as [v|]; [|done].
  cbn [mbind option_bind]. f_equal.
  rewrite !index_of_seq.
  destruct (Nat.leb_spec y0 i), (Nat.ltb_spec i (y0 + h)); cbn [andb]; try done.
  destruct (Nat.leb_spec x0 j), (Nat.ltb_spec j (x0 + wd)); cbn [andb];
    try done.
  rewrite (lookup2_sub_block im m n).
  - rewrite !lookup_seq_lt by lia. reflexivity.
  - done.
  - apply Forall_forall. intros t Ht%elem_of_seq. lia.
  - apply Forall_forall. intros t Ht%elem_of_seq. lia.
Qed.

Lemma sub_block_all {A} (im : arr2 A) m n :
  shape im m n → sub_block im (seq 0 m) (seq 0 n) = im.
Proof.
  intros Him.
  assert (Hb : ∀ k, Forall (λ i, i < k) (seq 0 k)).
  { intros k. apply Forall_forall. intros t Ht%elem_of_seq. lia. }
  pose proof (shape_sub_block im m n _ _ Him (Hb m) (Hb n)) as Hs.
  rewrite !length_seq in Hs.
  apply (arr2_ext _ _ m n Hs Him). intros i j Hi Hj.
  rewrite (lookup2_sub_block im m n) by done.
  by rewrite !lookup_seq_lt by done.
Qed.

Lemma wrap_image_cells (im : arr2 R) (m n border : nat) :
  shape im m n → 0 < m → border ≤ m → border < n →
  ∃ w,
    _wrap_image im border = Ok w ∧
    shape w (m + 2 * border) (n + 2 * border) ∧
    ∀ i j, i < m + 2 * border → j < n + 2 * border →
      is_Some (lookup2 w i j) ∧
      lookup2 w i j
      = lookup2 im (Nat.modulo (i + m - border) m)
                   (Nat.modulo (j + n - border) n).
Proof.
  intros Him Hm Hbm Hbn. unfold _wrap_image.
  rewrite (nrows_shape _ _ _ Him), (ncols_shape _ _ _ Him) by done.
  destruct (Z.ltb_spec (Z.of_nat n - 1) (Z.of_nat border)); [lia|].
  eexists. split; [reflexivity|]. split.
  { repeat apply shape_assign_block. apply shape_replicate. }
  intros i j Hi Hj.
  match goal with
  | |- context [assign_block ?x (seq border m) (seq border n) im] =>
      replace (assign_block x (seq border m) (seq border n) im)
        with (assign_block x (seq border m) (seq border n)
                (sub_block im (seq 0 m) (seq 0 n)))
        by (by rewrite (sub_block_all im m n))
  end.
  rewrite !(lookup2_assign_sub _ im m n) by (done || lia).
  fold (np_empty 0%R (m + 2 * border) (n + 2 * border)).
  rewrite (lookup2_np_empty 0%R) by done. cbn [mbind option_bind].
  rewrite !wrap_index by lia.
  assert (HS : ∀ a b, a < m → b < n → ∃ v, lookup2 im a b = Some v).
  { intros a b Ha Hb. by apply (lookup2_Some im m n). }
  destruct (Nat.ltb_spec i border), (Nat.ltb_spec i (border + m)),
    (Nat.ltb_spec j border), (Nat.ltb_spec j (border + n)); try lia.
  all: repeat match goal with
    | |- context [?a <=? ?b] => destruct (Nat.leb_spec a b); try lia
    | |- context [?a <? ?b] => destruct (Nat.ltb_spec a b); try lia
    end; cbn [andb].
  all: match goal with
    | |- _ ∧ _ = lookup2 ?arr ?a ?b =>
        destruct (HS a b) as [v Hv]; [lia|lia|]; rewrite Hv
    end.
  all: match goal with
    | |- context [lookup2 ?arr ?a ?b] =>
        replace (lookup2 arr a b) with (Some v) by (rewrite <- Hv; f_equal; lia)
    end.
  all: cbn; split; [by eexists|reflexivity].
Qed.

(** X15. [_wrap_image] of an [m x n] image with [border <= m] and
    [border < n] is the [(m + 2 border) x (n + 2 border)] periodic
    extension of the image: cell [(i, j)] holds the image's cell
    [((i - border) mod m, (j - border) mod n)]. *)
Theorem wrap_image_is_periodic_extension (im : arr2 R) (m n border : nat) :
  shape im m n → 0 < m → border ≤ m → border < n →
  ∃ w,
    _wrap_image im border = Ok w ∧
    shape w (m + 2 * border) (n + 2 * border) ∧
    ∀ i j, i < m + 2 * border → j < n + 2 * border →
      is_Some (lookup2 w i j) ∧
      lookup2 w i j
      = lookup2 im (Nat.modulo (i + m - border) m)
                   (Nat.modulo (j + n - border) n).
Proof. apply wrap_image_cells. Qed.

(** ** Periodic queries *)

Open Scope R_scope.

Lemma ncols_shape_le {A} (a : arr2 A) r c : shape a r c → (ncols a ≤ c)%nat.
Proof.
  intros [_ Hc]. destruct a as [|row a]; cbn; [lia|].
  apply Forall_cons in Hc as [-> _]. done.
Qed.

Lemma wrap_image_small (im : arr2 R) r c :
  shape im r c → (c ≤ 7)%nat → _wrap_image im 7 = Raise RuntimeError.
Proof.
  intros Hs Hc. unfold _wrap_image.
  pose proof (ncols_shape_le _ _ _ Hs).
  destruct (Z.ltb_spec (Z.of_nat (ncols im) - 1) (Z.of_nat 7)); [done|lia].
Qed.

Lemma np_shape_square (a : arr2 R) N :
  shape a N N → np_shape (LArray a) = [N; N].
Proof.
  intros Ha. cbn [np_shape]. rewrite (nrows_shape _ _ _ Ha).
  destruct N as [|N].
  - destruct Ha as [Ha _]. by destruct a.
  - by rewrite (ncols_shape _ _ _ Ha) by lia.
Qed.

Section PeriodicQueries.
Context `{Numpy} `{Galsim}.

Lemma query_loop_periodic {A} (g : Geometry) (outside : A) inside pos :
  xmin (bounds g) < xmax (bounds g) → ymin (bounds g) < ymax (bounds g) →
  query_loop g true outside inside pos
  = (Ok ((λ p, inside (pos_div (pos_sub (folded (bounds g) p) (center g))
                         (grid_spacing g))) <$> pos), []).
Proof.
  intros Hx Hy. induction pos as [|p pos IH]; [done|].
  cbn [query_loop negb]. rewrite IH, fmap_cons.
  destruct (bounds_includes (bounds g) p) eqn:E; cbn [negb mbind result_bind].
  - assert (folded (bounds g) p = p) as ->; [|done].
    unfold folded. by rewrite E.
  - unfold wrap_pos, py_mod. rewrite !Reqb_false by lra.
    cbn [mbind result_bind].
    assert (folded (bounds g) p
            = (p.1 - xmin (bounds g) -
               (xmax (bounds g) - xmin (bounds g)) *
               IZR (Int_part ((p.1 - xmin (bounds g)) /
                              (xmax (bounds g) - xmin (bounds g)))) +
               xmin (bounds g),
               p.2 - ymin (bounds g) -
               (ymax (bounds g) - ymin (bounds g)) *
               IZR (Int_part ((p.2 - ymin (bounds g)) /
                              (ymax (bounds g) - ymin (bounds g)))) +
               ymin (bounds g))) as ->; [|done].
    unfold folded. by rewrite E.
Qed.

(** X16. On a built grid of side at most 7 every query with
    [periodic=True] raises [RuntimeError] (the image is too small for the
    border of 7 cells), with no warning. *)
Theorem periodic_queries_need_eight_columns (self : PowerSpectrum)
    (im_g1 im_g2 im_kappa : arr2 R) (g : Geometry) (i : Interpolant)
    (N : nat) (pos : list (R * R)) (reduced : bool)
    (interp : option Interpolant) :
  built self = Ok (im_g1, im_g2, im_kappa, g, i) →
  shape im_g1 N N → shape im_g2 N N → shape im_kappa N N →
  (N ≤ 7)%nat →
  getShear self pos reduced true interp = (Raise RuntimeError, []) ∧
  getConvergence self pos true interp = (Raise RuntimeError, []) ∧
  getMagnification self pos true interp = (Raise RuntimeError, []) ∧
  getLensing self pos true interp = (Raise RuntimeError, []).
Proof.
  intros Hb S1 S2 Sk HN.
  assert (H12 : np_shape (LArray im_g1) = np_shape (LArray im_g2)).
  { by rewrite !(np_shape_square _ N). }
  assert (Hk1 : np_shape (LArray im_kappa) = np_shape (LArray im_g1)).
  { by rewrite !(np_shape_square _ N). }
  pose proof (theoryToObserved_array im_g1 im_g2 im_kappa H12 Hk1) as Htto.
  assert (W : ∀ a : arr2 R, shape a N N → _wrap_image a 7 = Raise RuntimeError).
  { intros a Ha. by eapply wrap_image_small. }
  assert (Hz : ∀ f a b, shape a N N → shape b N N →
            shape (zip2 (A:=R) (B:=R) (D:=R) f a b) N N).
  { intros. by apply shape_zip2. }
  split; [|split; [|split]].
  - unfold getShear. rewrite Hb. cbn [mbind result_bind].
    destruct reduced.
    + rewrite Htto. cbn [mbind result_bind fst snd np_array interp_image].
      rewrite !W by auto. reflexivity.
    + cbn [mbind result_bind fst snd interp_image].
      rewrite !W by auto. reflexivity.
  - unfold getConvergence. rewrite Hb. cbn [mbind result_bind interp_image].
    rewrite !W by auto. reflexivity.
  - unfold getMagnification. rewrite Hb. cbn [mbind result_bind].
    rewrite Htto. cbn [mbind result_bind fst snd np_array interp_image].
    rewrite W; [reflexivity|]. apply shape_amap, shape_zip2; [|done].
    by apply shape_zip2.
  - unfold getLensing. rewrite Hb. cbn [mbind result_bind].
    rewrite Htto. cbn [mbind result_bind fst snd np_array interp_image].
    rewrite (W (amap _ _)); [reflexivity|].
    apply shape_amap, shape_zip2; [|done]. by apply shape_zip2.
Qed.

(** X17. On a built grid of side at least 8 with a box of positive size,
    getConvergence with [periodic=True] returns for every position, without
    warning: it interpolates the periodic extension of the convergence
    image at the position folded into the bounds. *)
Theorem periodic_convergence_wraps (self : PowerSpectrum)
    (im_g1 im_g2 im_kappa : arr2 R) (g : Geometry) (i : Interpolant)
    (N : nat) (pos : list (R * R)) (interp : option Interpolant) :
  built self = Ok (im_g1, im_g2, im_kappa, g, i) →
  shape im_kappa N N → (8 ≤ N)%nat →
  xmin (bounds g) < xmax (bounds g) → ymin (bounds g) < ymax (bounds g) →
  ∃ w,
    _wrap_image im_kappa 7 = Ok w ∧
    shape w (N + 14) (N + 14) ∧
    (∀ r c, (r < N + 14)%nat → (c < N + 14)%nat →
       lookup2 w r c
       = lookup2 im_kappa (Nat.modulo (r + N - 7) N) (Nat.modulo (c + N - 7) N)) ∧
    getConvergence self pos true interp
    = (Ok ((λ p, xValue w (default i interp) Quintic
                   (pos_div (pos_sub (folded (bounds g) p) (center g))
                      (grid_spacing g))) <$> pos), []) ∧
    ∀ p, bounds_includes (bounds g) (folded (bounds g) p) = true.
Proof.
  intros Hb Sk HN Hx Hy.
  destruct (wrap_image_cells im_kappa N N 7 Sk)
    as (w & Hw & Sw & Lw); [lia..|].
  exists w. split; [done|]. split; [done|].
  split; [intros r c Hr Hc; by apply Lw|]. split.
  - unfold getConvergence. rewrite Hb.
    cbn [mbind result_bind interp_image]. rewrite Hw.
    cbn [mbind result_bind]. by apply query_loop_periodic.
  - intros p. unfold folded.
    destruct (bounds_includes (bounds g) p) eqn:E; [done|].
    destruct (wrap_pos_fold (bounds g) p Hx Hy)
      as [(q & kx & ky & Hq & _ & _ & _ & Hin) _].
    unfold wrap_pos, py_mod in Hq. rewrite !Reqb_false in Hq by lra.
    cbn [mbind result_bind] in Hq. injection Hq as <-. exact Hin.
Qed.
End PeriodicQueries.

(** ** The band limits *)

Open Scope R_scope.

Lemma ln_95_neg : ln (95 / 100) < 0.
Proof. rewrite <- ln_1. apply ln_increasing; lra. Qed.

(** X18. The soft band limit takes values strictly between 0 and 1, is
    0.05 at [k = k_max] and 0.95 at [k = 0.95 k_max], as the comment in the
    source requires of its constants. *)
Theorem softening_function_values (k k_max : R) :
  0 < k → 0 < k_max →
  0 < _softening_function k k_max < 1 ∧
  _softening_function k_max k_max = 5 / 100 ∧
  _softening_function (95 / 100 * k_max) k_max = 95 / 100.
Proof.
  intros Hk0 Hk. pose proof PI_RGT_0 as Hpi.
  split; [|split].
  - unfold _softening_function.
    set (x := _ * ln _ + _).
    destruct (atan_bound x) as [H1 H2].
    assert (Hq : (atan x + PI / 2) / PI * PI = atan x + PI / 2)
      by (field; lra).
    set (v := (atan x + PI / 2) / PI) in *. split; nra.
  - unfold _softening_function.
    replace (k_max / k_max) with 1 by (field; lra).
    rewrite ln_1, Rmult_0_r, Rplus_0_l, atan_tan by lra.
    field. lra.
  - unfold _softening_function.
    replace (95 / 100 * k_max / k_max) with (95 / 100) by (field; lra).
    pose proof ln_95_neg.
    replace ((tan (45 / 100 * PI) - tan (- (45 / 100) * PI)) / ln (95 / 100)
             * ln (95 / 100) + tan (- (45 / 100) * PI))
      with (tan (45 / 100 * PI)) by (field; lra).
    rewrite atan_tan by lra. field. lra.
Qed.

Section BandLimit.
Context `{Numpy} `{Galsim}.

(** X19. With the hard band limit the power function handed to the
    realizer vanishes at every [k >= k_max], whatever the user's function
    returns there; for a spectrum in arcsec that is not a [Delta^2], it is
    the user's function below [k_max]. *)
Theorem hard_bandlimit_removes_power (self : PowerSpectrum) (f p : power_fn)
    (k_max : R) :
  0 <= scale self →
  wrap_power self _hard_cutoff k_max (Some f) = Some p →
  (∀ k v, k_max <= k → pf_call p k = Ok v → v = 0) ∧
  (delta2 self = false → scale self = 1 →
   ∀ k, k < k_max → pf_call p k = (v ← pf_call f k; Ok (v * 1))).
Proof.
  intros Hs [= <-]. split.
  - intros k v Hk. cbn [pf_call pf_lambda].
    assert (Hc : _hard_cutoff (scale self * k) (scale self * k_max) = 0).
    { unfold _hard_cutoff. rewrite Rltb_false; [done|]. nra. }
    assert (Hc' : _hard_cutoff k k_max = 0).
    { unfold _hard_cutoff. by rewrite Rltb_false. }
    rewrite Hc, Hc'.
    destruct (delta2 self); [|destruct (negb _)].
    all: destruct (pf_call f _); cbn [mbind result_bind]; [|done].
    all: intros [= <-]; ring.
  - intros Hd H1 k Hk. cbn [pf_call pf_lambda]. rewrite Hd, H1, Reqb_refl.
    cbn [negb]. unfold _hard_cutoff. by rewrite Rltb_true.
Qed.
End BandLimit.

(** ** The spin factor *)

Open Scope R_scope.

Lemma C_eq (z w : C) : Re z = Re w → Im z = Im w → z = w.
Proof. destruct z, w. cbn. by intros -> ->. Qed.

Lemma exp2ipsi_cell (x y p : R) :
  p ≠ 0 → x ≠ 0 ∨ y ≠ 0 →
  let z := Cadd (RtoC (x / p)) (Cmul (RtoC (y / p)) Ci) in
  Cdiv (Cmul z z) (Cmul z (Cconj z)) = phase2 x y.
Proof.
  intros Hp Hxy z.
  assert (Hn : x ^ 2 + y ^ 2 ≠ 0).
  { destruct Hxy; nra. }
  subst z.
  apply C_eq; cbn [Cdiv Cmul Cadd Cconj RtoC Ci Re Im phase2]; field.
  all: split; [done|split; [done|]].
  all: replace ((x * x - y * - y) * (x * x - y * - y)
                + (x * - y + y * x) * (x * - y + y * x))
         with ((x ^ 2 + y ^ 2) ^ 2) by ring.
  all: by apply pow_nonzero.
Qed.

Lemma phase2_unit (x y : R) :
  x ≠ 0 ∨ y ≠ 0 → Re (phase2 x y) ^ 2 + Im (phase2 x y) ^ 2 = 1.
Proof.
  intros Hxy. assert (Hn : x ^ 2 + y ^ 2 ≠ 0) by (destruct Hxy; nra).
  cbn [phase2 Re Im]. field. done.
Qed.

Lemma fftfreq_0 n : (0 < n)%nat → fftfreq n 0 = 0.
Proof.
  intros Hn. unfold fftfreq. destruct (Nat.ltb_spec 0 ((n + 1) / 2)); [|lia].
  cbn [INR]. unfold Rdiv. ring.
Qed.

(** The cells of the array [_generate_exp2ipsi] builds from the frequency
    grids of side [n] divided by [p]. *)
Lemma generate_exp2ipsi_cells (kxa kya : arr2 R) (n : nat) (p : R) e :
  (0 < n)%nat → p ≠ 0 → shape kxa n n → shape kya n n →
  (∀ i j, (i < n)%nat → (j < n)%nat →
     lookup2 kxa i j = Some (2 * PI * fftfreq n j / p) ∧
     lookup2 kya i j = Some (2 * PI * fftfreq n i / p)) →
  _generate_exp2ipsi kxa kya = Ok e →
  shape e n n ∧
  lookup2 e 0 0 = Some C0 ∧
  ∀ i j, (i < n)%nat → (j < n)%nat → (i, j) ≠ (0%nat, 0%nat) →
    lookup2 e i j = Some (phase2 (fftfreq n j) (fftfreq n i)).
Proof.
  intros Hn Hp Hx Hy Hk Ee.
  unfold _generate_exp2ipsi in Ee.
  destruct (setitem _ 0 0 _) as [ksq|] eqn:Eq; cbn [mbind result_bind] in Ee;
    [|done].
  injection Ee as <-.
  assert (Hsh : shape ksq n n).
  { eapply shape_setitem; [done|]. apply shape_amap. by apply shape_zip2. }
  apply setitem_Ok in Eq as [_ ->].
  assert (Hcell : ∀ i j, (i < n)%nat → (j < n)%nat →
    lookup2
      (zip2 (λ z q, Cdiv (Cmul z z) q)
         (zip2 (λ x y, Cadd (RtoC x) (Cmul (RtoC y) Ci)) kxa kya)
         (assign_block
            (amap (λ z, Cmul z (Cconj z))
               (zip2 (λ x y, Cadd (RtoC x) (Cmul (RtoC y) Ci)) kxa kya))
            [0%nat] [0%nat] [[RtoC 1]])) i j
    = let z := Cadd (RtoC (2 * PI * fftfreq n j / p))
                 (Cmul (RtoC (2 * PI * fftfreq n i / p)) Ci) in
      Some (Cdiv (Cmul z z)
              (if ((0 =? i) && (0 =? j))%nat then RtoC 1
               else Cmul z (Cconj z)))).
  { intros i j Hi Hj. destruct (Hk i j Hi Hj) as [Hxl Hyl].
    rewrite lookup2_zip2, lookup2_setitem, lookup2_amap, !lookup2_zip2.
    rewrite Hxl, Hyl. cbn [mbind option_bind fmap option_fmap option_map].
    by destruct ((0 =? i) && (0 =? j))%nat. }
  split; [|split].
  - apply shape_zip2; [by apply shape_zip2|done].
  - rewrite Hcell by done. cbn [Nat.eqb andb]. cbv zeta. f_equal.
    rewrite fftfreq_0 by done.
    apply C_eq; cbn [Cdiv Cmul Cadd RtoC Ci Re Im C0]; field; done.
  - intros i j Hi Hj Hij. rewrite Hcell by done.
    assert (Hb : ((0 =? i) && (0 =? j))%nat = false).
    { destruct i, j; try done. }
    rewrite Hb. cbv zeta.
    assert (Hf : fftfreq n j ≠ 0 ∨ fftfreq n i ≠ 0).
    { destruct j as [|j]; [right|left]; apply fftfreq_nonzero; try lia.
      destruct i; [done|lia]. }
    assert (Hf2 : 2 * PI * fftfreq n j ≠ 0 ∨ 2 * PI * fftfreq n i ≠ 0).
    { pose proof PI_RGT_0. destruct Hf; [left|right]; nra. }
    rewrite (exp2ipsi_cell _ _ p Hp Hf2). f_equal.
    pose proof PI_RGT_0.
    assert (fftfreq n j ^ 2 + fftfreq n i ^ 2 ≠ 0) by (destruct Hf; nra).
    apply C_eq; cbn [Re Im phase2]; field; split; try done; nra.
Qed.

Lemma set_size_exp2ipsi n p self :
  set_size n p = Ok self → _generate_exp2ipsi (kx self) (ky self)
                           = Ok (exp2ipsi self).
Proof.
  unfold set_size.
  destruct (kxky (n, n)) as [[kx0 ky0]|]; cbn [mbind result_bind]; [|done].
  destruct (_generate_exp2ipsi _ _) as [e|] eqn:Ee; cbn [mbind result_bind];
    [|done].
  by intros [= <-].
Qed.

(** X20. The spin factor [exp2ipsi] that [set_size] computes is 0 in the
    bin of [k = 0] and a complex number of modulus 1 elsewhere,
    [(kx + i ky)^2 / |k|^2]; it does not depend on the pixel size. *)
Theorem exp2ipsi_is_a_phase (n : nat) (p : R) (self : PowerSpectrumRealizer) :
  set_size n p = Ok self → p ≠ 0 →
  shape (exp2ipsi self) n n ∧
  lookup2 (exp2ipsi self) 0 0 = Some C0 ∧
  ∀ i j, (i < n)%nat → (j < n)%nat → (i, j) ≠ (0%nat, 0%nat) →
    ∃ e, lookup2 (exp2ipsi self) i j = Some e ∧
         e = phase2 (fftfreq n j) (fftfreq n i) ∧
         Re e ^ 2 + Im e ^ 2 = 1.
Proof.
  intros Hs Hp.
  pose proof (set_size_pos _ _ _ Hs) as Hn.
  destruct (shape_kx _ _ _ Hs) as [Hx Hy].
  destruct (generate_exp2ipsi_cells (kx self) (ky self) n p (exp2ipsi self))
    as (Hsh & H0 & Hc); try done.
  - intros i j Hi Hj. by apply lookup2_kx.
  - by eapply set_size_exp2ipsi.
  - split; [done|]. split; [done|].
    intros i j Hi Hj Hij. eexists. split; [by apply Hc|]. split; [done|].
    apply phase2_unit.
    destruct j as [|j]; [right|left]; apply fftfreq_nonzero; try lia.
    destruct i; [done|lia].
Qed.

(** ** The Hermitian completion, again *)

Open Scope nat_scope.

Lemma herm_spec_half_plane n a b i j :
  i < n → j < n →
  (∀ i' j', i' < n → j' ≤ n / 2 → cell a i' j' = cell b i' j') →
  herm_spec n a i j = herm_spec n b i j.
Proof.
  intros Hi Hj Hab. unfold herm_spec. cbv zeta.
  destruct (Nat.eqb_spec j 0); [|destruct (Nat.ltb_spec j ((n + 1) / 2))].
  - destruct (Nat.eqb_spec i 0); [by rewrite Hab by lia|].
    destruct (Nat.ltb_spec i ((n + 1) / 2)); [by rewrite Hab by lia|].
    destruct (Nat.eqb_spec (Nat.modulo n 2) 0), (Nat.eqb_spec i (n / 2));
      cbn [andb]; by rewrite Hab by lia.
  - apply Hab; lia.
  - destruct (Nat.eqb_spec (Nat.modulo n 2) 0), (Nat.eqb_spec j (n / 2));
      cbn [andb].
    2-4: destruct (Nat.eqb_spec i 0); by rewrite Hab by lia.
    destruct (Nat.eqb_spec i 0); [by rewrite Hab by lia|].
    destruct (Nat.ltb_spec i ((n + 1) / 2)); [by rewrite Hab by lia|].
    destruct (Nat.eqb_spec i (n / 2)); by rewrite Hab by lia.
Qed.

Lemma cell_ext (a b : arr2 C) n :
  shape a n n → shape b n n →
  (∀ i j, i < n → j < n → cell a i j = cell b i j) → a = b.
Proof.
  intros Ha Hb Hc. apply (arr2_ext _ _ n n Ha Hb). intros i j Hi Hj.
  rewrite (lookup2_cell a n n), (lookup2_cell b n n) by done.
  f_equal. by apply Hc.
Qed.

(** X21. [_make_hermitian] reads only the columns [0 .. N/2] of its
    argument (what [np.empty] left in the others never shows), leaves the
    columns [1 .. (N+1)/2 - 1] as they are, and is idempotent. *)
Theorem make_hermitian_reads_half_plane (self : PowerSpectrumRealizer)
    (n : nat) (a b : arr2 C) :
  sized self n → shape a n n → shape b n n →
  (∀ i j, i < n → j ≤ n / 2 → lookup2 a i j = lookup2 b i j) →
  _make_hermitian self a = _make_hermitian self b ∧
  _make_hermitian self (_make_hermitian self a) = _make_hermitian self a ∧
  ∀ i j, i < n → 1 ≤ j → j < (n + 1) / 2 →
    lookup2 (_make_hermitian self a) i j = lookup2 a i j.
Proof.
  intros Hs Ha Hb Hab.
  pose proof (shape_make_hermitian self a n Hs Ha) as Hma.
  pose proof (shape_make_hermitian self b n Hs Hb) as Hmb.
  assert (Hcab : ∀ i j, i < n → j ≤ n / 2 → cell a i j = cell b i j).
  { intros i j Hi Hj. unfold cell. by rewrite Hab. }
  split; [|split].
  - apply (cell_ext _ _ n Hma Hmb). intros i j Hi Hj.
    rewrite !(make_hermitian_cell self _ n) by done.
    by apply herm_spec_half_plane.
  - apply (cell_ext _ _ n); [by apply shape_make_hermitian|done|].
    intros i j Hi Hj.
    rewrite (make_hermitian_cell self _ n) by done.
    rewrite (make_hermitian_cell self a n) by done.
    assert (Hc : ∀ i' j', i' < n → j' < n →
              cell (_make_hermitian self a) i' j' = herm_spec n a i' j').
    { intros. by apply make_hermitian_cell. }
    unfold herm_spec at 1. cbv zeta.
    destruct (Nat.eqb_spec (Nat.modulo n 2) 0) as [He|Ho].
    + destruct (Nat.eqb_spec j 0); [|destruct (Nat.ltb_spec j ((n + 1) / 2));
        [|destruct (Nat.eqb_spec j (n / 2))]];
      (destruct (Nat.eqb_spec i 0); [|destruct (Nat.ltb_spec i ((n + 1) / 2));
        [|destruct (Nat.eqb_spec i (n / 2))]]);
      cbn [andb]; rewrite ?Hc by lia; unfold herm_spec; cbv zeta;
      bool_tac; cbn [andb];
      rewrite ?Cconj_involutive, ?Cconj_Creal; try reflexivity;
      try (subst; reflexivity).
      all: try (f_equal; f_equal; lia).
    + destruct (Nat.eqb_spec j 0); [|destruct (Nat.ltb_spec j ((n + 1) / 2))];
      (destruct (Nat.eqb_spec i 0); [|destruct (Nat.ltb_spec i ((n + 1) / 2))]);
      cbn [andb]; rewrite ?Hc by lia; unfold herm_spec; cbv zeta;
      bool_tac; cbn [andb];
      rewrite ?Cconj_involutive, ?Cconj_Creal; try reflexivity;
      try (subst; reflexivity).
      all: try (f_equal; f_equal; lia).
  - intros i j Hi Hj1 Hj2.
    rewrite (lookup2_cell _ n n), (lookup2_cell a n n) by (done || lia).
    f_equal. rewrite (make_hermitian_cell self a n) by (done || lia).
    unfold herm_spec. cbv zeta. bool_tac. reflexivity.
Qed.

(** ** The power array, again *)

Open Scope nat_scope.

Lemma sampled_k_shape n p self kk :
  set_size n p = Ok self → sampled_k self = Ok kk →
  2 ≤ n ∧ shape kk (n / 2 + 1) (n / 2 + 1).
Proof.
  intros Hs Hk. pose proof (set_size_pos _ _ _ Hs) as Hn.
  assert (H2 : 2 ≤ n).
  { destruct (decide (n = 1)) as [->|]; [|lia].
    revert Hk. unfold sampled_k.
    pose proof (set_size_sized _ _ _ Hs) as (_ & _ & -> & _ & _ & -> & _).
    destruct (shape_kx _ _ _ Hs) as [Hkx Hky].
    set (k0 := zip2 _ _ _).
    assert (Hk0 : shape k0 1 1).
    { unfold k0, getslice.
      rewrite (nrows_shape _ _ _ Hkx), (ncols_shape _ _ _ Hkx) by lia.
      rewrite (nrows_shape _ _ _ Hky), (ncols_shape _ _ _ Hky) by lia.
      apply shape_zip2;
        apply (shape_sub_block _ 1 1 (slice_list (sl_h 1) 1)
                 (slice_list (sl_h 1) 1)); auto using sl_h_bound. }
    destruct Hk0 as [Hlen _]. unfold getitem, lookup2.
    destruct k0 as [|r0 [|r1 k0]]; try done. }
  split; [done|].
  destruct (sampled_k_Ok n p self Hs H2) as (kk' & Hk' & Hsh).
  rewrite Hk in Hk'. by injection Hk' as <-.
Qed.

Lemma lookup2_mirrored self junk (P : arr2 R) n i j :
  sized self n → shape P (n / 2 + 1) (n / 2 + 1) →
  i < n → j ≤ n / 2 →
  lookup2 (mirrored self junk P) i j
  = lookup2 P (if i <=? n / 2 then i else n - i) j.
Proof.
  intros (Hx & Hy & Hikx & _ & _ & Hiky & Hikyp & Hikyn) HP Hi Hj.
  unfold mirrored, setslice, getslice.
  rewrite Hx, Hy, Hikx, Hiky, Hikyn, Hikyp.
  rewrite !nrows_assign_block, !ncols_assign_block.
  rewrite nrows_np_empty, ncols_np_empty by lia.
  rewrite (nrows_shape _ _ _ HP), (ncols_shape _ _ _ HP) by lia.
  rewrite !lookup2_assign_block, lookup2_np_empty by lia.
  cbn [mbind option_bind].
  rewrite !sl_h_list, !index_of_seq, index_of_sl_n.
  assert (Hp : slice_list (sl_p n) (n / 2 + 1) = seq 1 ((n + 1) / 2 - 1)).
  { unfold sl_p. rewrite (slice_list_pos 1).
    f_equal. lia. }
  rewrite Hp.
  replace (Nat.min (n / 2 + 1) n) with (n / 2 + 1) by lia.
  replace (Nat.min (n / 2 + 1) (n / 2 + 1)) with (n / 2 + 1) by lia.
  assert (Hb1 : Forall (λ i, i < n / 2 + 1) (seq 1 ((n + 1) / 2 - 1))).
  { apply Forall_forall. intros t Ht%elem_of_seq. lia. }
  assert (Hb2 : Forall (λ i, i < n / 2 + 1) (seq 0 (n / 2 + 1))).
  { apply Forall_forall. intros t Ht%elem_of_seq. lia. }
  destruct (Nat.leb_spec i (n / 2)).
  - bool_tac. cbn [andb]. 
    destruct (lookup2_Some P _ _ i j HP) as [v Hv]; [lia..|].
    replace (i - 0) with i by lia. replace (j - 0) with j by lia.
    by rewrite Hv.
  - bool_tac. cbn [andb].
    rewrite (lookup2_sub_block P _ _ _ _ _ _ HP Hb1 Hb2).
    rewrite !lookup_seq_lt by lia. cbn [mbind option_bind].
    destruct (lookup2_Some P _ _ (n - i) j HP) as [v Hv]; [lia..|].
    replace (1 + (n - 1 - i)) with (n - i) by lia.
    replace (0 + (j - 0)) with j by lia.
    by rewrite Hv.
Qed.

Lemma any_negative_false_inv (a : arr2 R) i j v :
  any_negative a = false → lookup2 a i j = Some v → (0 <= v)%R.
Proof.
  intros Ha Hl. destruct (Rle_dec 0 v) as [|Hn]; [done|].
  rewrite (any_negative_true a i j v) in Ha; [done|done|lra].
Qed.

Section PowerArrayProperties.
Context `{Numpy}.

(** X22. A power array that [_generate_power_array] returns has every
    cell set (the contents of [np.empty] never show), every value
    non-negative, and the rows of negative [ky] equal to the rows of the
    opposite positive [ky]. *)
Theorem power_array_is_filled_and_mirrored (n : nat) (p : R)
    (self : PowerSpectrumRealizer) (junk : R) (pf : power_fn) (arr : arr2 R) :
  set_size n p = Ok self →
  _generate_power_array self junk pf = Ok arr →
  shape arr n (n / 2 + 1) ∧
  (∀ junk', _generate_power_array self junk' pf = Ok arr) ∧
  (∀ i j, i < n → j ≤ n / 2 →
     ∃ v, lookup2 arr i j = Some v ∧ (0 <= v)%R) ∧
  (∀ i j, 0 < i → i < n → j ≤ n / 2 →
     lookup2 arr (n - i) j = lookup2 arr i j).
Proof.
  intros Hs Hg. pose proof (set_size_sized _ _ _ Hs) as Hsz.
  destruct (generate_power_array_origin _ _ _ _ _ _ Hs Hg) as [Hsh _].
  destruct (generate_power_array_Ok _ _ _ _ Hg)
    as (kk & P_k & Hk & Hc & H00 & Hneg & ->).
  destruct (sampled_k_shape _ _ _ _ Hs Hk) as [Hn Hkk].
  pose proof (call_arr2_Ok_shape _ _ _ _ _ Hc Hkk) as HP.
  set (P := assign_block P_k [0] [0] [[0%R]]) in *.
  assert (HP' : shape P (n / 2 + 1) (n / 2 + 1)) by (by apply shape_assign_block).
  assert (Hcell : ∀ jk i j, i < n → j ≤ n / 2 →
            lookup2 (mirrored self jk P) i j
            = lookup2 P (if i <=? n / 2 then i else n - i) j).
  { intros. by apply lookup2_mirrored. }
  split; [done|]. split; [|split].
  - intros junk'.
    assert (Hg' : ∃ arr', _generate_power_array self junk' pf = Ok arr'
                          ∧ arr' = mirrored self junk' P).
    { revert Hg. unfold _generate_power_array. rewrite Hk.
      cbn [mbind result_bind].
      destruct (match pf_table pf with Some _ => _ | None => _ end);
        cbn [mbind result_bind]; [|done].
      rewrite Hc. cbn [mbind result_bind].
      destruct (getitem P_k 0 1); cbn [mbind result_bind]; [|done].
      destruct (setitem P_k 0 0 0%R) as [P0|] eqn:E0; cbn [mbind result_bind];
        [|done].
      apply setitem_Ok in E0 as [_ ->]. fold P.
      destruct (any_negative P); [done|]. intros _. eauto. }
    destruct Hg' as (arr' & -> & ->). f_equal.
    apply (arr2_ext _ _ n (n / 2 + 1)); [by apply shape_mirrored..|].
    intros i j Hi Hj. rewrite !Hcell by lia. done.
  - intros i j Hi Hj. rewrite Hcell by done.
    destruct (lookup2_Some P _ _ (if i <=? n / 2 then i else n - i) j HP')
      as [v Hv]; [destruct (Nat.leb_spec i (n / 2)); lia|lia|].
    exists v. split; [done|]. by eapply any_negative_false_inv.
  - intros i j Hi0 Hi Hj. rewrite !Hcell by lia.
    destruct (Nat.leb_spec (n - i) (n / 2)), (Nat.leb_spec i (n / 2));
      f_equal; lia.
Qed.

(** X23. On a realizer just constructed, [recompute_power] succeeds and
    changes nothing; the instance holds the power functions it was
    given. *)
Theorem recompute_power_is_identity (n : nat) (p : R)
    (pE pB : option power_fn) (self : PowerSpectrumRealizer) :
  PowerSpectrumRealizer_init n p pE pB = Ok self →
  recompute_power self = Ok self ∧ p_E self = pE ∧ p_B self = pB.
Proof.
  unfold PowerSpectrumRealizer_init, recompute_power.
  destruct (set_size n p) as [self0|]; cbn [mbind result_bind]; [|done].
  intros Hp. destruct (set_power_exp2ipsi _ _ _ _ Hp) as (_ & _ & _ & _ & HE & HB).
  split; [|done]. rewrite HE, HB. revert Hp. unfold set_power.
  destruct pE as [fE|];
    [destruct (_generate_power_array self0 junkR fE) as [aE|] eqn:EE|];
    cbn [mbind result_bind]; try done.
  all: destruct pB as [fB|];
    [destruct (_generate_power_array self0 junkR fB) as [aB|] eqn:EB|];
    cbn [mbind result_bind mret result_ret]; try done.
  all: intros [= <-];
    change (_generate_power_array (Realizer _ _ _ _ _ _ _ _ _ _ _ _ _ _ _ _))
      with (_generate_power_array self0);
    rewrite ?EE, ?EB; reflexivity.
Qed.
End PowerArrayProperties.

(** ** calculateXi: the separations and the B mode *)

Open Scope R_scope.

Lemma Rpower_10_log10 x : 0 < x → Rpower 10 (log10 x) = x.
Proof.
  intros Hx. unfold Rpower, log10.
  assert (ln 10 ≠ 0).
  { assert (0 < ln 10); [|lra]. rewrite <- ln_1. apply ln_increasing; lra. }
  replace (ln x / ln 10 * ln 10) with (ln x) by (field; done).
  by apply exp_ln.
Qed.

Lemma np_logspace_ends a b n :
  (2 ≤ n)%nat →
  np_logspace a b n !! 0%nat = Some (Rpower 10 a) ∧
  np_logspace a b n !! (n - 1)%nat = Some (Rpower 10 b).
Proof.
  intros Hn. unfold np_logspace.
  rewrite !list_lookup_fmap, !lookup_seq_lt by lia.
  cbn [fmap option_fmap option_map].
  destruct (Nat.eqb_spec n 1); [lia|].
  assert (Hn1 : INR (n - 1) ≠ 0) by (apply not_0_INR; lia).
  split; f_equal; f_equal.
  - cbn [INR Nat.add]. ring.
  - rewrite Nat.add_0_l. field. done.
Qed.

Lemma rmapM_Raise_head {A B} (f : A → result B) (l : list A) e :
  l ≠ [] → (∀ x, f x = Raise e) → rmapM f l = Raise e.
Proof. intros Hl Hf. destruct l as [|x l]; [done|]. cbn. by rewrite Hf. Qed.

Section CalculateXiProperties.
Context `{Numpy} `{Galsim}.

(** X24. calculateXi raises [TypeError] whenever the instance has a B-mode
    power function and at least one separation is asked for: the code adds
    and negates the power functions themselves. *)
Theorem calculateXi_rejects_B_mode (self : PowerSpectrum)
    (grid_spacing : R) (ngrid kmax_factor kmin_factor n_theta : Z)
    (units : units_arg) (u : R) (bandlimit : bandlimit_arg) :
  is_Some (b_power_function self) →
  is_ok (_convert_power_function (e_power_function self)) = true →
  is_ok (_convert_power_function (b_power_function self)) = true →
  resolve_units units = Ok u →
  (0 < n_theta)%Z →
  bandlimit ≠ BandOther →
  let scale_fac := if negb (Reqb u 1) then 1 * u / 1 else 1 in
  let spacing :=
    if negb (Reqb u 1) then grid_spacing * scale_fac else grid_spacing in
  spacing ≠ 0 →
  IZR ngrid * spacing * IZR kmin_factor ≠ 0 →
  calculateXi self grid_spacing (PyInt ngrid) (PyInt kmax_factor)
    (PyInt kmin_factor) (PyInt n_theta) units bandlimit
  = Raise TypeError.
Proof.
  intros HB He Hb Hu Hn Hbl scale_fac spacing Hsp Hk.
  unfold calculateXi. cbn [check_int mbind result_bind]. rewrite Hu.
  cbn [mbind result_bind].
  destruct (Z.ltb_spec n_theta 0); [lia|]. cbn [mbind result_bind].
  destruct (_convert_power_function (e_power_function self)) as [e|] eqn:Ee;
    [|done].
  destruct (_convert_power_function (b_power_function self)) as [b|] eqn:Eb;
    [|done].
  cbn [mbind result_bind].
  assert (is_Some b) as [fb ->].
  { by apply (convert_power_function_Some (b_power_function self)). }
  fold scale_fac. fold spacing.
  rewrite !py_truediv_nonzero by done. cbn [mbind result_bind].
  destruct (bandlimit_func bandlimit) as [bl|] eqn:Ebl;
    [|by destruct bandlimit].
  cbn [mbind result_bind].
  rewrite (rmapM_Raise_head _ _ TypeError); [reflexivity| |].
  - intros Hnil. apply (f_equal length) in Hnil.
    rewrite length_np_logspace in Hnil. cbn in Hnil. lia.
  - intros th. cbn [wrap_power]. by destruct e.
Qed.

(** X25. When calculateXi returns (positive spacing and units, at least
    two separations), its three arrays have [n_theta] entries, and the
    separations run from the grid spacing to [ngrid * grid_spacing], in the
    units of the call. *)
Theorem calculateXi_theta_endpoints (self : PowerSpectrum)
    (grid_spacing : R) (ngrid kmax_factor kmin_factor n_theta : Z)
    (units : units_arg) (u : R) (bandlimit : bandlimit_arg)
    (theta xi_p xi_m : list R) :
  calculateXi self grid_spacing (PyInt ngrid) (PyInt kmax_factor)
    (PyInt kmin_factor) (PyInt n_theta) units bandlimit
  = Ok (theta, xi_p, xi_m) →
  resolve_units units = Ok u →
  0 < u → 0 < grid_spacing → (0 < ngrid)%Z → (2 ≤ n_theta)%Z →
  let n := Z.to_nat n_theta in
  length theta = n ∧ length xi_p = n ∧ length xi_m = n ∧
  theta !! 0%nat = Some grid_spacing ∧
  theta !! (n - 1)%nat = Some (IZR ngrid * grid_spacing).
Proof.
  intros Hc Hu Hu0 Hg Hng Hn n. revert Hc.
  unfold calculateXi. cbn [check_int mbind result_bind]. rewrite Hu.
  cbn [mbind result_bind].
  destruct (Z.ltb_spec n_theta 0); [lia|]. cbn [mbind result_bind].
  destruct (_convert_power_function (e_power_function self)) as [e|];
    cbn [mbind result_bind]; [|done].
  destruct (_convert_power_function (b_power_function self)) as [b|];
    cbn [mbind result_bind]; [|done].
  destruct (py_truediv (IZR kmax_factor * PI) _); cbn [mbind result_bind];
    [|done].
  destruct (bandlimit_func bandlimit) as [bl|]; cbn [mbind result_bind];
    [|done].
  destruct (py_truediv (2 * PI) _); cbn [mbind result_bind]; [|done].
  destruct (rmapM _ _) as [xi|] eqn:Exi; cbn [mbind result_bind]; [|done].
  intros [= <- <- <-].
  apply rmapM_Ok_length in Exi. rewrite length_np_logspace in Exi.
  rewrite !length_map, length_np_logspace, Exi. fold n.
  do 3 (split; [done|]).
  assert (Hn2 : (2 ≤ n)%nat) by (unfold n; lia).
  assert (HN : 0 < IZR ngrid) by (by apply IZR_lt).
  set (sf := if negb (Reqb u 1) then 1 * u / 1 else 1).
  set (sp := if negb (Reqb u 1) then grid_spacing * sf else grid_spacing).
  assert (Hsf : 0 < sf ∧ sp = grid_spacing * sf).
  { unfold sp, sf. destruct (Req_dec_T u 1) as [->|Hne].
    - rewrite Reqb_refl. cbn [negb]. split; lra.
    - rewrite Reqb_false by done. cbn [negb]. split; [lra|done]. }
  destruct Hsf as [Hsf Hsp].
  assert (Hsp0 : 0 < sp) by (rewrite Hsp; nra).
  destruct (np_logspace_ends (log10 sp) (log10 (IZR ngrid * sp)) n Hn2)
    as [L0 L1].
  rewrite !list_lookup_fmap. fold n. rewrite L0, L1.
  cbn [fmap option_fmap option_map].
  rewrite !Rpower_10_log10 by nra.
  split; f_equal; rewrite Hsp; field; lra.
Qed.
End CalculateXiProperties.

(** ** The Kaiser-Squires inversion *)

Open Scope R_scope.

Lemma recombine (γ : arr2 C) :
  zip2 (λ a b, Cadd (RtoC a) (Cmul (RtoC b) Ci)) (amap Re γ) (amap Im γ) = γ.
Proof.
  unfold zip2, amap. induction γ as [|row γ IH]; [done|].
  cbn [map zip_with]. rewrite IH. f_equal.
  induction row as [|z row IHr]; [done|].
  cbn [map zip_with]. rewrite IHr. f_equal.
  destruct z as [x y]. apply C_eq; cbn; ring.
Qed.

Lemma lookup2_replicate {A} (x : A) r c i j :
  (i < r)%nat → (j < c)%nat →
  lookup2 (replicate r (replicate c x)) i j = Some x.
Proof. apply (lookup2_np_empty x). Qed.

Section KSProperties.
Context `{Numpy} `{NumpyFft}.

Lemma call_shear self gd :
  let γ := amap (Cscale (INR (nx self)))
             (ifft2 (zip2 Cmul (exp2ipsi self) (realized_kappa_k self gd))) in
  (PowerSpectrumRealizer_call self gd).1.1.1 = amap Re γ ∧
  (PowerSpectrumRealizer_call self gd).1.1.2 = amap Im γ.
Proof.
  unfold PowerSpectrumRealizer_call, realized_kappa_k.
  destruct (amplitude_E self) as [aE|];
    [destruct (realize_mode self aE gd) as [E_k gd1]|];
    (destruct (amplitude_B self) as [aB|];
     [match goal with
      | |- context [realize_mode self aB ?g] =>
          destruct (realize_mode self aB g) as [B_k gd2]
      end|]); done.
Qed.

Lemma realized_kappa_k_shape n p pE pB psr gd :
  PowerSpectrumRealizer_init n p pE pB = Ok psr →
  shape (realized_kappa_k psr gd) n n ∧
  lookup2 (realized_kappa_k psr gd) 0 0 = Some C0.
Proof.
  intros Hi. pose proof (init_sized _ _ _ _ _ Hi) as Hs.
  destruct (init_inv _ _ _ _ _ Hi) as (self0 & Hs0 & _ & HE & HB).
  pose proof (set_size_pos _ _ _ Hs0) as Hn.
  assert (Hm : ∀ amp g, shape (realize_mode psr amp g).1 n n).
  { intros amp g. rewrite realize_mode_fst.
    apply shape_make_hermitian; [done|].
    destruct Hs as (-> & -> & _).
    apply shape_assign_block, shape_np_empty. }
  assert (HoE : ∀ amp g, amplitude_E psr = Some amp →
            lookup2 (realize_mode psr amp g).1 0 0 = Some C0).
  { intros amp g Ha. destruct pE as [f|]; [|by rewrite HE in Ha].
    destruct HE as (pa & Hg & HE). rewrite HE in Ha. injection Ha as <-.
    destruct (amplitude_origin _ _ _ _ _ Hs0 Hg) as [Hsh Hz].
    by apply (realize_mode_origin psr n). }
  assert (HoB : ∀ amp g, amplitude_B psr = Some amp →
            lookup2 (realize_mode psr amp g).1 0 0 = Some C0).
  { intros amp g Ha. destruct pB as [f|]; [|by rewrite HB in Ha].
    destruct HB as (pa & Hg & HB). rewrite HB in Ha. injection Ha as <-.
    destruct (amplitude_origin _ _ _ _ _ Hs0 Hg) as [Hsh Hz].
    by apply (realize_mode_origin psr n). }
  assert (Hb : ∀ x, (∀ y, x = Some y → shape y n n) →
                    shape (broadcast0 psr x) n n).
  { intros x Hx. by apply shape_broadcast0. }
  assert (Hb0 : ∀ x, (∀ y, x = Some y → lookup2 y 0 0 = Some C0) →
                     lookup2 (broadcast0 psr x) 0 0 = Some C0).
  { intros [y|] Hy; cbn; [by apply Hy|].
    destruct Hs as (-> & -> & _). by apply lookup2_replicate. }
  unfold realized_kappa_k.
  destruct (amplitude_E psr) as [aE|] eqn:EaE;
    [pose proof (Hm aE gd) as HE1; pose proof (HoE aE gd eq_refl) as HE2;
     destruct (realize_mode psr aE gd) as [E_k gd1]|];
    (destruct (amplitude_B psr) as [aB|] eqn:EaB;
     [match goal with
      | |- context [realize_mode psr aB ?g] =>
          pose proof (Hm aB g) as HB1; pose proof (HoB aB g eq_refl) as HB2;
          destruct (realize_mode psr aB g) as [B_k gd2]
      end|]);
    cbn [fst snd] in *.
  all: split; [apply shape_zip2; apply Hb; by intros y [= <-]|].
  all: rewrite lookup2_zip2, !Hb0 by (by intros y [= <-]).
  all: cbn [mbind option_bind]; f_equal; apply C_eq; cbn; ring.
Qed.

(** X26. kappaKaiserSquires inverts the shear synthesis of the realizer:
    applied to the shear fields [g1, g2] of a realization with nonzero
    pixel size (and a forward transform that undoes the inverse one), it
    returns the real and
    imaginary parts of [N * ifft2(E_k + i B_k)], the transform of the
    convergence coefficients the shear was made from. *)
Theorem kaiser_squires_inverts_the_shear (n : nat) (p : R)
    (pE pB : option power_fn) (psr : PowerSpectrumRealizer)
    (gd : GaussianDeviate) :
  (∀ a, shape a n n → shape (ifft2 a) n n) →
  (∀ c a, shape a n n →
     fft2 (amap (Cscale c) (ifft2 a)) = amap (Cscale c) a) →
  PowerSpectrumRealizer_init n p pE pB = Ok psr →
  p ≠ 0 →
  let out := (PowerSpectrumRealizer_call psr gd).1 in
  let kappa := ifft2 (amap (Cscale (INR n)) (realized_kappa_k psr gd)) in
  kappaKaiserSquires (GArray out.1.1) (GArray out.1.2)
  = KSOk (amap Re kappa) (amap Im kappa) ∧
  kappaKaiserSquires (GImage out.1.1) (GImage out.1.2)
  = KSOk (amap Re kappa) (amap Im kappa).
Proof.
  intros Hshape Hinv Hi Hp out kappa.
  pose proof (init_sized _ _ _ _ _ Hi) as Hs.
  destruct (init_inv _ _ _ _ _ Hi) as (self0 & Hs0 & _ & _ & _).
  pose proof (set_size_pos _ _ _ Hs0) as Hn.
  pose proof (init_exp2ipsi _ _ _ _ _ Hi) as He.
  destruct (realized_kappa_k_shape _ _ _ _ _ gd Hi) as [Hk Hk0].
  destruct (call_shear psr gd) as [E1 E2].
  assert (Hnx : nx psr = n) by (by destruct Hs).
  rewrite Hnx in E1, E2.
  set (γk := zip2 Cmul (exp2ipsi psr) (realized_kappa_k psr gd)) in *.
  assert (Hγk : shape γk n n) by (by apply shape_zip2).
  set (γ := amap (Cscale (INR n)) (ifft2 γk)) in *.
  assert (Hγ : shape γ n n) by (apply shape_amap; auto).
  assert (KS : ∀ g1 g2, g1 = amap Re γ → g2 = amap Im γ →
    (if negb (shape_eqb [nrows g1; ncols g1] [nrows g2; ncols g2])
     then KSRaise ValueError
     else if negb (nrows g1 =? ncols g1)%nat then KSNotImplemented
     else
       match
         ('(kx, ky) ← kxky (nrows g1, ncols g1);
          let kz := zip2 (λ x y, Cadd (RtoC x) (Cmul (RtoC y) Ci)) kx ky in
          let ksq := amap (λ z, Cmul z (Cconj z)) kz in
          ksq ← setitem ksq 0 0 (RtoC 1);
          Ok (zip2 (λ z q, Cdiv (Cmul z z) q) kz ksq))
       with
       | Raise e => KSRaise e
       | Ok exp2ipsi =>
           let gz := zip2 (λ a b, Cadd (RtoC a) (Cmul (RtoC b) Ci)) g1 g2 in
           let gz_k := fft2 gz in
           let kz_k := zip2 Cmul (amap Cconj exp2ipsi) gz_k in
           let kz := ifft2 kz_k in
           KSOk (amap Re kz) (amap Im kz)
       end) = KSOk (amap Re kappa) (amap Im kappa)).
  { intros g1 g2 -> ->.
    assert (S1 : shape (amap Re γ) n n) by (by apply shape_amap).
    assert (S2 : shape (amap Im γ) n n) by (by apply shape_amap).
    rewrite !(nrows_shape _ _ _ S1), !(ncols_shape _ _ _ S1) by done.
    rewrite !(nrows_shape _ _ _ S2), !(ncols_shape _ _ _ S2) by done.
    unfold shape_eqb. rewrite bool_decide_eq_true_2 by done.
    rewrite Nat.eqb_refl. cbn [negb].
    (* the spin factor of the inversion is the one of the realizer *)
    destruct (set_size_grids _ _ _ Hs0) as [Ekx Eky].
    assert (Hk1 : kxky (n, n)
      = Ok ((λ _ : nat, (λ j, 2 * PI * fftfreq n j) <$> seq 0 n) <$> seq 0 n,
            (λ i, (λ _ : nat, 2 * PI * fftfreq n i) <$> seq 0 n) <$> seq 0 n)).
    { unfold kxky. destruct n; [lia|]. reflexivity. }
    rewrite Hk1. cbn [mbind result_bind].
    set (kx0 := (λ _ : nat, (λ j, 2 * PI * fftfreq n j) <$> seq 0 n) <$> seq 0 n).
    set (ky0 := (λ i, (λ _ : nat, 2 * PI * fftfreq n i) <$> seq 0 n) <$> seq 0 n).
    assert (Sx : shape kx0 n n)
      by apply (shape_grid (λ _ j, 2 * PI * fftfreq n j)).
    assert (Sy : shape ky0 n n)
      by apply (shape_grid (λ i _, 2 * PI * fftfreq n i)).
    destruct (_generate_exp2ipsi kx0 ky0) as [e0|] eqn:Ee0.
    2:{ exfalso. unfold _generate_exp2ipsi in Ee0.
        destruct (setitem _ 0 0 _) eqn:Eset; [done|].
        unfold setitem in Eset.
        match type of Eset with
        | match lookup2 ?a 0 0 with _ => _ end = _ =>
            destruct (lookup2_Some a n n 0 0) as [v Hv];
              [apply shape_amap; by apply shape_zip2|lia|lia|];
            by rewrite Hv in Eset
        end. }
    assert (Hcells0 := generate_exp2ipsi_cells kx0 ky0 n 1 e0 Hn
                         ltac:(lra) Sx Sy).
    destruct Hcells0 as (Se0 & O0 & C0'); [|done|].
    { intros i j Hi' Hj'. unfold kx0, ky0.
      rewrite (lookup2_grid (λ _ j, 2 * PI * fftfreq n j)) by done.
      rewrite (lookup2_grid (λ i _, 2 * PI * fftfreq n i)) by done.
      split; f_equal; field. }
    unfold _generate_exp2ipsi in Ee0. rewrite Ee0.
    destruct (generate_exp2ipsi_cells (kx self0) (ky self0) n p (exp2ipsi self0)
                Hn Hp) as (Se & O1 & C1).
    { by destruct (shape_kx _ _ _ Hs0). }
    { by destruct (shape_kx _ _ _ Hs0). }
    { intros i j Hi' Hj'. by apply lookup2_kx. }
    { by apply (set_size_exp2ipsi n p). }
    cbv zeta. rewrite recombine.
    assert (Hfft : fft2 γ = amap (Cscale (INR n)) γk)
      by (unfold γ; by rewrite Hinv).
    rewrite !Hfft.
    assert (Hkz : zip2 Cmul (amap Cconj e0) (amap (Cscale (INR n)) γk)
                  = amap (Cscale (INR n)) (realized_kappa_k psr gd)).
    { apply (arr2_ext _ _ n n).
      - apply shape_zip2; by apply shape_amap.
      - by apply shape_amap.
      - intros i j Hi' Hj'.
        rewrite lookup2_zip2, !lookup2_amap. unfold γk.
        rewrite lookup2_zip2.
        destruct (lookup2_Some _ _ _ i j Hk Hi' Hj') as [κ Hκ]. rewrite Hκ.
        assert (Hpsr : exp2ipsi psr = exp2ipsi self0).
        { revert Hi. unfold PowerSpectrumRealizer_init. rewrite Hs0.
          cbn [mbind result_bind]. by intros (-> & _)%set_power_exp2ipsi. }
        rewrite Hpsr.
        destruct (decide ((i, j) = (0%nat, 0%nat))) as [[= -> ->]|Hij].
        + rewrite O0, O1. rewrite Hk0 in Hκ. injection Hκ as <-.
          cbn [fmap option_fmap option_map mbind option_bind].
          f_equal. apply C_eq; cbn; ring.
        + rewrite C0', C1 by done.
          cbn [fmap option_fmap option_map mbind option_bind].
          f_equal.
          assert (Hu := phase2_unit (fftfreq n j) (fftfreq n i)).
          assert (Hf : fftfreq n j ≠ 0 ∨ fftfreq n i ≠ 0).
          { destruct j as [|j]; [right|left]; apply fftfreq_nonzero; try lia.
            destruct i; [done|lia]. }
          specialize (Hu Hf).
          set (e := phase2 (fftfreq n j) (fftfreq n i)) in *.
          destruct e as [a b], κ as [x y]. cbn [Re Im] in Hu.
          apply C_eq; cbn [Cmul Cconj Cscale Re Im].
          * transitivity (INR n * x * (a ^ 2 + b ^ 2)); [ring|].
            rewrite Hu. ring.
          * transitivity (INR n * y * (a ^ 2 + b ^ 2)); [ring|].
            rewrite Hu. ring. }
    rewrite !Hkz. reflexivity. }
  split.
  - unfold kappaKaiserSquires. apply KS; subst out; done.
  - unfold kappaKaiserSquires. apply KS; subst out; done.
Qed.
End KSProperties.

(** ** The life cycle of an instance *)

Open Scope R_scope.

Section LifecycleProperties.
Context `{Numpy} `{NumpyFft} `{Galsim}.


(** X27. kappaKaiserSquires raises [TypeError] unless both inputs are
    images or both are arrays, [ValueError] when their shapes differ,
    [NotImplementedError] when the common shape is not square, and returns
    for square inputs of positive side. *)
Theorem kappaKaiserSquires_rejects (a b : arr2 R) :
  (∀ g1 g2, same_kind g1 g2 = false →
     kappaKaiserSquires g1 g2 = KSRaise TypeError) ∧
  ([nrows a; ncols a] ≠ [nrows b; ncols b] →
   kappaKaiserSquires (GArray a) (GArray b) = KSRaise ValueError ∧
   kappaKaiserSquires (GImage a) (GImage b) = KSRaise ValueError) ∧
  ([nrows a; ncols a] = [nrows b; ncols b] → nrows a ≠ ncols a →
   kappaKaiserSquires (GArray a) (GArray b) = KSNotImplemented ∧
   kappaKaiserSquires (GImage a) (GImage b) = KSNotImplemented) ∧
  (∀ n, (0 < n)%nat → shape a n n → shape b n n →
     ∃ kE kB, kappaKaiserSquires (GArray a) (GArray b) = KSOk kE kB ∧
              kappaKaiserSquires (GImage a) (GImage b) = KSOk kE kB).
Proof.
  split; [|split; [|split]].
  - by intros [?|?|] [?|?|].
  - intros Hne. unfold kappaKaiserSquires, shape_eqb.
    by rewrite bool_decide_eq_false_2.
  - intros Heq Hsq. unfold kappaKaiserSquires, shape_eqb.
    rewrite bool_decide_eq_true_2 by done. cbn [negb].
    by destruct (Nat.eqb_spec (nrows a) (ncols a)).
  - intros n Hn Sa Sb. unfold kappaKaiserSquires, shape_eqb.
    rewrite !(nrows_shape _ _ _ Sa), !(ncols_shape _ _ _ Sa) by done.
    rewrite !(nrows_shape _ _ _ Sb), !(ncols_shape _ _ _ Sb) by done.
    rewrite bool_decide_eq_true_2 by done. rewrite Nat.eqb_refl. cbn [negb].
    assert (Hk1 : kxky (n, n)
      = Ok ((λ _ : nat, (λ j, 2 * PI * fftfreq n j) <$> seq 0 n) <$> seq 0 n,
            (λ i, (λ _ : nat, 2 * PI * fftfreq n i) <$> seq 0 n) <$> seq 0 n)).
    { unfold kxky. destruct n; [lia|]. reflexivity. }
    rewrite Hk1. cbn [mbind result_bind].
    set (kx0 := (λ _ : nat, (λ j, 2 * PI * fftfreq n j) <$> seq 0 n) <$> seq 0 n).
    set (ky0 := (λ i, (λ _ : nat, 2 * PI * fftfreq n i) <$> seq 0 n) <$> seq 0 n).
    assert (Sx : shape kx0 n n)
      by apply (shape_grid (λ _ j, 2 * PI * fftfreq n j)).
    assert (Sy : shape ky0 n n)
      by apply (shape_grid (λ i _, 2 * PI * fftfreq n i)).
    unfold setitem.
    match goal with
    | |- context [lookup2 ?x 0 0] =>
        destruct (lookup2_Some x n n 0 0) as [v ->];
          [apply shape_amap; by apply shape_zip2|lia|lia|]
    end.
    cbn [mbind result_bind]. eauto.
Qed.

(** X28. A PowerSpectrum that the constructor returned has at least one
    power function, stores its arguments and the ratio of its units to
    arcsec, and has no grid: every query, subsampleGrid and
    nRandCallsForBuildGrid raise [RuntimeError] until buildGrid is
    called. *)
Theorem fresh_instance_has_no_grid (e b : option pf_input) (d : bool)
    (units : units_arg) (self : PowerSpectrum) :
  PowerSpectrum_init e b d units = Ok self →
  (is_Some e ∨ is_Some b) ∧
  e_power_function self = e ∧ b_power_function self = b ∧
  delta2 self = d ∧ resolve_units units = Ok (scale self) ∧
  (∀ pos reduced periodic interp,
     getShear self pos reduced periodic interp = (Raise RuntimeError, []) ∧
     getConvergence self pos periodic interp = (Raise RuntimeError, []) ∧
     getMagnification self pos periodic interp = (Raise RuntimeError, []) ∧
     getLensing self pos periodic interp = (Raise RuntimeError, [])) ∧
  (∀ f gc, subsampleGrid self f gc = (Raise RuntimeError, self)) ∧
  nRandCallsForBuildGrid self = Raise RuntimeError.
Proof.
  unfold PowerSpectrum_init.
  assert (Hinit :
    (_ ← _convert_power_function e;
     _ ← _convert_power_function b;
     u ← resolve_units units;
     Ok (PS e b d units (if Reqb u 1 then 1 else 1 * u / 1)
           None None None None None)) = Ok self →
    e_power_function self = e ∧ b_power_function self = b ∧
    delta2 self = d ∧ resolve_units units = Ok (scale self) ∧
    images self = None ∧ ngrid_tot self = None).
  { destruct (_convert_power_function e); cbn [mbind result_bind]; [|done].
    destruct (_convert_power_function b); cbn [mbind result_bind]; [|done].
    destruct (resolve_units units) as [u|]; cbn [mbind result_bind]; [|done].
    intros [= <-]. cbn. repeat split; try done.
    destruct (Req_dec_T u 1) as [->|Hne].
    - by rewrite Reqb_refl.
    - rewrite Reqb_false by done. f_equal. field. }
  intros Hself.
  assert (Hsome : is_Some e ∨ is_Some b).
  { destruct e; [left; eauto|]. destruct b; [right; eauto|done]. }
  assert (Hfields : e_power_function self = e ∧ b_power_function self = b ∧
    delta2 self = d ∧ resolve_units units = Ok (scale self) ∧
    images self = None ∧ ngrid_tot self = None).
  { apply Hinit. by destruct e, b. }
  destruct Hfields as (He & Hb & Hd & Hu & Him & Hnt).
  do 5 (split; [done|]).
  assert (Hbuilt : built self = Raise RuntimeError).
  { unfold built. by rewrite Him. }
  split; [|split].
  - intros pos reduced periodic interp.
    unfold getShear, getConvergence, getMagnification, getLensing.
    by rewrite Hbuilt.
  - intros f gc. unfold subsampleGrid. by rewrite Him.
  - unfold nRandCallsForBuildGrid. by rewrite Hnt.
Qed.
End LifecycleProperties.

Open Scope R_scope.

(** ** Worked instances *)

Section Instances.
#[local] Existing Instance numpy_example.
#[local] Existing Instance galsim_example.

Lemma subsampleGrid_returns_unsampled_grids_witness :
  let a := [[1; 2]; [3; 4]] in
  let self := PS (Some (PFCallable (constant_power 1))) None false
                (UnitsAngle 1) 1
                (Some (Geom 1 (0, 0) true (Bounds (-1) 1 (-1) 1)))
                (Some ()) (Some (2%Z, 1)) (Some (a, a, a)) (Some (a, a, a)) in
  ∃ self' s1 s2 sk,
    subsampleGrid self (PyInt 2) true = (Ok (a, a, Some a), self') ∧
    images self' = Some (s1, s2, sk) ∧
    strided 2 2 a s1 ∧ nrows s1 = 1%nat ∧ nrows a = 2%nat.
Proof.
  intros a self.
  destruct (subsampleGrid_returns_unsampled_grids self a a a
              (Geom 1 (0, 0) true (Bounds (-1) 1 (-1) 1)) 2 2 true)
    as (self' & s1 & s2 & sk & Hs & Hi & H1 & _ & _ & Hn & Hn' & _);
    try reflexivity; try lia;
    try (split; [reflexivity|repeat constructor]).
  exists self', s1, s2, sk. done.
Defined.

Lemma buildGrid_stores_floor_spacing_witness :
  ∃ out self' rng',
    buildGrid (ps_example 1) args_example rng_example = (Ok out, self', rng') ∧
    (∃ c adj b, geometry self' = Some (Geom (IZR (Int_part (3 / IZR 2))) c adj b)) ∧
    ngrid_tot self' = Some ((1 * 1 * 2)%Z, 3 / IZR 2).
Proof.
  destruct (buildGrid_example 1) as (out & self' & rng' & Hb); [lra|].
  exists out, self', rng'. split; [exact Hb|].
  exact (buildGrid_stores_floor_spacing _ _ _ _ _ _ _ _ _ _ _ Hb inputs_example).
Defined.

Lemma power_array_zero_at_origin_witness :
  ∃ self0, set_size 2 1 = Ok self0 ∧
    ∀ junk pf arr,
      _generate_power_array self0 junk pf = Ok arr →
      lookup2 arr 0 0 = Some 0.
Proof.
  destruct (set_size_Ok 2 1) as [self0 Hs]; [lia|].
  exists self0. split; [exact Hs|].
  exact (proj1 (power_array_zero_at_origin 2 1 self0 Hs)).
Defined.

Lemma make_hermitian_conjugate_symmetry_witness :
  ∃ self0, set_size 2 1 = Ok self0 ∧
    hermitian 2 (_make_hermitian self0 [[Ci; Ci]; [Ci; Ci]]).
Proof.
  destruct (set_size_Ok 2 1) as [self0 Hs]; [lia|].
  exists self0. split; [exact Hs|].
  assert (Hsh : shape [[Ci; Ci]; [Ci; Ci]] 2 2)
    by (split; [reflexivity|repeat constructor]).
  exact (proj1 (make_hermitian_conjugate_symmetry self0 2
                  (set_size_sized _ _ _ Hs)) _ Hsh).
Defined.

Lemma nRandCalls_counts_draws_witness :
  ∃ out self' rng',
    buildGrid (ps_example 1) args_example rng_example = (Ok out, self', rng') ∧
    nRandCallsForBuildGrid self' = Ok 8%Z ∧
    rng' = advance rng_example 8.
Proof.
  destruct (buildGrid_example 1) as (out & self' & rng' & Hb); [lra|].
  exists out, self', rng'. split; [exact Hb|].
  destruct (nRandCalls_counts_draws _ _ _ _ _ _ _ _ _ _ _ Hb inputs_example)
    as (Hn & Hr & _).
  split; [exact Hn|exact Hr].
Defined.

Lemma theoryToObserved_round_trip_witness :
  theoryToObserved (LFloat (1 / 10)) (LFloat 0) (LFloat 0)
  = Ok (LFloat (1 / 10 / (1 - 0)), LFloat (0 / (1 - 0)),
        LFloat (1 / ((1 - 0) ^ 2 - ((1 / 10) ^ 2 + 0 ^ 2)))).
Proof. exact (proj1 (theoryToObserved_round_trip (1 / 10) 0 0)). Defined.

Lemma bad_string_raises_NameError_witness :
  _convert_power_function (Some (PFString "k**")) = Raise NameError.
Proof.
  apply (bad_string_raises_NameError "k**").
  split; [reflexivity|]. left. eexists. reflexivity.
Defined.

Lemma negative_power_fails_before_draws_witness :
  ∃ e self',
    buildGrid (ps_example (-1)) (args_hard 4) rng_example
    = (Raise e, self', rng_example).
Proof.
  destruct (set_size_Ok 4 (1 / IZR 1)) as [psr0 Hs]; [lia|].
  destruct (sampled_k_Ok _ _ _ Hs) as (kk & Hk & Hsh); [lia|].
  destruct (lookup2_Some kk _ _ 1 0 Hsh) as [k Hl];
    [change (4 / 2 + 1)%nat with 3%nat; lia..|].
  destruct (sampled_k_cell _ _ _ _ _ _ _ Hs Hk Hl) as (_ & _ & Hkv).
  cbn [Nat.eqb andb] in Hkv.
  assert (Hlt : k < PI).
  { pose proof PI_RGT_0. rewrite Hkv. unfold kval.
    apply Rlt_le_trans with (sqrt (PI ^ 2)); [|rewrite sqrt_pow2; lra].
    apply sqrt_lt_1_alt.
    unfold fftfreq; cbn [Nat.ltb Nat.leb Nat.add Nat.div Nat.divmod fst INR].
    split; nra. }
  apply (proj2 (negative_power_fails_before_draws (ps_example (-1))
                  (args_hard 4) rng_example)
           1 4%Z 1%Z 1%Z (0, 0) 1 (PI / 1) _hard_cutoff psr0
           (constant_power (-1)) kk 1%nat 0%nat k (-1)).
  - apply inputs_hard.
  - apply floordiv_hard.
  - unfold py_truediv. rewrite Reqb_false by lra. reflexivity.
  - reflexivity.
  - left. reflexivity.
  - exact Hs.
  - exact Hk.
  - exact Hl.
  - done.
  - reflexivity.
  - lra.
  - cbn. lra.
  - cbn [scale ps_example]. unfold _hard_cutoff.
    rewrite Rltb_true; lra.
Defined.

Lemma bounds_includes_example :
  bounds_includes (Bounds (-1) 1 (-1) 1) (5, 5) = false.
Proof.
  unfold bounds_includes, bounds_defined. cbn [xmin xmax ymin ymax fst snd].
  rewrite (Rleb_false 5 1) by lra. by rewrite !andb_false_r.
Qed.

Lemma out_of_bounds_fallback_witness :
  let a := [[1; 2]; [3; 4]] in
  let self := PS (Some (PFCallable (constant_power 1))) None false
                (UnitsAngle 1) 1
                (Some (Geom 1 (0, 0) true (Bounds (-1) 1 (-1) 1)))
                (Some ()) (Some (2%Z, 1)) (Some (a, a, a)) (Some (a, a, a)) in
  ∃ shear kappa mu ws wk wm,
    getShear self [(5, 5)] true false None = (Ok shear, ws) ∧
    getConvergence self [(5, 5)] false None = (Ok kappa, wk) ∧
    getMagnification self [(5, 5)] false None = (Ok mu, wm) ∧
    shear !! 0%nat = Some (0, 0) ∧ kappa !! 0%nat = Some 0 ∧
    mu !! 0%nat = Some 1 ∧ OutsideBounds (5, 5) ∈ ws.
Proof.
  intros a self.
  destruct (out_of_bounds_fallback self a a a
              (Geom 1 (0, 0) true (Bounds (-1) 1 (-1) 1)) ()
              [(5, 5)] true None 0 (5, 5))
    as (shear & kappa & mu & ws & wk & wm & H1 & H2 & H3 & H4 & H5 & H6 & H7 & _);
    [reflexivity..|apply bounds_includes_example|].
  exists shear, kappa, mu, ws, wk, wm. done.
Defined.

Lemma int1d_of_zero_example : int1d_of_zero.
Proof.
  intros g a b r e Hg. cbn. rewrite Hg. cbn. f_equal. ring.
Qed.

Lemma calculateXi_zero_power_witness :
  ∃ theta,
    calculateXi (ps_example 0) 1 (PyInt 4) (PyInt 1) (PyInt 1) (PyInt 3)
      (UnitsAngle 1) BandHard
    = Ok (theta, replicate 3 0, replicate 3 0) ∧ length theta = 3%nat.
Proof.
  refine (proj2 (calculateXi_zero_power (ps_example 0) (constant_power 0)
                   1 4 1 1 3 (UnitsAngle 1) 1 BandHard
                   int1d_of_zero_example eq_refl eq_refl (λ _, eq_refl)
                   eq_refl _ _ _ _)).
  - lia.
  - done.
  - cbv zeta. rewrite Reqb_refl. cbn [negb]. lra.
  - cbv zeta. rewrite Reqb_refl. cbn [negb]. lra.
Defined.
End Instances.

(** ** Further worked instances *)

Open Scope R_scope.

Section ExampleBuilds.
Context (N : Numpy).
#[local] Existing Instance galsim_example.

Lemma init_constant_power_B n p pf c :
  (2 ≤ n)%nat → pf_table pf = None → (∀ k, pf_call pf k = Ok c) → 0 <= c →
  ∃ psr, PowerSpectrumRealizer_init n p None (Some pf) = Ok psr.
Proof.
  intros Hn Ht Hc Hpos. unfold PowerSpectrumRealizer_init.
  destruct (set_size n p) as [self0|] eqn:Hs.
  - rsimpl. unfold set_power.
    destruct (generate_power_array_constant n p self0 junkR pf c)
      as [arr ->]; try done.
    rsimpl. by eexists.
  - destruct (set_size_Ok n p) as [? Hs']; [lia|]. by rewrite Hs in Hs'.
Qed.

Lemma buildGrid_example_any c :
  0 <= c →
  ∃ out self' rng',
    buildGrid (ps_example c) args_example rng_example = (Ok out, self', rng').
Proof.
  intros Hc.
  destruct (wrapped_constant c (λ _ _, 1) (PI / 1)) as (p & Hp & Ht & Hcall).
  destruct (init_constant_power 2 (3 / IZR 2) p (c * 1)) as [psr Hpsr];
    [lia|done|done|lra|].
  eapply (buildGrid_succeeds _ _ _ 3 1%Z 1%Z 2%Z (0, 0) 1 (Some p) None psr).
  - apply inputs_example.
  - apply floordiv_example.
  - cbn [bg_bandlimit args_example]. by rewrite power_example, Hp.
  - lia.
  - exact Hpsr.
Qed.

Lemma power_B_example :
  ∃ p, buildGrid_power ps_B_example 1 BandNone = Ok (None, Some p) ∧
       pf_table p = None ∧ ∀ k, pf_call p k = Ok (1 * 1).
Proof.
  eexists. split; [|split].
  - unfold buildGrid_power.
    cbn [ps_B_example e_power_function b_power_function].
    cbn [_convert_power_function constant_power pf_lambda pf_table call_arr1
         rmapM pf_call]. rsimpl.
    unfold py_truediv. rewrite Reqb_false by lra. reflexivity.
  - reflexivity.
  - intros k. cbn. by rewrite Reqb_refl.
Qed.

Lemma buildGrid_example_B :
  ∃ out self' rng',
    buildGrid ps_B_example args_example rng_example = (Ok out, self', rng').
Proof.
  destruct power_B_example as (p & Hp & Ht & Hcall).
  destruct (init_constant_power_B 2 (3 / IZR 2) p (1 * 1)) as [psr Hpsr];
    [lia|done|done|lra|].
  eapply (buildGrid_succeeds _ _ _ 3 1%Z 1%Z 2%Z (0, 0) 1 None (Some p) psr).
  - apply inputs_example.
  - apply floordiv_example.
  - exact Hp.
  - lia.
  - exact Hpsr.
Qed.
End ExampleBuilds.

Section MoreInstances.
#[local] Existing Instance numpy_example.
#[local] Existing Instance galsim_example.
#[local] Existing Instance fft_example.

Lemma theoryToObserved_sequences_witness :
  theoryToObserved (LList [1 / 10]) (LList [0]) (LList [0])
  = Ok (LList [reduced_shear (1 / 10) 0], LList [reduced_shear 0 0],
        LList [magnification (1 / 10) 0 0]).
Proof.
  exact (proj1 (theoryToObserved_sequences [1 / 10] [0] [0] eq_refl eq_refl)).
Defined.

Lemma buildGrid_stores_what_it_returns_witness :
  ∃ g1 g2 okappa self' rng' kappa,
    buildGrid (ps_example 1) args_example rng_example
    = (Ok (g1, g2, okappa), self', rng') ∧
    grids self' = Some (g1, g2, kappa) ∧
    images self' = Some (g1, g2, kappa) ∧ okappa = Some kappa.
Proof.
  destruct (buildGrid_example_any numpy_example 1)
    as ([[g1 g2] ok] & self' & rng' & Hb); [lra|].
  destruct (buildGrid_stores_what_it_returns _ _ _ _ _ _ _ _ Hb)
    as (kappa & Hg & Hi & Hk & _).
  by exists g1, g2, ok, self', rng', kappa.
Defined.

Lemma floor_example : IZR (Int_part (3 / IZR 2)) = 1.
Proof.
  pose proof floordiv_example as Hf. unfold py_floordiv in Hf.
  rewrite Reqb_false in Hf by lra. by injection Hf.
Qed.

Lemma power_badband :
  buildGrid_power (built_example [[1]]) 1 BandOther = Raise RuntimeError.
Proof.
  unfold buildGrid_power.
  cbn [built_example e_power_function b_power_function].
  cbn [_convert_power_function constant_power pf_lambda pf_table call_arr1
       rmapM pf_call]. rsimpl.
  unfold py_truediv. rewrite Reqb_false by lra. reflexivity.
Qed.

(** On an instance with a grid, a build with an unrecognized band limit
    fails after the arguments have been accepted. *)
Lemma buildGrid_badband_example :
  ∃ self',
    buildGrid (built_example [[1]]) args_badband rng_example
    = (Raise RuntimeError, self', rng_example).
Proof.
  assert (Hi : buildGrid_inputs args_badband = Ok (3, 1%Z, 1%Z, 2%Z, (0, 0))).
  { unfold buildGrid_inputs, args_badband. cbn. by rewrite Reqb_refl. }
  unfold buildGrid. rewrite Hi. rsimpl. rewrite floordiv_example. rsimpl.
  rewrite buildGrid_power_with.
  cbn [bg_bandlimit args_badband]. rewrite power_badband. eauto.
Qed.

Lemma failed_build_keeps_grids_witness :
  ∃ self',
    buildGrid (built_example [[1]]) args_badband rng_example
    = (Raise RuntimeError, self', rng_example) ∧
    grids self' = Some ([[1]], [[1]], [[1]]) ∧
    images self' = Some ([[1]], [[1]], [[1]]) ∧
    geometry self'
    = Some (Geom (IZR (Int_part (3 / IZR 2))) (0, 0) false
              (bounds_expand
                 (Bounds (0 - IZR 1 * 3 / 2) (0 + IZR 1 * 3 / 2)
                         (0 - IZR 1 * 3 / 2) (0 + IZR 1 * 3 / 2))
                 (1 + 1 / 10 ^ 15))) ∧
    ngrid_tot self' = Some (2%Z, 1).
Proof.
  destruct buildGrid_badband_example as (self' & Hb).
  exists self'. split; [exact Hb|].
  destruct (failed_build_keeps_grids _ _ _ _ _ _ Hb)
    as (Hg & Hi & _ & _ & _ & _ & _ & _ & Hlate).
  assert (Hin : buildGrid_inputs args_badband = Ok (3, 1%Z, 1%Z, 2%Z, (0, 0))).
  { unfold buildGrid_inputs, args_badband. cbn. by rewrite Reqb_refl. }
  destruct (Hlate 3 1%Z 1%Z 2%Z (0, 0) Hin) as [_ Hl].
  destruct Hl as (Hgeo & _ & Hn & _); [done|].
  split; [exact Hg|]. split; [exact Hi|]. split; [exact Hgeo|].
  refine (proj2 (Hn RuntimeError _)).
  rewrite floor_example. apply power_badband.
Defined.

Lemma inputs_small :
  buildGrid_inputs args_small = Ok (1, 1%Z, 1%Z, 2%Z, (0, 0)).
Proof.
  unfold buildGrid_inputs, args_small. cbn. by rewrite Reqb_refl.
Qed.

Lemma buildGrid_small_spacing_fails_witness :
  ∃ self', buildGrid (ps_example 1) args_small rng_example
           = (Raise ZeroDivisionError, self', rng_example).
Proof.
  apply (buildGrid_small_spacing_fails (ps_example 1) args_small rng_example
           1 1 1 2 (0, 0) inputs_small eq_refl eq_refl).
  right. change (IZR 2) with 2. lra.
Defined.

Lemma pure_B_mode_has_zero_convergence_witness :
  ∃ g1 g2 okappa self' rng',
    buildGrid ps_B_example args_example rng_example
    = (Ok (g1, g2, okappa), self', rng') ∧
    images self' = Some (g1, g2, [[0]]) ∧ okappa = Some [[0]].
Proof.
  destruct (buildGrid_example_B numpy_example)
    as ([[g1 g2] ok] & self' & rng' & Hb).
  destruct (pure_B_mode_has_zero_convergence _ _ _ _ _ _ _ _ _ _ _ _ _
              Hb inputs_example eq_refl ltac:(lia) ltac:(lia))
    as (Hi & _ & Hk).
  by exists g1, g2, ok, self', rng'.
Defined.
End MoreInstances.

Section ShapedInstances.
#[local] Existing Instance numpy_shaped.
#[local] Existing Instance galsim_example.

Lemma buildGrid_returns_ngrid_square_witness :
  ∃ g1 g2 okappa self' rng',
    buildGrid (ps_example 1) args_example rng_example
    = (Ok (g1, g2, okappa), self', rng') ∧
    shape g1 1 1 ∧ shape g2 1 1.
Proof.
  destruct (buildGrid_example_any numpy_shaped 1)
    as ([[g1 g2] ok] & self' & rng' & Hb); [lra|].
  destruct (@buildGrid_returns_ngrid_square numpy_shaped galsim_example
              (λ a r c Ha, Ha) (λ a r c, shape_replicate 0 r c)
              _ _ _ _ _ _ _ _ _ _ _ _ _
              Hb inputs_example ltac:(lia) ltac:(lia))
    as (_ & S1 & S2 & _).
  by exists g1, g2, ok, self', rng'.
Defined.
End ShapedInstances.

Lemma shape_2x2 {A} (a b c d : A) : shape [[a; b]; [c; d]] 2 2.
Proof. split; [reflexivity|repeat constructor]. Qed.

Section CalculateXiExample.
Context `{Numpy} `{Galsim}.

(** calculateXi returns for a zero E-mode spectrum. *)
Lemma calculateXi_zero_returns (self : PowerSpectrum) (f : power_fn)
    (grid_spacing : R) (ngrid kmax_factor kmin_factor n_theta : Z)
    (units : units_arg) (u : R) (bandlimit : bandlimit_arg) :
  int1d_of_zero →
  e_power_function self = Some (PFCallable f) →
  b_power_function self = None →
  (∀ k, pf_call f k = Ok 0) →
  resolve_units units = Ok u →
  (0 ≤ n_theta)%Z →
  bandlimit ≠ BandOther →
  let scale_fac := if negb (Reqb u 1) then 1 * u / 1 else 1 in
  let spacing :=
    if negb (Reqb u 1) then grid_spacing * scale_fac else grid_spacing in
  spacing ≠ 0 →
  IZR ngrid * spacing * IZR kmin_factor ≠ 0 →
  ∃ r,
    calculateXi self grid_spacing (PyInt ngrid) (PyInt kmax_factor)
      (PyInt kmin_factor) (PyInt n_theta) units bandlimit = Ok r.
Proof.
  intros Hint He Hb Hf Hu Hn Hbl scale_fac spacing Hsp Hkmin.
  assert (Hconv : _convert_power_function (e_power_function self) = Ok (Some f)).
  { rewrite He. unfold _convert_power_function. rsimpl.
    destruct (pf_table f); [done|].
    unfold call_arr1. cbn [rmapM]. rewrite !Hf. reflexivity. }
  unfold calculateXi. cbn [check_int]. rsimpl. rewrite Hu. rsimpl.
  destruct (Z.ltb_spec n_theta 0); [lia|]. rsimpl.
  rewrite Hconv, Hb, convert_None. rsimpl.
  fold scale_fac. fold spacing.
  rewrite !py_truediv_nonzero by done. rsimpl.
  destruct (bandlimit_func bandlimit) as [bl|] eqn:Ebl;
    [|by destruct bandlimit].
  rsimpl.
  match goal with
  | |- context [rmapM ?g ?l] =>
      rewrite (rmapM_const g (0, 0) l)
  end.
  - rsimpl. eauto.
  - intros th. cbn [wrap_power].
    set (g := pf_lambda _).
    assert (Hg : ∀ k, pf_call g k = Ok 0)
      by (by eapply (wrap_power_zero self bl)).
    rewrite !Hint; [done| |].
    + intros k. unfold xip_integrand. rewrite Hg. rsimpl. f_equal. ring.
    + intros k. unfold xim_integrand. rewrite Hg. rsimpl. f_equal. ring.
Qed.
End CalculateXiExample.

Section MoreInstances2.
#[local] Existing Instance numpy_example.
#[local] Existing Instance galsim_example.
#[local] Existing Instance fft_example.

Lemma subsampleGrid_composes_witness :
  let a := replicate 4 (replicate 4 1) in
  ∃ self1 self2 r,
    subsampleGrid (built_example a) (PyInt 2) true = (Ok r, self1) ∧
    subsampleGrid self1 (PyInt 2) true = (Ok r, self2) ∧
    subsampleGrid (built_example a) (PyInt 4) true = (Ok r, self2).
Proof.
  intros a.
  destruct (subsampleGrid_composes (built_example a) a a a (a, a, a)
              (Geom 1 (0, 0) true (Bounds (-1) 1 (-1) 1)) 2 2 4 true
              eq_refl eq_refl eq_refl
              (shape_replicate _ _ _) (shape_replicate _ _ _)
              (shape_replicate _ _ _)
              ltac:(lia) ltac:(lia) ltac:(lia) eq_refl)
    as (self1 & self2 & r & H1 & H2 & H3 & _).
  by exists self1, self2, r.
Defined.

Lemma getConvergence_example :
  getConvergence (built_example [[1]]) [(5, 5)] false None
  = (Ok [0], [OutsideBounds (5, 5)]).
Proof.
  unfold getConvergence.
  cbn [built built_example images geometry interpolant].
  rsimpl. cbn [interp_image]. rsimpl.
  rewrite query_loop_nonperiodic. cbn [fmap list_fmap bounds].
  rewrite filter_cons, filter_nil.
  unfold query_value. cbn [bounds]. rewrite bounds_includes_example.
  by rewrite decide_True by done.
Qed.

Lemma queries_return_one_value_per_position_witness :
  ∃ l w,
    getConvergence (built_example [[1]]) [(5, 5)] false None = (Ok l, w) ∧
    length l = 1%nat ∧ w = [OutsideBounds (5, 5)].
Proof.
  exists [0], [OutsideBounds (5, 5)]. split; [exact getConvergence_example|].
  destruct (proj1 (proj2
    (queries_return_one_value_per_position (built_example [[1]])
       (Geom 1 (0, 0) true (Bounds (-1) 1 (-1) 1)) [(5, 5)]
       false false None eq_refl)) _ _ getConvergence_example) as [Hl Hw].
  split; [exact Hl|reflexivity].
Defined.

Lemma getLensing_example :
  getLensing (built_example [[1]]) [(5, 5)] false None
  = (Ok [(0, 0, 1)], [OutsideBounds (5, 5)]).
Proof.
  unfold getLensing. cbn [built built_example images geometry interpolant].
  rsimpl.
  rewrite (theoryToObserved_array [[1]] [[1]] [[1]] eq_refl eq_refl).
  rsimpl. cbn [interp_image fst snd np_array]. rsimpl.
  rewrite query_loop_nonperiodic. cbn [fmap list_fmap bounds].
  rewrite filter_cons, filter_nil.
  unfold query_value. cbn [bounds]. rewrite bounds_includes_example.
  by rewrite decide_True by done.
Qed.

Lemma getLensing_agrees_with_getShear_getMagnification_witness :
  getShear (built_example [[1]]) [(5, 5)] true false None
  = (Ok [(0, 0)], [OutsideBounds (5, 5)]) ∧
  getMagnification (built_example [[1]]) [(5, 5)] false None
  = (Ok [1], [OutsideBounds (5, 5)]).
Proof.
  exact (getLensing_agrees_with_getShear_getMagnification
           (built_example [[1]]) [(5, 5)] false None _ _ getLensing_example).
Defined.

Lemma wrap_pos_periodic_witness :
  wrap_pos (Bounds (-1) 1 (-1) 1)
    (0 + IZR 1 * (1 - -1), 0 + IZR (-2) * (1 - -1)) = Ok (0, 0).
Proof.
  assert (Hlt : -1 < 1) by lra.
  assert (Hin : -1 <= 0 < 1) by lra.
  exact (proj2 (wrap_pos_periodic (Bounds (-1) 1 (-1) 1) (0, 0) Hlt Hlt)
           Hin Hin 1%Z (-2)%Z).
Defined.

Lemma wrap_image_is_periodic_extension_witness :
  ∃ w, _wrap_image [[1; 2]; [3; 4]] 1 = Ok w ∧ shape w 4 4.
Proof.
  destruct (wrap_image_is_periodic_extension [[1; 2]; [3; 4]] 2 2 1
              (shape_2x2 _ _ _ _) ltac:(lia) ltac:(lia) ltac:(lia))
    as (w & Hw & Sw & _).
  by exists w.
Defined.

Lemma periodic_queries_need_eight_columns_witness :
  getConvergence (built_example [[1; 2]; [3; 4]]) [(0, 0)] true None
  = (Raise RuntimeError, []).
Proof.
  exact (proj1 (proj2
    (periodic_queries_need_eight_columns (built_example [[1; 2]; [3; 4]])
       _ _ _ _ _ 2 [(0, 0)] true None eq_refl
       (shape_2x2 _ _ _ _) (shape_2x2 _ _ _ _) (shape_2x2 _ _ _ _)
       ltac:(lia)))).
Defined.

Lemma periodic_convergence_wraps_witness :
  let a := replicate 8 (replicate 8 1) in
  ∃ w l,
    _wrap_image a 7 = Ok w ∧ shape w 22 22 ∧
    getConvergence (built_example a) [(5, 5); (0, 0)] true None = (Ok l, []).
Proof.
  intros a.
  assert (Hlt : -1 < 1) by lra.
  destruct (periodic_convergence_wraps (built_example a) a a a _ _ 8
              [(5, 5); (0, 0)] None eq_refl (shape_replicate _ _ _)
              ltac:(lia) Hlt Hlt)
    as (w & Hw & Sw & _ & Hq & _).
  exists w. eexists. split; [exact Hw|]. split; [exact Sw|exact Hq].
Defined.

Lemma softening_function_values_witness :
  0 < _softening_function 1 2 < 1 ∧
  _softening_function 2 2 = 5 / 100 ∧
  _softening_function (95 / 100 * 2) 2 = 95 / 100.
Proof.
  apply (softening_function_values 1 2); lra.
Defined.

Lemma hard_bandlimit_removes_power_witness :
  ∃ p, wrap_power (ps_example 1) _hard_cutoff 2 (Some (constant_power 1))
       = Some p ∧
       ∀ k v, 2 <= k → pf_call p k = Ok v → v = 0.
Proof.
  eexists. split; [reflexivity|].
  assert (Hs : 0 <= scale (ps_example 1)) by (cbn; lra).
  exact (proj1 (hard_bandlimit_removes_power (ps_example 1)
                  (constant_power 1) _ 2 Hs eq_refl)).
Defined.

Lemma exp2ipsi_is_a_phase_witness :
  ∃ self, set_size 2 1 = Ok self ∧
          lookup2 (exp2ipsi self) 0 0 = Some C0 ∧
          shape (exp2ipsi self) 2 2.
Proof.
  destruct (set_size_Ok 2 1) as [self Hs]; [lia|].
  destruct (exp2ipsi_is_a_phase 2 1 self Hs ltac:(lra)) as (Hsh & H0 & _).
  by exists self.
Defined.

Lemma make_hermitian_reads_half_plane_witness :
  let a := [[Ci; Ci; C0]; [Ci; Ci; C0]; [Ci; Ci; C0]] in
  let b := [[Ci; Ci; Ci]; [Ci; Ci; Ci]; [Ci; Ci; Ci]] in
  ∃ self, set_size 3 1 = Ok self ∧ _make_hermitian self a = _make_hermitian self b.
Proof.
  intros a b.
  destruct (set_size_Ok 3 1) as [self Hs]; [lia|].
  exists self. split; [exact Hs|].
  assert (Sa : shape a 3 3) by (split; [reflexivity|repeat constructor]).
  assert (Sb : shape b 3 3) by (split; [reflexivity|repeat constructor]).
  assert (Hab : ∀ i j, (i < 3)%nat → (j ≤ 3 / 2)%nat →
            lookup2 a i j = lookup2 b i j).
  { intros i j Hi Hj. change (3 / 2)%nat with 1%nat in Hj.
    destruct i as [|[|[|i]]]; [| | |lia]; destruct j as [|[|j]]; try lia;
      reflexivity. }
  exact (proj1 (make_hermitian_reads_half_plane self 3 a b
                  (set_size_sized _ _ _ Hs) Sa Sb Hab)).
Defined.

Lemma power_array_is_filled_and_mirrored_witness :
  ∃ self arr,
    set_size 2 1 = Ok self ∧
    _generate_power_array self 0 (constant_power 1) = Ok arr ∧
    shape arr 2 2 ∧
    ∀ junk', _generate_power_array self junk' (constant_power 1) = Ok arr.
Proof.
  destruct (set_size_Ok 2 1) as [self Hs]; [lia|].
  destruct (generate_power_array_constant 2 1 self 0 (constant_power 1) 1 Hs)
    as [arr Hg]; [lia|done|done|lra|].
  destruct (power_array_is_filled_and_mirrored 2 1 self 0 _ arr Hs Hg)
    as (Hsh & Hj & _).
  by exists self, arr.
Defined.

Lemma recompute_power_is_identity_witness :
  ∃ psr,
    PowerSpectrumRealizer_init 2 1 (Some (constant_power 1)) None = Ok psr ∧
    recompute_power psr = Ok psr.
Proof.
  destruct (init_constant_power 2 1 (constant_power 1) 1) as [psr Hi];
    [lia|done|done|lra|].
  exists psr. split; [exact Hi|].
  exact (proj1 (recompute_power_is_identity 2 1 _ _ psr Hi)).
Defined.

Lemma calculateXi_rejects_B_mode_witness :
  calculateXi ps_EB_example 1 (PyInt 4) (PyInt 1) (PyInt 1) (PyInt 3)
    (UnitsAngle 1) BandNone
  = Raise TypeError.
Proof.
  refine (calculateXi_rejects_B_mode ps_EB_example 1 4 1 1 3 (UnitsAngle 1) 1
            BandNone (mk_is_Some _ _ eq_refl) eq_refl eq_refl eq_refl
            _ _ _ _).
  - lia.
  - done.
  - cbv zeta. rewrite Reqb_refl. cbn [negb]. lra.
  - cbv zeta. rewrite Reqb_refl. cbn [negb]. lra.
Defined.

Lemma calculateXi_theta_endpoints_witness :
  ∃ theta xi_p xi_m,
    calculateXi (ps_example 0) 1 (PyInt 4) (PyInt 1) (PyInt 1) (PyInt 3)
      (UnitsAngle 1) BandNone = Ok (theta, xi_p, xi_m) ∧
    theta !! 0%nat = Some 1 ∧ theta !! 2%nat = Some (IZR 4 * 1).
Proof.
  destruct (calculateXi_zero_returns (ps_example 0) (constant_power 0)
              1 4 1 1 3 (UnitsAngle 1) 1 BandNone
              int1d_of_zero_example eq_refl eq_refl (λ _, eq_refl) eq_refl)
    as [[[theta xp] xm] Hc].
  - lia.
  - done.
  - cbv zeta. rewrite Reqb_refl. cbn [negb]. lra.
  - cbv zeta. rewrite Reqb_refl. cbn [negb]. lra.
  - destruct (calculateXi_theta_endpoints _ _ _ _ _ _ _ 1 _ _ _ _ Hc eq_refl)
      as (_ & _ & _ & H0 & H1); [lra|lra|lia|lia|].
    by exists theta, xp, xm.
Defined.

Lemma kaiser_squires_inverts_the_shear_witness :
  ∃ psr,
    PowerSpectrumRealizer_init 2 1 (Some (constant_power 1)) None = Ok psr ∧
    let out := (PowerSpectrumRealizer_call psr rng_example).1 in
    let kappa := amap (Cscale (INR 2)) (realized_kappa_k psr rng_example) in
    kappaKaiserSquires (GArray out.1.1) (GArray out.1.2)
    = KSOk (amap Re kappa) (amap Im kappa).
Proof.
  destruct (init_constant_power 2 1 (constant_power 1) 1) as [psr Hi];
    [lia|done|done|lra|].
  exists psr. split; [exact Hi|].
  exact (proj1 (@kaiser_squires_inverts_the_shear numpy_example fft_example
                  2 1 _ _ psr rng_example
                  (λ a Ha, Ha) (λ c a Ha, eq_refl) Hi ltac:(lra))).
Defined.

Lemma fresh_instance_has_no_grid_witness :
  ∃ self,
    PowerSpectrum_init (Some (PFCallable (constant_power 1))) None false
      (UnitsAngle 1) = Ok self ∧
    nRandCallsForBuildGrid self = Raise RuntimeError ∧
    getConvergence self [(0, 0)] false None = (Raise RuntimeError, []).
Proof.
  eexists. split; [reflexivity|].
  destruct (fresh_instance_has_no_grid
              (Some (PFCallable (constant_power 1))) None false
              (UnitsAngle 1) _ eq_refl)
    as (_ & _ & _ & _ & _ & Hq & _ & Hn).
  split; [exact Hn|]. exact (proj1 (proj2 (Hq [(0, 0)] false false None))).
Defined.

Lemma buildGrid_bounds_cover_the_grid_witness :
  ∃ out self' rng' g,
    buildGrid (ps_example 1) args_example rng_example = (Ok out, self', rng') ∧
    geometry self' = Some g ∧ adjust_center g = false ∧ center g = (0, 0).
Proof.
  destruct (buildGrid_example_any numpy_example 1)
    as (out & self' & rng' & Hb); [lra|].
  destruct (buildGrid_bounds_cover_the_grid _ _ _ _ _ _ _ _ _ _ _
              Hb inputs_example) as (g & Hg & Ha & Hc & _).
  { change (IZR 1) with 1. lra. }
  by exists out, self', rng', g.
Defined.
End MoreInstances2.
